(** * viral_shorts: the media assembly pipeline, embedded and verified

    A shallow embedding of the parts of the [viral_shorts] package that the
    specification talks about:

    - [narration/tts.py]          (modules [TTS] and [TTS64]): word timing
      synthesis and the two speech backends;
    - [video_assembly/assets.py]  (module [Assets]): download with retries,
      candidate selection, URL extraction;
    - [video_assembly/editor.py]  (module [Editor]): caption rendering and
      audio mixing;
    - [publishing/scheduler.py]   (module [Scheduler]): the upload queue;
    - [narration/voice_manager.py] (module [Voices]), the keyword
      extraction of [content_sourcing/parsers.py] (module [Parsers]) and
      the acquisition step of [main.py] (module [Pipeline]).

    Conventions of the embedding.

    - A Python [float] is modelled by the rational number that the double
      denotes ([Q]); module [Float] gives the arithmetic of IEEE 754
      binary64: every operation is the exact operation followed by
      rounding to the nearest double, ties to even.  Infinities and NaN
      are outside the model, so statements on doubles are for values of
      magnitude at most [2^1000], where no operation of the code
      overflows.  [round(x, 3)] is round-half-to-even at three decimals of
      the exact value of the double, then the nearest double, as in
      CPython.
    - The timing synthesizer is embedded twice: in module [TTS64] on
      doubles, where the value of a field is stated, and in module [TTS]
      on exact rationals, an idealisation that is used for the order of
      the timings of a narration.
    - Python [str] is modelled by [string], one character per code point.
    - External effects (network, sub-processes, the file system, the
      clock, the random generator) are explicit: oracles that a function
      receives, and a log or a state that it returns. *)

From Stdlib Require Import ZArith QArith Qround Qpower Qabs Lia Lqa.
From Stdlib Require Import String Ascii List Sorted DecimalString.
From Stdlib Require PrimFloat FloatOps SpecFloat Uint63.
From stdpp Require Import base option list strings gmap.

Import ListNotations.
Local Open Scope string_scope.
Local Open Scope list_scope.

(* ===================================================================== *)
(** * Part I: the embedding                                               *)
(* ===================================================================== *)

(** ** Python built-ins used by the sources *)

Module Py.

(** [str.isspace] on one character, for code points below 256. *)
Definition isspace (c : ascii) : bool :=
  let n := nat_of_ascii c in
  (Nat.leb 9 n && Nat.leb n 13) || (Nat.leb 28 n && Nat.leb n 32)
  || Nat.eqb n 133 || Nat.eqb n 160.

(** The scanning loop of [str.split()] with no separator: [cur] holds the
    characters of the word being read, most recent first. *)
Fixpoint split_from (cur : string) (s : string) : list string :=
  match s with
  | EmptyString =>
      match cur with
      | EmptyString => []
      | _ => [String.rev cur]
      end
  | String c rest =>
      if isspace c then
        match cur with
        | EmptyString => split_from EmptyString rest
        | _ => String.rev cur :: split_from EmptyString rest
        end
      else split_from (String c cur) rest
  end.

(** [text.split()] *)
Definition split (text : string) : list string := split_from EmptyString text.

(** Rounding of a rational to the nearest integer, ties to the even one. *)
Definition round_half_even (x : Q) : Z :=
  let f := Qfloor x in
  match (x - inject_Z f ?= 1 # 2)%Q with
  | Lt => f
  | Gt => (f + 1)%Z
  | Eq => if Z.even f then f else (f + 1)%Z
  end.

(** [round(x, ndigits)] for a non-negative [ndigits]. *)
Definition round (x : Q) (ndigits : nat) : Q :=
  let scale := Pos.pow 10 (Pos.of_nat ndigits) in
  match ndigits with
  | O => inject_Z (round_half_even x)
  | S _ => round_half_even (x * inject_Z (Z.pos scale)) # scale
  end.

(** [int(x)]: truncation towards zero. *)
Definition int (x : Q) : Z := Z.quot (Qnum x) (Z.pos (Qden x)).

(** [len(xs)] as a float operand. *)
Definition flen {A} (xs : list A) : Q := inject_Z (Z.of_nat (length xs)).

(** What a call yields: a value, or an exception that leaves the callee. *)
Inductive outcome (A : Type) : Type :=
  | Return (a : A)
  | Raise.
Arguments Return {A} a.
Arguments Raise {A}.

(** Truth value of a string and of a list: empty is false. *)
Definition str_truthy (s : string) : bool := negb (String.eqb s "").
Definition list_truthy {A} (l : list A) : bool :=
  match l with [] => false | _ :: _ => true end.

(** [range(n)] *)
Definition range (n : Z) : list Z := map Z.of_nat (seq 0 (Z.to_nat n)).

(** [random.choice(seq)], given the generator's draw [rnd]: the element at
    index [rnd mod len(seq)]; [None] stands for the IndexError on []. *)
Definition choice {A} (l : list A) (rnd : nat) : option A :=
  match l with
  | [] => None
  | _ :: _ => l !! (rnd mod length l)%nat
  end.

(** [str.upper] on ASCII text: the letters a-z are raised, every other
    character stays. *)
Definition upper_char (c : ascii) : ascii :=
  let n := nat_of_ascii c in
  if Nat.leb 97 n && Nat.leb n 122 then ascii_of_nat (n - 32) else c.

Fixpoint ascii_upper (s : string) : string :=
  match s with
  | EmptyString => EmptyString
  | String c rest => String (upper_char c) (ascii_upper rest)
  end.

(** [dir / name] of pathlib, for a relative [name]. *)
Definition path_join (dir name : string) : string :=
  if String.eqb dir "." then name else dir +:+ "/" +:+ name.

End Py.

(** ** IEEE 754 binary64, the [float] of Python *)

Module Float.

Local Open Scope Q_scope.

(** [2^e] *)
Definition pow2 (e : Z) : Q := 2 ^ e.

(** The binade of a non-zero [x]: the [e] with [2^e <= |x| < 2^(e+1)].  It
    is the difference of the bit lengths of numerator and denominator, or
    one less. *)
Definition binade (x : Q) : Z :=
  let e := (Z.log2 (Z.abs (Qnum x)) - Z.log2 (Z.pos (Qden x)))%Z in
  if Qle_bool (pow2 e) (Qabs x) then e else (e - 1)%Z.

(** The exponent of the last place of the doubles around [x]: 53
    significant bits, and no less than [-1074] (the subnormal doubles). *)
Definition ulp_exponent (x : Q) : Z := Z.max (binade x - 52) (-1074).

(** Rounding to the nearest double, ties to the even significand. *)
Definition rnd (x : Q) : Q :=
  let e := ulp_exponent x in
  Qred (inject_Z (Py.round_half_even (x / pow2 e)) * pow2 e).

(** [x + y], [x * y] and [x / y] on floats; [float(n)] of an integer, as
    mixed arithmetic converts it. *)
Definition add (x y : Q) : Q := rnd (x + y).
Definition mul (x y : Q) : Q := rnd (x * y).
Definition div (x y : Q) : Q := rnd (x / y).
Definition of_int (n : Z) : Q := rnd (inject_Z n).

(** [round(x, ndigits)] on a float: the decimal nearest to the exact value
    of [x], then the double nearest to that decimal. *)
Definition round (x : Q) (ndigits : nat) : Q := rnd (Py.round x ndigits).

(** The doubles: the values that rounding leaves as they are. *)
Definition is_double (x : Q) : Prop := rnd x == x.

(** The range of the model. *)
Definition in_range (x : Q) : Prop := Qabs x <= pow2 1000.

(** Half the distance between [1] and the next double: the relative error
    of one rounding. *)
Definition u : Q := 1 # 9007199254740992.

(** The rational that a float of the kernel denotes ([None] for an
    infinity or NaN), and the kernel's float of a small natural number:
    used to compare [rnd] with the binary64 arithmetic of the machine. *)
Definition of_spec (f : SpecFloat.spec_float) : option Q :=
  match f with
  | SpecFloat.S754_zero _ => Some 0
  | SpecFloat.S754_finite s m e =>
      Some (Qred ((if s then -1 else 1) * inject_Z (Z.pos m) * pow2 e))
  | _ => None
  end.

Definition of_prim (f : PrimFloat.float) : option Q :=
  of_spec (FloatOps.Prim2SF f).

Definition prim (n : Z) : PrimFloat.float :=
  PrimFloat.of_uint63 (Uint63.of_Z n).

End Float.

(** ** narration/tts.py *)

(** In this module a time in seconds is an exact rational and the
    arithmetic of the synthesizer is exact; module [TTS64] below has the
    same function on doubles. *)

Module TTS.

(** One entry of the list returned by [_generate_dummy_timestamps]:
    the dictionary with keys ['word'], ['start'], ['end'], ['duration']. *)
Record WordTiming : Type := mkWordTiming {
  word : string;
  start : Q;
  end_ : Q;
  duration : Q
}.

(** The body of [for i, word in enumerate(words)], with the running
    [current_time] as an accumulator. *)
Fixpoint timestamps_loop (words : list string) (time_per_word current_time : Q)
  : list WordTiming :=
  match words with
  | [] => []
  | w :: rest =>
      let word_duration := (time_per_word * (19 # 20))%Q in
      {| word := w;
         start := Py.round current_time 3;
         end_ := Py.round (current_time + word_duration) 3;
         duration := Py.round word_duration 3 |}
      :: timestamps_loop rest time_per_word (current_time + time_per_word)
  end.

(** [KyutaiTTS._generate_dummy_timestamps(text, total_duration=None)] *)
Definition _generate_dummy_timestamps (text : string) (total_duration : option Q)
  : list WordTiming :=
  let words := Py.split text in
  match words with
  | [] => []
  | _ :: _ =>
      let total_duration :=
        match total_duration with
        | None => (Py.flen words / (5 # 2))%Q
        | Some d => d
        end in
      let time_per_word := (total_duration / Py.flen words)%Q in
      timestamps_loop words time_per_word 0
  end.

(** The dictionary returned by a speech backend. *)
Record TTSResult : Type := mkTTSResult {
  audio_path : string;
  audio_duration : Q;
  word_timestamps : list WordTiming;
  sample_rate : Z;
  fallback : bool
}.

(** The two engines behind [_fallback_tts]. *)
Inductive backend : Type := EdgeTTS | GTTS.

(** What running an engine on a text does: it raises, or it leaves an
    audio file whose decoded length is [len(audio)] milliseconds. *)
Inductive synthesis : Type :=
  | Fails
  | Produces (len_audio : Z).

Section Adapter.

(** [edge_engine text output_path]: [edge_tts.Communicate(...).save] followed
    by [AudioSegment.from_file]; [gtts_engine text output_path]: the import of
    gtts and pydub, [gTTS(...).save], [from_mp3], [export] and [unlink]. *)
Variable edge_engine : string -> string -> synthesis.
Variable gtts_engine : string -> string -> synthesis.

(** [KyutaiTTS._edge_tts(text, output_path)], with the log of engines run. *)
Definition _edge_tts (text output_path : string)
  : list backend * Py.outcome TTSResult :=
  match edge_engine text output_path with
  | Fails => ([EdgeTTS], Py.Raise)
  | Produces len_audio =>
      let duration := (inject_Z len_audio / 1000)%Q in
      ([EdgeTTS],
       Py.Return {| audio_path := output_path;
                    audio_duration := duration;
                    word_timestamps :=
                      _generate_dummy_timestamps text (Some duration);
                    sample_rate := 24000;
                    fallback := true |})
  end.

(** [KyutaiTTS._fallback_tts(text, output_path)] *)
Definition _fallback_tts (text output_path : string)
  : list backend * option TTSResult :=
  match _edge_tts text output_path with
  | (log, Py.Return r) => (log, Some r)
  | (log, Py.Raise) =>
      match gtts_engine text output_path with
      | Fails => (log ++ [GTTS], None)
      | Produces len_audio =>
          let duration := (inject_Z len_audio / 1000)%Q in
          (log ++ [GTTS],
           Some {| audio_path := output_path;
                   audio_duration := duration;
                   word_timestamps :=
                     _generate_dummy_timestamps text (Some duration);
                   sample_rate := 24000;
                   fallback := true |})
      end
  end.

(** [KyutaiTTS.generate_speech(text, output_path)]; [temp_path] is the
    name [TEMP_DIR / f"narration_{timestamp}.wav"] used when no path is
    given. *)
Definition generate_speech (temp_path : string) (text : string)
    (output_path : option string) : list backend * option TTSResult :=
  let output_path := default temp_path output_path in
  _fallback_tts text output_path.

End Adapter.

End TTS.

(** ** narration/tts.py, on doubles *)

Module TTS64.

(** The literal [0.95]. *)
Definition c0_95 : Q := Float.rnd (19 # 20).

(** The body of [for i, word in enumerate(words)], with the running
    [current_time] as an accumulator. *)
Fixpoint timestamps_loop (words : list string) (time_per_word current_time : Q)
  : list TTS.WordTiming :=
  match words with
  | [] => []
  | w :: rest =>
      let word_duration := Float.mul time_per_word c0_95 in
      {| TTS.word := w;
         TTS.start := Float.round current_time 3;
         TTS.end_ := Float.round (Float.add current_time word_duration) 3;
         TTS.duration := Float.round word_duration 3 |}
      :: timestamps_loop rest time_per_word (Float.add current_time time_per_word)
  end.

(** [KyutaiTTS._generate_dummy_timestamps(text, total_duration=None)] *)
Definition _generate_dummy_timestamps (text : string) (total_duration : option Q)
  : list TTS.WordTiming :=
  let words := Py.split text in
  match words with
  | [] => []
  | _ :: _ =>
      let total_duration :=
        match total_duration with
        | None => Float.div (Float.of_int (Z.of_nat (length words))) (5 # 2)
        | Some d => d
        end in
      let time_per_word :=
        Float.div total_duration (Float.of_int (Z.of_nat (length words))) in
      timestamps_loop words time_per_word 0
  end.

(** The value of [current_time] when the loop reaches word [i]: the sum
    of [i] additions of [time_per_word], each of them rounded. *)
Fixpoint current_time_at (time_per_word : Q) (i : nat) : Q :=
  match i with
  | O => 0
  | S j => Float.add (current_time_at time_per_word j) time_per_word
  end.

End TTS64.

(** ** video_assembly/assets.py *)

Module Assets.

(** A size in a provider's JSON: a number, or [null] (Python's [None]). *)
Inductive size : Type :=
  | Num (n : Z)
  | Null.

(** One element of a Pexels ['video_files'] list; [None] is a key that is
    absent. *)
Record VideoFile : Type := mkVideoFile {
  width : option size;
  height : option size;
  link : option string
}.

(** A search hit of either provider: the keys that the code reads. A
    Pixabay ['videos'] dictionary maps a tier name to the tier's own
    dictionary. *)
Record Video : Type := mkVideo {
  v_duration : option Z;
  video_files : option (list VideoFile);
  videos : option (gmap string (gmap string string))
}.

(** The dictionary built by [find_best_video]. *)
Record Candidate : Type := mkCandidate {
  source : string;
  data : Video;
  keyword : string;
  duration : Z
}.

(** *** download_video *)

(** How one pass through the [try] block ends. *)
Inductive attempt_result : Type :=
  | Saved              (* the file was written *)
  | TransientError     (* requests' RequestException or IOError *)
  | OtherError.        (* any other exception: not caught *)

(** The calls made so far to [requests.get] and to [time.sleep]. *)
Record net_state : Type := mkNet {
  fetch_calls : nat;
  slept : list Z
}.

Section Download.

(** [fetch url k]: the result of the [k]-th request (counted from 0). *)
Variable fetch : string -> nat -> attempt_result.

(** [for attempt in range(max_retries): ...] *)
Fixpoint download_attempts (attempts : list Z) (max_retries : Z)
    (video_url file_path : string) (st : net_state)
  : net_state * Py.outcome (option string) :=
  match attempts with
  | [] => (st, Py.Return None)
  | attempt :: rest =>
      let st1 := {| fetch_calls := S (fetch_calls st); slept := slept st |} in
      match fetch video_url (fetch_calls st) with
      | Saved => (st1, Py.Return (Some file_path))
      | OtherError => (st1, Py.Raise)
      | TransientError =>
          if (attempt <? max_retries - 1)%Z then
            let wait_time := (2 ^ attempt)%Z in
            download_attempts rest max_retries video_url file_path
              {| fetch_calls := fetch_calls st1;
                 slept := slept st1 ++ [wait_time] |}
          else (st1, Py.Return None)
      end
  end.

(** [AssetManager.download_video(video_url, output_dir, filename, max_retries)] *)
Definition download_video (video_url : string) (output_dir filename : option string)
    (max_retries : Z) (st : net_state) : net_state * Py.outcome (option string) :=
  let filename :=
    match filename with
    | Some f => if Py.str_truthy f then f else "background.mp4"
    | None => "background.mp4"
    end in
  let output_dir := default "." output_dir in
  let file_path := Py.path_join output_dir filename in
  download_attempts (Py.range max_retries) max_retries video_url file_path st.

End Download.

(** The [file_path] that [download_video] writes to. *)
Definition target_path (output_dir filename : option string) : string :=
  Py.path_join (default "." output_dir)
    match filename with
    | Some f => if Py.str_truthy f then f else "background.mp4"
    | None => "background.mp4"
    end.

(** What the call returns when its last attempt ends as [r]; and the
    sleeps that precede attempt [m]. *)
Definition settled (r : attempt_result) (file_path : string)
  : Py.outcome (option string) :=
  match r with
  | Saved => Py.Return (Some file_path)
  | OtherError => Py.Raise
  | TransientError => Py.Return None
  end.

Definition backoff (m : nat) : list Z :=
  map (fun j => 2 ^ Z.of_nat j)%Z (seq 0 m).

(** *** find_best_video *)

(** A request sent to a footage provider. *)
Inductive provider_query : Type :=
  | QueryPexels (query : string)
  | QueryPixabay (query : string).

Definition query_keyword (q : provider_query) : string :=
  match q with QueryPexels k => k | QueryPixabay k => k end.

(** [v.get('duration', 0)] *)
Definition get_duration (v : Video) : Z := default 0%Z (v_duration v).

(** [v.get('duration', 0) >= min_duration and v.get('video_files')] *)
Definition pexels_usable (min_duration : Z) (v : Video) : bool :=
  (min_duration <=? get_duration v)%Z
  && Py.list_truthy (default [] (video_files v)).

(** [v.get('duration', 0) >= min_duration and v.get('videos')] *)
Definition pixabay_usable (min_duration : Z) (v : Video) : bool :=
  (min_duration <=? get_duration v)%Z
  && negb (bool_decide (default ∅ (videos v) = ∅)).

Definition wrap (src kw : string) (video : Video) : Candidate :=
  {| source := src; data := video; keyword := kw;
     duration := get_duration video |}.

(** [all_videos.sort(key=lambda x: x.get('duration', 0), reverse=True)]:
    a stable sort, longest first; candidates of equal duration keep their
    order. *)
Fixpoint insert_desc (c : Candidate) (sorted : list Candidate) : list Candidate :=
  match sorted with
  | [] => [c]
  | d :: rest =>
      if (duration d <=? duration c)%Z then c :: d :: rest
      else d :: insert_desc c rest
  end.

Fixpoint sort_desc (l : list Candidate) : list Candidate :=
  match l with
  | [] => []
  | c :: rest => insert_desc c (sort_desc rest)
  end.

(** The order of the sorted list: [c] may stand before [d]. *)
Definition longer_first (c d : Candidate) : Prop :=
  (duration d <= duration c)%Z.

Section Providers.

(** The configured keys (the empty string when a key is not set) and the
    two HTTP searches, which give [None] on a RequestException. *)
Variable pexels_key pixabay_key : string.
Variable pexels_api pixabay_api : string -> option (list Video).

(** [AssetManager.search_pexels_videos(query)] *)
Definition search_pexels_videos (query : string)
  : list provider_query * option (list Video) :=
  if Py.str_truthy pexels_key then ([QueryPexels query], pexels_api query)
  else ([], None).

(** [AssetManager.search_pixabay_videos(query)] *)
Definition search_pixabay_videos (query : string)
  : list provider_query * option (list Video) :=
  if Py.str_truthy pixabay_key then ([QueryPixabay query], pixabay_api query)
  else ([], None).

(** The body of [for keyword in keywords[:3]], on the log of requests and
    on [all_videos]. *)
Definition search_keyword (source : string) (min_duration : Z)
    (acc : list provider_query * list Candidate) (keyword : string)
  : list provider_query * list Candidate :=
  let '(log, all_videos) := acc in
  let '(log, all_videos) :=
    if (String.eqb source "pexels" || String.eqb source "both")
       && Py.str_truthy pexels_key then
      let '(sent, pexels_videos) := search_pexels_videos keyword in
      (log ++ sent,
       all_videos ++
       map (wrap "pexels" keyword)
         (List.filter (pexels_usable min_duration) (default [] pexels_videos)))
    else (log, all_videos) in
  if (String.eqb source "pixabay" || String.eqb source "both")
     && Py.str_truthy pixabay_key then
    let '(sent, pixabay_videos) := search_pixabay_videos keyword in
    (log ++ sent,
     all_videos ++
     map (wrap "pixabay" keyword)
       (List.filter (pixabay_usable min_duration) (default [] pixabay_videos)))
  else (log, all_videos).

(** The pool after the loop over the keywords. *)
Definition pool (keywords : list string) (source : string) (min_duration : Z)
  : list provider_query * list Candidate :=
  fold_left (search_keyword source min_duration) (take 3 keywords) ([], []).

(** [AssetManager.find_best_video(keywords, source, min_duration)]; [rnd]
    is the draw of the random generator. *)
Definition find_best_video (keywords : list string) (source : string)
    (min_duration : Z) (rnd : nat) : list provider_query * option Candidate :=
  let '(log, all_videos) := pool keywords source min_duration in
  match all_videos with
  | [] => (log, None)
  | _ :: _ =>
      let all_videos := sort_desc all_videos in
      let top_videos := take 5 all_videos in
      (log, Py.choice top_videos rnd)
  end.

(** The selection as the specification words it, to be compared with
    [pool]: a provider is enabled by [source] and by its key; each of the
    first three keywords is sent to every enabled provider, and the hits
    that are long enough (and carry files) are pooled. *)
Definition pexels_enabled (source : string) : bool :=
  (String.eqb source "pexels" || String.eqb source "both")
  && Py.str_truthy pexels_key.

Definition pixabay_enabled (source : string) : bool :=
  (String.eqb source "pixabay" || String.eqb source "both")
  && Py.str_truthy pixabay_key.

Definition keyword_queries (source : string) (keyword : string)
  : list provider_query :=
  (if pexels_enabled source then [QueryPexels keyword] else [])
  ++ (if pixabay_enabled source then [QueryPixabay keyword] else []).

Definition keyword_survivors (source : string) (min_duration : Z)
    (keyword : string) : list Candidate :=
  (if pexels_enabled source then
     map (wrap "pexels" keyword)
       (List.filter (pexels_usable min_duration)
          (default [] (pexels_api keyword)))
   else [])
  ++ (if pixabay_enabled source then
        map (wrap "pixabay" keyword)
          (List.filter (pixabay_usable min_duration)
             (default [] (pixabay_api keyword)))
      else []).

Definition pool_spec (keywords : list string) (source : string)
    (min_duration : Z) : list provider_query * list Candidate :=
  (flat_map (keyword_queries source) (take 3 keywords),
   flat_map (keyword_survivors source min_duration) (take 3 keywords)).

End Providers.

(** The six hits of the selection example, and the provider that returns
    them. *)
Definition example_hit (d : Z) : Video :=
  {| v_duration := Some d;
     video_files := Some [ {| width := Some (Num 1080); height := Some (Num 1920);
                              link := Some "https://videos.example/v.mp4" |} ];
     videos := None |}.

Definition example_hits : list Video :=
  map example_hit [5; 20; 15; 30; 25; 10]%Z.

(** *** get_video_url *)

(** [f.get('width', 0)] and [f.get('height', 0)]: the default stands in
    for an absent key only; a key that holds [null] gives [None]. *)
Definition get_width (f : VideoFile) : size := default (Num 0) (width f).
Definition get_height (f : VideoFile) : size := default (Num 0) (height f).

(** [a < b] on two such values: a [TypeError] when one of them is [None]. *)
Definition lt (a b : size) : Py.outcome bool :=
  match a, b with
  | Num x, Num y => Py.Return (x <? y)%Z
  | _, _ => Py.Raise
  end.

(** [[f for f in video_files if f.get('width', 0) < f.get('height', 0)]]:
    the comparison is made for every file, and the first one that raises
    ends the comprehension. *)
Fixpoint portrait_loop (video_files : list VideoFile)
  : Py.outcome (list VideoFile) :=
  match video_files with
  | [] => Py.Return []
  | f :: rest =>
      match lt (get_width f) (get_height f) with
      | Py.Raise => Py.Raise
      | Py.Return keep =>
          match portrait_loop rest with
          | Py.Raise => Py.Raise
          | Py.Return kept => Py.Return (if keep then f :: kept else kept)
          end
      end
  end.

(** [max(files, key=lambda x: x.get('width', 0))] on a non-empty list:
    the first file of the greatest width; a file takes the place of the
    best one so far when its key is greater. *)
Fixpoint max_by_width (best : VideoFile) (others : list VideoFile)
  : Py.outcome VideoFile :=
  match others with
  | [] => Py.Return best
  | f :: rest =>
      match lt (get_width best) (get_width f) with
      | Py.Raise => Py.Raise
      | Py.Return true => max_by_width f rest
      | Py.Return false => max_by_width best rest
      end
  end.

(** [for quality in qualities: ...] of the Pixabay branch. The outer
    [option] tells whether the loop returned. *)
Fixpoint first_tier (videos : gmap string (gmap string string))
    (qualities : list string) : option (option string) :=
  match qualities with
  | [] => None
  | quality :: rest =>
      match videos !! quality with
      | Some video_info =>
          if bool_decide (video_info = ∅) then first_tier videos rest
          else Some (video_info !! "url")
      | None => first_tier videos rest
      end
  end.

(** A quality tier that is present: the tier's dictionary, when the key
    is there and the dictionary is not empty. *)
Definition tier (videos : gmap string (gmap string string)) (quality : string)
  : option (gmap string string) :=
  match videos !! quality with
  | Some video_info => if bool_decide (video_info = ∅) then None else Some video_info
  | None => None
  end.

(** The portrait files of a Pexels hit. *)
Definition portrait_files (data : Video) : Py.outcome (list VideoFile) :=
  portrait_loop (default [] (video_files data)).

(** A file whose width and height are numbers (or absent), and the two
    numbers. *)
Definition sizes (f : VideoFile) : option (Z * Z) :=
  match get_width f, get_height f with
  | Num w, Num h => Some (w, h)
  | _, _ => None
  end.

Definition portrait (f : VideoFile) : bool :=
  match sizes f with
  | Some (w, h) => (w <? h)%Z
  | None => false
  end.

Definition width_of (f : VideoFile) : Z :=
  match get_width f with Num w => w | Null => 0%Z end.

(** [AssetManager.get_video_url(video_data)]; an exception raised inside
    the [try] block is caught and the call returns [None]. *)
Definition get_video_url (video_data : Candidate) : option string :=
  let src := source video_data in
  let data := data video_data in
  if String.eqb src "pexels" then
    let video_files := default [] (video_files data) in
    match portrait_loop video_files with
    | Py.Raise => None
    | Py.Return [] => None
    | Py.Return (f :: fs) =>
        match max_by_width f fs with
        | Py.Raise => None
        | Py.Return best_file => link best_file
        end
    end
  else if String.eqb src "pixabay" then
    let videos := default ∅ (videos data) in
    match first_tier videos ["medium"; "large"; "small"] with
    | Some url => url
    | None => None
    end
  else None.

End Assets.

(** ** config.py: the constants read by the editor *)

Module Config.

Definition SUBTITLE_FONT : string := "Arial".
Definition SUBTITLE_FONT_SIZE : Z := 24.
Definition SUBTITLE_OUTLINE : Z := 2.
Definition SUBTITLE_BOLD : bool := true.
Definition SUBTITLE_SHADOW : Z := 0.
Definition SUBTITLE_MARGIN_V : Z := 150.
Definition AUDIO_CODEC : string := "aac".
Definition AUDIO_BITRATE : string := "192k".
Definition FFMPEG_COMMAND : string := "ffmpeg".
Definition FFMPEG_LOGLEVEL : string := "error".
Definition VIDEO_CODEC : string := "libx264".
Definition VIDEO_PRESET : string := "medium".

End Config.

(** ** video_assembly/editor.py *)

Module Editor.

(** pysubs2's [Color(r, g, b)], [SSAStyle] (the attributes that the code
    sets), [SSAEvent] and [SSAFile]. *)
Record Color : Type := mkColor { red : Z; green : Z; blue : Z }.

Record SSAStyle : Type := mkStyle {
  fontname : string;
  fontsize : Z;
  primarycolor : Color;
  outlinecolor : Color;
  outline : Z;
  shadow : Z;
  bold : bool;
  alignment : Z;
  marginv : Z
}.

Record SSAEvent : Type := mkEvent {
  ev_start : Z;
  ev_end : Z;
  ev_text : string
}.

Record SSAFile : Type := mkSSAFile {
  styles : gmap string SSAStyle;
  events : list SSAEvent
}.

(** The result of [subprocess.run]: the process ended with a return code,
    or the call raised (time-out, missing binary). *)
Inductive process : Type :=
  | Exited (returncode : Z)
  | RunRaised.

Section Editor.

(** [TEMP_DIR] of the configuration; [str.upper]; the text that pysubs2
    writes for a subtitle file; whether a path can be written; whether a
    path exists; the FFmpeg process; the text of a float in an f-string. *)
Variable TEMP_DIR : string.
Variable str_upper : string -> string.
Variable to_ass : SSAFile -> string.
Variable can_write : string -> bool.
Variable path_exists : string -> bool.
Variable ffmpeg : list string -> process.
Variable float_str : Q -> string.

(** The style configured by [create_animated_subtitles]. *)
Definition caption_style : SSAStyle :=
  {| fontname := Config.SUBTITLE_FONT;
     fontsize := Config.SUBTITLE_FONT_SIZE;
     primarycolor := mkColor 0 255 255;
     outlinecolor := mkColor 0 0 0;
     outline := Config.SUBTITLE_OUTLINE;
     shadow := Config.SUBTITLE_SHADOW;
     bold := Config.SUBTITLE_BOLD;
     alignment := 2;
     marginv := Config.SUBTITLE_MARGIN_V |}.

(** The body of [for word_data in word_timestamps]: one event appended. *)
Definition append_word (subs : SSAFile) (word_data : TTS.WordTiming) : SSAFile :=
  let word := TTS.word word_data in
  let start_ms := Py.int (Float.mul (TTS.start word_data) 1000) in
  let end_ms := Py.int (Float.mul (TTS.end_ word_data) 1000) in
  let word_display := str_upper word in
  let event := {| ev_start := start_ms; ev_end := end_ms;
                  ev_text := word_display |} in
  {| styles := styles subs; events := events subs ++ [event] |}.

(** The event that stands for one word timing. *)
Definition caption_event (word_data : TTS.WordTiming) : SSAEvent :=
  {| ev_start := Py.int (Float.mul (TTS.start word_data) 1000);
     ev_end := Py.int (Float.mul (TTS.end_ word_data) 1000);
     ev_text := str_upper (TTS.word word_data) |}.

(** The subtitle file in memory when [subs.save] is reached. *)
Definition build_subs (word_timestamps : list TTS.WordTiming) : SSAFile :=
  let subs := {| styles := ∅; events := [] |} in
  let subs := {| styles := <["Default" := caption_style]> (styles subs);
                 events := events subs |} in
  fold_left append_word word_timestamps subs.

(** [VideoEditor.create_animated_subtitles(word_timestamps, output_path)],
    on the files on disk (path to content). *)
Definition create_animated_subtitles (word_timestamps : list TTS.WordTiming)
    (output_path : option string) (disk : gmap string string)
  : gmap string string * option string :=
  let output_path :=
    default (Py.path_join TEMP_DIR "subtitles.ass") output_path in
  let subs := build_subs word_timestamps in
  if can_write output_path then
    (<[output_path := to_ass subs]> disk, Some output_path)
  else (disk, None).

(** [VideoEditor.mix_audio(voice_path, music_path, output_path,
    voice_volume, music_volume)], with the commands handed to
    [subprocess.run]. *)
Definition mix_audio (voice_path : string) (music_path output_path : option string)
    (voice_volume music_volume : Q) : list (list string) * option string :=
  let output_path :=
    default (Py.path_join TEMP_DIR "mixed_audio.aac") output_path in
  match music_path with
  | None => ([], Some voice_path)
  | Some music =>
      if negb (path_exists music) then ([], Some voice_path)
      else
        let cmd :=
          [ Config.FFMPEG_COMMAND;
            "-i"; voice_path;
            "-i"; music;
            "-filter_complex";
            "[0:a]volume=" +:+ float_str voice_volume
              +:+ "[a1];[1:a]volume=" +:+ float_str music_volume
              +:+ "[a2];[a1][a2]amix=inputs=2:duration=first";
            "-c:a"; Config.AUDIO_CODEC;
            "-b:a"; Config.AUDIO_BITRATE;
            "-loglevel"; Config.FFMPEG_LOGLEVEL;
            "-y";
            output_path ] in
        match ffmpeg cmd with
        | Exited 0 => ([cmd], Some output_path)
        | Exited _ => ([cmd], None)
        | RunRaised => ([cmd], None)
        end
  end.

End Editor.

(** [s.replace(old, new)] for an [old] of one character. *)
Fixpoint replace_char (old : ascii) (new : string) (s : string) : string :=
  match s with
  | EmptyString => EmptyString
  | String c rest =>
      if Ascii.eqb c old then new +:+ replace_char old new rest
      else String c (replace_char old new rest)
  end.

(** The backslash and the colon. *)
Definition backslash : ascii := ascii_of_nat 92.
Definition colon : ascii := ascii_of_nat 58.

(** [str(subtitle_path).replace('\\', '/').replace(':', '\\:')] *)
Definition escape_path (subtitle_path : string) : string :=
  replace_char colon (String backslash (String colon EmptyString))
    (replace_char backslash "/" subtitle_path).

(** A text in which every backslash stands before a colon and every colon
    behind a backslash. *)
Fixpoint colons_escaped (s : string) : bool :=
  match s with
  | EmptyString => true
  | String c rest =>
      if Ascii.eqb c backslash then
        match rest with
        | String c' rest' => Ascii.eqb c' colon && colons_escaped rest'
        | EmptyString => false
        end
      else if Ascii.eqb c colon then false
      else colons_escaped rest
  end.

(** [sep.join(parts)] *)
Fixpoint join (sep : string) (parts : list string) : string :=
  match parts with
  | [] => EmptyString
  | [x] => x
  | x :: rest => x +:+ sep +:+ join sep rest
  end.

(** [str(n)] of an integer. *)
Definition int_str (n : Z) : string := NilZero.string_of_int (Z.to_int n).

Section Compositor.

(** As in the section above, and: the frame size and rate of the
    configuration, the two volumes of the configuration, and the files on
    disk, which decide whether a path exists. *)
Variable TEMP_DIR : string.
Variable str_upper : string -> string.
Variable to_ass : SSAFile -> string.
Variable can_write : string -> bool.
Variable ffmpeg : list string -> process.
Variable float_str : Q -> string.
Variable VIDEO_WIDTH VIDEO_HEIGHT VIDEO_FPS : Z.
Variable VOICE_VOLUME BACKGROUND_MUSIC_VOLUME : Q.

Definition on_disk (disk : gmap string string) (path : string) : bool :=
  bool_decide (is_Some (disk !! path)).

(** The command that [assemble_video] builds. *)
Definition assemble_cmd (disk : gmap string string) (video_path audio_path : string)
    (subtitle_path : option string) (output_path : string) (duration : option Q)
  : list string :=
  let cmd := [ Config.FFMPEG_COMMAND; "-stream_loop"; "-1";
               "-i"; video_path; "-i"; audio_path ] in
  let filters :=
    [ "[0:v]scale=" +:+ int_str VIDEO_WIDTH +:+ ":" +:+ int_str VIDEO_HEIGHT
      +:+ ":force_original_aspect_ratio=increase,"
      +:+ "crop=" +:+ int_str VIDEO_WIDTH +:+ ":" +:+ int_str VIDEO_HEIGHT
      +:+ "[v]" ] in
  let '(filters, video_label) :=
    match subtitle_path with
    | Some sub =>
        if on_disk disk sub then
          (filters ++ ["[v]ass=" +:+ escape_path sub +:+ "[vout]"], "[vout]")
        else (filters, "[v]")
    | None => (filters, "[v]")
    end in
  let cmd := cmd ++ [ "-filter_complex"; join ";" filters;
                      "-map"; video_label; "-map"; "1:a" ] in
  let cmd :=
    match duration with
    | Some d => if Qeq_bool d 0 then cmd else cmd ++ ["-t"; float_str d]
    | None => cmd
    end in
  cmd ++ [ "-c:v"; Config.VIDEO_CODEC; "-preset"; Config.VIDEO_PRESET;
           "-c:a"; Config.AUDIO_CODEC; "-b:a"; Config.AUDIO_BITRATE;
           "-r"; int_str VIDEO_FPS; "-pix_fmt"; "yuv420p";
           "-loglevel"; Config.FFMPEG_LOGLEVEL; "-y"; output_path ].

(** [VideoEditor.assemble_video(video_path, audio_path, subtitle_path,
    output_path, duration)], with the commands handed to
    [subprocess.run]. *)
Definition assemble_video (disk : gmap string string)
    (video_path audio_path : string) (subtitle_path : option string)
    (output_path : string) (duration : option Q)
  : list (list string) * option string :=
  let cmd := assemble_cmd disk video_path audio_path subtitle_path output_path
               duration in
  match ffmpeg cmd with
  | Exited 0 => ([cmd], Some output_path)
  | Exited _ => ([cmd], None)
  | RunRaised => ([cmd], None)
  end.

(** [VideoEditor.create_complete_video(background_video, voice_audio,
    background_music, word_timestamps, output_path, target_duration)]:
    the files on disk afterwards, the commands run and the result. *)
Definition create_complete_video (background_video voice_audio : string)
    (background_music : option string)
    (word_timestamps : list TTS.WordTiming) (output_path : string)
    (target_duration : option Q) (disk : gmap string string)
  : gmap string string * list (list string) * option string :=
  let '(disk, subtitle_path) :=
    create_animated_subtitles TEMP_DIR str_upper to_ass can_write
      word_timestamps None disk in
  let '(mixing, mixed_audio) :=
    mix_audio TEMP_DIR (on_disk disk) ffmpeg float_str voice_audio
      background_music None VOICE_VOLUME BACKGROUND_MUSIC_VOLUME in
  match mixed_audio with
  | None => (disk, mixing, None)
  | Some mixed_audio =>
      let '(assembling, final_video) :=
        assemble_video disk background_video mixed_audio subtitle_path
          output_path target_duration in
      (disk, mixing ++ assembling, final_video)
  end.

End Compositor.

End Editor.

(** ** publishing/scheduler.py *)

Module Scheduler.

(** One dictionary of the queue. Times are microseconds since the epoch;
    the keys ['youtube_id'], ['uploaded_at'], ['error'] and ['failed_at']
    are absent until a [mark_] call sets them. *)
Record QueueEntry : Type := mkEntry {
  id : string;
  video_path : string;
  title : string;
  description : string;
  tags : list string;
  scheduled_time : Z;
  status : string;
  added_at : Z;
  youtube_id : option string;
  uploaded_at : option Z;
  error : option string;
  failed_at : option Z
}.

(** The scheduler and what it touches: [self.queue], the content of the
    queue file (if it was ever written), and how often the clock was read. *)
Record state : Type := mkState {
  queue : list QueueEntry;
  queue_file : option (list QueueEntry);
  clock_reads : nat
}.

(** [timedelta(days=d)] *)
Definition timedelta_days (d : Z) : Z := d * 86400000000.

(** The position of the first entry of a given id. *)
Fixpoint find_first (video_id : string) (q : list QueueEntry) : option nat :=
  match q with
  | [] => None
  | video :: rest =>
      if String.eqb (id video) video_id then Some 0%nat
      else option_map S (find_first video_id rest)
  end.

(** An entry that the purge removes: uploaded, with an upload time before
    the cutoff. *)
Definition purgeable (cutoff : Z) (video : QueueEntry) : bool :=
  String.eqb (status video) "uploaded"
  && match uploaded_at video with
     | Some t => (t <? cutoff)%Z
     | None => false
     end.

(** The statuses that the scheduler itself gives to an entry. *)
Definition known_status (video : QueueEntry) : Prop :=
  status video = "pending" \/ status video = "uploaded"
  \/ status video = "failed".

(** The entry used in the examples. *)
Definition example_entry (ident : string) (state : string) : QueueEntry :=
  {| id := ident; video_path := "final.mp4"; title := "Octopus facts";
     description := "Three hearts"; tags := ["facts"; "shorts"];
     scheduled_time := 0; status := state; added_at := 0;
     youtube_id := None; uploaded_at := None; error := None;
     failed_at := None |}.

Section Scheduler.

(** [clock k]: what the [k]-th call of [datetime.now()] returns;
    [disk_writable]: whether the queue file can be opened for writing. *)
Variable clock : nat -> Z.
Variable disk_writable : bool.

(** [VideoScheduler._save_queue()] *)
Definition _save_queue (st : state) : state * bool :=
  if disk_writable then
    ({| queue := queue st; queue_file := Some (queue st);
        clock_reads := clock_reads st |}, true)
  else (st, false).

(** [for video in self.queue: if video['id'] == video_id: ...; return True]:
    the first entry of that id is updated by [f]; [None] when the loop ends
    without a match. *)
Fixpoint update_first (video_id : string) (f : QueueEntry -> QueueEntry)
    (q : list QueueEntry) : option (list QueueEntry) :=
  match q with
  | [] => None
  | video :: rest =>
      if String.eqb (id video) video_id then Some (f video :: rest)
      else option_map (cons video) (update_first video_id f rest)
  end.

Definition set_uploaded (youtube : string) (now : Z) (video : QueueEntry)
  : QueueEntry :=
  {| id := id video; video_path := video_path video; title := title video;
     description := description video; tags := tags video;
     scheduled_time := scheduled_time video;
     status := "uploaded";
     added_at := added_at video;
     youtube_id := Some youtube;
     uploaded_at := Some now;
     error := error video; failed_at := failed_at video |}.

Definition set_failed (err : string) (now : Z) (video : QueueEntry)
  : QueueEntry :=
  {| id := id video; video_path := video_path video; title := title video;
     description := description video; tags := tags video;
     scheduled_time := scheduled_time video;
     status := "failed";
     added_at := added_at video;
     youtube_id := youtube_id video;
     uploaded_at := uploaded_at video;
     error := Some err; failed_at := Some now |}.

(** [VideoScheduler.mark_uploaded(video_id, youtube_id)] *)
Definition mark_uploaded (video_id youtube : string) (st : state) : state * bool :=
  let now := clock (clock_reads st) in
  match update_first video_id (set_uploaded youtube now) (queue st) with
  | Some q =>
      (fst (_save_queue {| queue := q; queue_file := queue_file st;
                           clock_reads := S (clock_reads st) |}), true)
  | None => (st, false)
  end.

(** [VideoScheduler.mark_failed(video_id, error)] *)
Definition mark_failed (video_id err : string) (st : state) : state * bool :=
  let now := clock (clock_reads st) in
  match update_first video_id (set_failed err now) (queue st) with
  | Some q =>
      (fst (_save_queue {| queue := q; queue_file := queue_file st;
                           clock_reads := S (clock_reads st) |}), true)
  | None => (st, false)
  end.

(** The list comprehension of [clear_completed]. The default of
    [video.get('uploaded_at', datetime.now())] reads the clock once for
    every entry whose status is ['uploaded']. *)
Fixpoint purge (q : list QueueEntry) (cutoff : Z) (reads : nat)
  : list QueueEntry * nat :=
  match q with
  | [] => ([], reads)
  | video :: rest =>
      if String.eqb (status video) "uploaded" then
        let stamp := default (clock reads) (uploaded_at video) in
        let '(kept, reads') := purge rest cutoff (S reads) in
        if (stamp <? cutoff)%Z then (kept, reads') else (video :: kept, reads')
      else
        let '(kept, reads') := purge rest cutoff reads in
        (video :: kept, reads')
  end.

(** [VideoScheduler.clear_completed(older_than_days)] *)
Definition clear_completed (older_than_days : Z) (st : state) : state * Z :=
  let cutoff := (clock (clock_reads st) - timedelta_days older_than_days)%Z in
  let original_count := Z.of_nat (length (queue st)) in
  let '(kept, reads) := purge (queue st) cutoff (S (clock_reads st)) in
  let st1 := {| queue := kept; queue_file := queue_file st;
                clock_reads := reads |} in
  let removed := (original_count - Z.of_nat (length kept))%Z in
  if (0 <? removed)%Z then (fst (_save_queue st1), removed)
  else (st1, removed).

End Scheduler.

(** [str(n)] of an integer, and [timedelta(hours=h)]. *)
Definition str_int (n : Z) : string := NilZero.string_of_int (Z.to_int n).
Definition timedelta_hours (h : Z) : Z := h * 3600000000.

(** The dictionary returned by [get_queue_stats]. *)
Record QueueStats : Type := mkStats {
  total : Z;
  pending : Z;
  uploaded : Z;
  failed : Z
}.

(** [if status in stats: stats[status] += 1]; the keys of [stats] are
    ['total'], ['pending'], ['uploaded'] and ['failed']. *)
Definition bump (stats : QueueStats) (st : string) : QueueStats :=
  if String.eqb st "total" then
    {| total := total stats + 1; pending := pending stats;
       uploaded := uploaded stats; failed := failed stats |}
  else if String.eqb st "pending" then
    {| total := total stats; pending := pending stats + 1;
       uploaded := uploaded stats; failed := failed stats |}
  else if String.eqb st "uploaded" then
    {| total := total stats; pending := pending stats;
       uploaded := uploaded stats + 1; failed := failed stats |}
  else if String.eqb st "failed" then
    {| total := total stats; pending := pending stats;
       uploaded := uploaded stats; failed := failed stats + 1 |}
  else stats.

(** [VideoScheduler.get_queue_stats()] *)
Definition get_queue_stats (st : state) : QueueStats :=
  fold_left (fun stats video => bump stats (status video)) (queue st)
    {| total := Z.of_nat (length (queue st)); pending := 0; uploaded := 0;
       failed := 0 |}.

(** How many entries of a queue have a given status. *)
Definition count_status (s : string) (q : list QueueEntry) : Z :=
  Z.of_nat (length (List.filter (fun video => String.eqb (status video) s) q)).

(** One element of the list given to [schedule_batch]: a dictionary, in
    which each of the four keys that the loop reads may be absent. *)
Record BatchVideo : Type := mkBatchVideo {
  b_video_path : option string;
  b_title : option string;
  b_description : option string;
  b_tags : option (list string)
}.

(** A dictionary with the four keys. *)
Definition complete (video : BatchVideo) : bool :=
  match b_video_path video, b_title video, b_description video, b_tags video with
  | Some _, Some _, Some _, Some _ => true
  | _, _, _, _ => false
  end.

(** The dictionaries of a batch that stand before the first incomplete
    one. *)
Fixpoint complete_prefix (videos : list BatchVideo) : list BatchVideo :=
  match videos with
  | [] => []
  | video :: rest =>
      if complete video then video :: complete_prefix rest else []
  end.

(** [for video in self.queue: if video['status'] == 'pending': ...
    if scheduled <= now: pending.append(video)] *)
Fixpoint pending_loop (q : list QueueEntry) (now : Z) : list QueueEntry :=
  match q with
  | [] => []
  | video :: rest =>
      if String.eqb (status video) "pending" then
        if (scheduled_time video <=? now)%Z then video :: pending_loop rest now
        else pending_loop rest now
      else pending_loop rest now
  end.

(** An entry that is due at [now]. *)
Definition due (now : Z) (video : QueueEntry) : bool :=
  String.eqb (status video) "pending" && (scheduled_time video <=? now)%Z.

Section Enqueue.

(** [clock] and [disk_writable] as above; [path_str s] is
    [str(Path(s))], the text of the path that pathlib makes of [s]. *)
Variable clock : nat -> Z.
Variable disk_writable : bool.
Variable path_str : string -> string.

(** [VideoScheduler._load_queue()]: the content of the queue file, or the
    empty list when there is no file. *)
Definition _load_queue (st : state) : list QueueEntry :=
  default [] (queue_file st).

(** The queue file is up to date: the last dump that reached the file is
    the dump of the queue in memory. *)
Definition saved (st : state) : Prop := queue_file st = Some (queue st).

(** [VideoScheduler.add_to_queue(video_path, title, description, tags,
    scheduled_time)]. The clock is read for [time.time()], for
    [datetime.now()] when no [scheduled_time] is given, and for
    ['added_at']. *)
Definition add_to_queue (video_path title description : string)
    (tags : list string) (scheduled_time : option Z) (st : state)
  : state * bool :=
  let stamp := clock (clock_reads st) in
  let reads := S (clock_reads st) in
  let '(scheduled, reads) :=
    match scheduled_time with
    | Some t => (t, reads)
    | None => (clock reads, S reads)
    end in
  let video_info :=
    {| id := str_int (Z.quot stamp 1000);
       video_path := video_path; title := title; description := description;
       tags := tags;
       scheduled_time := scheduled;
       status := "pending";
       added_at := clock reads;
       youtube_id := None; uploaded_at := None; error := None;
       failed_at := None |} in
  (fst (_save_queue disk_writable
          {| queue := queue st ++ [video_info]; queue_file := queue_file st;
             clock_reads := S reads |}), true).

(** [VideoScheduler.get_pending_uploads()] *)
Definition get_pending_uploads (st : state) : state * list QueueEntry :=
  let now := clock (clock_reads st) in
  ({| queue := queue st; queue_file := queue_file st;
      clock_reads := S (clock_reads st) |},
   pending_loop (queue st) now).

(** [for i, video in enumerate(videos): ...] of [schedule_batch], from
    index [i] on. Reading a key that a dictionary lacks raises
    [KeyError]: the loop ends there, and the result is [false]. *)
Fixpoint schedule_loop (videos : list BatchVideo) (i : nat) (current_time : Z)
    (interval_hours : Z) (st : state) : state * bool :=
  match videos with
  | [] => (st, true)
  | video :: rest =>
      let scheduled_time :=
        (current_time + timedelta_hours (Z.of_nat i * interval_hours))%Z in
      match b_video_path video, b_title video, b_description video,
            b_tags video with
      | Some video_path, Some title, Some description, Some tags =>
          let st1 :=
            fst (add_to_queue (path_str video_path) title description tags
                   (Some scheduled_time) st) in
          schedule_loop rest (S i) current_time interval_hours st1
      | _, _, _, _ => (st, false)
      end
  end.

(** [VideoScheduler.schedule_batch(videos, interval_hours)]: [True] when
    the loop ran to its end, [False] when the [except] clause caught an
    exception. *)
Definition schedule_batch (videos : list BatchVideo) (interval_hours : Z)
    (st : state) : state * bool :=
  let current_time := clock (clock_reads st) in
  let st0 := {| queue := queue st; queue_file := queue_file st;
                clock_reads := S (clock_reads st) |} in
  schedule_loop videos 0 current_time interval_hours st0.

End Enqueue.

End Scheduler.

(** ** narration/voice_manager.py *)

Module Voices.

(** A voice profile: one value of the [VOICES] dictionary. *)
Record Voice : Type := mkVoice {
  voice_id : string;
  name : string;
  language : string;
  gender : string;
  style : string
}.

(** [VoiceManager.VOICES], in the order of the source. *)
Definition VOICES : list (string * Voice) :=
  [ ("default", mkVoice "default" "Default Voice" "en" "neutral" "professional");
    ("energetic",
     mkVoice "energetic" "Energetic Voice" "en" "neutral" "enthusiastic");
    ("calm", mkVoice "calm" "Calm Voice" "en" "neutral" "soothing");
    ("authoritative",
     mkVoice "authoritative" "Authoritative Voice" "en" "neutral" "confident") ].

(** [d.get(key)] on a dictionary given by its items. *)
Fixpoint dict_get {V} (d : list (string * V)) (key : string) : option V :=
  match d with
  | [] => None
  | (k, v) :: rest => if String.eqb k key then Some v else dict_get rest key
  end.

(** [VoiceManager.get_voice(voice_id)] *)
Definition get_voice (voice_id : string) : option Voice :=
  let voice_id :=
    match dict_get VOICES voice_id with
    | None => "default"
    | Some _ => voice_id
    end in
  dict_get VOICES voice_id.

(** [VoiceManager.set_voice(voice_id)], on [self.current_voice]. *)
Definition set_voice (voice_id : string) (current_voice : string) : string * bool :=
  match dict_get VOICES voice_id with
  | Some _ => (voice_id, true)
  | None => (current_voice, false)
  end.

(** [VoiceManager.get_current_voice()]: [self.VOICES[self.current_voice]],
    which raises KeyError for an unknown key. *)
Definition get_current_voice (current_voice : string) : Py.outcome Voice :=
  match dict_get VOICES current_voice with
  | Some v => Py.Return v
  | None => Py.Raise
  end.

(** [VoiceManager.recommend_voice(content_type)]; [str_lower] is
    [str.lower]. *)
Definition recommendations : list (string * string) :=
  [ ("fact", "authoritative"); ("story", "energetic"); ("tutorial", "calm");
    ("entertainment", "energetic"); ("education", "professional") ].

Definition recommend_voice (str_lower : string -> string) (content_type : string)
  : string :=
  default "default" (dict_get recommendations (str_lower content_type)).

(** The dictionary of settings: the keys ['speed'], ['pitch'], ['volume'],
    each of which a configuration may lack. *)
Record Config : Type := mkConfig {
  speed : option Q;
  pitch : option Q;
  volume : option Q
}.

(** [VoiceManager.get_voice_settings(voice_id)] *)
Definition get_voice_settings (current_voice : string) (voice_id : option string)
  : Config :=
  let voice_id :=
    match voice_id with
    | Some v => if Py.str_truthy v then v else current_voice
    | None => current_voice
    end in
  let voice := get_voice voice_id in
  let settings := {| speed := Some 1%Q; pitch := Some 1%Q; volume := Some 1%Q |} in
  match voice with
  | Some v =>
      if String.eqb (style v) "enthusiastic" then
        {| speed := Some (11 # 10)%Q; pitch := Some (21 # 20)%Q;
           volume := volume settings |}
      else if String.eqb (style v) "soothing" then
        {| speed := Some (19 # 20)%Q; pitch := pitch settings;
           volume := volume settings |}
      else if String.eqb (style v) "confident" then
        {| speed := speed settings; pitch := Some (19 # 20)%Q;
           volume := volume settings |}
      else settings
  | None => settings
  end.

(** [lo <= x <= hi] on floats. *)
Definition between (lo x hi : Q) : bool := Qle_bool lo x && Qle_bool x hi.

(** [VoiceManager.validate_voice_config(config)] *)
Definition validate_voice_config (config : Config) : bool :=
  match speed config, pitch config, volume config with
  | Some s, Some p, Some v =>
      if negb (between (1 # 2) s 2) then false
      else if negb (between (1 # 2) p 2) then false
      else if negb (between 0 v 2) then false
      else true
  | _, _, _ => false
  end.

End Voices.

(** ** content_sourcing/parsers.py *)

Module Parsers.

(** [x in xs] for a list or a set of strings. *)
Definition mem (x : string) (xs : list string) : bool :=
  existsb (String.eqb x) xs.

(** [needle in hay] for strings. *)
Fixpoint contains (needle hay : string) : bool :=
  String.prefix needle hay
  || match hay with
     | EmptyString => false
     | String _ rest => contains needle rest
     end.

(** [s.strip(chars)] *)
Definition in_chars (chars : string) (c : ascii) : bool :=
  existsb (Ascii.eqb c) (list_ascii_of_string chars).

Fixpoint lstrip (chars : string) (s : string) : string :=
  match s with
  | EmptyString => EmptyString
  | String c rest => if in_chars chars c then lstrip chars rest else s
  end.

Definition strip (chars : string) (s : string) : string :=
  String.rev (lstrip chars (String.rev (lstrip chars s))).

(** [l[:n]] *)
Definition slice_upto {A} (l : list A) (n : Z) : list A :=
  if (0 <=? n)%Z then take (Z.to_nat n) l
  else take (Z.to_nat (Z.of_nat (length l) + n)) l.

Definition stop_words : list string :=
  [ "the"; "a"; "an"; "and"; "or"; "but"; "in"; "on"; "at"; "to"; "for";
    "of"; "with"; "by"; "from"; "as"; "is"; "was"; "are"; "were"; "been";
    "be"; "have"; "has"; "had"; "do"; "does"; "did"; "will"; "would";
    "could"; "should"; "may"; "might"; "can"; "that"; "this"; "these";
    "those"; "i"; "you"; "he"; "she"; "it"; "we"; "they"; "their"; "them";
    "over"; "years"; "year"; "however"; "because"; "only"; "also"; "when";
    "made"; "make"; "used"; "than" ].

Definition priority_indicators : list string :=
  [ "pyramid"; "ocean"; "mountain"; "space"; "animal"; "city";
    "country"; "planet"; "star"; "galaxy"; "earth"; "sun"; "moon" ].

(** The characters stripped from a word: [.,!?;:()[]{}] , the two quotes
    and the hyphen. *)
Definition strip_chars : string :=
  String (ascii_of_nat 34) ".,!?;:()[]{}'-".

Definition fallback_topics : list string := ["nature"; "science"; "discovery"].

(** The body of [for word in words], on [(keywords, priority_keywords)]. *)
Definition keyword_step (str_lower : string -> string)
    (acc : list string * list string) (word : string)
  : list string * list string :=
  let '(keywords, priority_keywords) := acc in
  let clean_word := strip strip_chars word in
  if (String.length clean_word <? 4)%nat || mem (str_lower clean_word) stop_words
  then acc
  else if existsb (fun indicator => contains indicator clean_word)
            priority_indicators then
    if mem clean_word priority_keywords then acc
    else (keywords, priority_keywords ++ [clean_word])
  else if mem clean_word keywords then acc
  else (keywords ++ [clean_word], priority_keywords).

(** [FactParser.extract_keywords(fact_text, max_keywords)]; [str_lower]
    is [str.lower]. *)
Definition extract_keywords (str_lower : string -> string) (fact_text : string)
    (max_keywords : Z) : list string :=
  let words := Py.split (str_lower fact_text) in
  let '(keywords, priority_keywords) :=
    fold_left (keyword_step str_lower) words ([], []) in
  let final_keywords := priority_keywords ++ keywords in
  let final_keywords :=
    if (length final_keywords <? 2)%nat then final_keywords ++ fallback_topics
    else final_keywords in
  slice_upto final_keywords max_keywords.

(** [str.lower] on ASCII text. *)
Definition lower_char (c : ascii) : ascii :=
  let n := nat_of_ascii c in
  if Nat.leb 65 n && Nat.leb n 90 then ascii_of_nat (n + 32) else c.

Fixpoint ascii_lower (s : string) : string :=
  match s with
  | EmptyString => EmptyString
  | String c rest => String (lower_char c) (ascii_lower rest)
  end.

End Parsers.

(** ** main.py: step 5 of [generate_video] *)

Module Pipeline.

Section Acquire.

(** The keys, the two searches as they answer during selection attempt
    [n], the random draw of attempt [n], and the requests for video files
    (see [Assets.download_video]). *)
Variable pexels_key pixabay_key : string.
Variable pexels_api pixabay_api : nat -> string -> option (list Assets.Video).
Variable rnd : nat -> nat.
Variable fetch : string -> nat -> Assets.attempt_result.

(** [for attempt in range(max_video_attempts): ...] followed by
    [if not background_video: return None]. The result is the path of the
    background video, [None] where [generate_video] returns [None], or the
    exception that [download_video] let through. *)
Fixpoint acquire_loop (attempts : list Z) (keywords : list string)
    (video_dir : string) (st : Assets.net_state) (log : list Assets.provider_query)
  : Assets.net_state * list Assets.provider_query * Py.outcome (option string) :=
  match attempts with
  | [] => (st, log, Py.Return None)
  | attempt :: rest =>
      let n := Z.to_nat attempt in
      let '(sent, video_data) :=
        Assets.find_best_video pexels_key pixabay_key (pexels_api n)
          (pixabay_api n) keywords "both" 10 (rnd n) in
      match video_data with
      | None => (st, log ++ sent, Py.Return None)
      | Some video_data =>
          match Assets.get_video_url video_data with
          | None => acquire_loop rest keywords video_dir st (log ++ sent)
          | Some video_url =>
              if negb (Py.str_truthy video_url) then
                acquire_loop rest keywords video_dir st (log ++ sent)
              else
                match Assets.download_video fetch video_url (Some video_dir)
                        (Some "background.mp4") 3 st with
                | (st1, Py.Return (Some background_video)) =>
                    (st1, log ++ sent, Py.Return (Some background_video))
                | (st1, Py.Return None) =>
                    acquire_loop rest keywords video_dir st1 (log ++ sent)
                | (st1, Py.Raise) => (st1, log ++ sent, Py.Raise)
                end
          end
      end
  end.

(** Lines 129 to 158 of [generate_video], with [max_video_attempts = 3]. *)
Definition acquire_background_video (keywords : list string) (video_dir : string)
    (st : Assets.net_state)
  : Assets.net_state * list Assets.provider_query * Py.outcome (option string) :=
  acquire_loop (Py.range 3) keywords video_dir st [].

End Acquire.

End Pipeline.

(* ===================================================================== *)
(** * Part II: properties                                                 *)
(* ===================================================================== *)

(** ** Rounding *)

Section Rounding.

Local Open Scope Q_scope.

Lemma round_half_even_cases (x : Q) :
  let f := Qfloor x in
  (x - inject_Z f < 1 # 2 /\ Py.round_half_even x = f)
  \/ (1 # 2 < x - inject_Z f /\ Py.round_half_even x = (f + 1)%Z)
  \/ (x - inject_Z f == 1 # 2
      /\ (Py.round_half_even x = f \/ Py.round_half_even x = (f + 1)%Z)).
Proof.
  intros f. unfold Py.round_half_even. fold f.
  destruct (Qcompare_spec (x - inject_Z f) (1 # 2)) as [E | L | G].
  - right. right. split; [exact E |]. destruct (Z.even f); auto.
  - left. auto.
  - right. left. auto.
Qed.

Lemma floor_bounds (x : Q) :
  inject_Z (Qfloor x) <= x /\ x < inject_Z (Qfloor x) + 1.
Proof.
  split; [apply Qfloor_le |].
  pose proof (Qlt_floor x) as H. rewrite inject_Z_plus in H. exact H.
Qed.

Lemma round_half_even_comp (x y : Q) :
  x == y -> Py.round_half_even x = Py.round_half_even y.
Proof.
  intros E. unfold Py.round_half_even.
  rewrite (Qfloor_comp _ _ E).
  assert (C : (x - inject_Z (Qfloor y) ?= 1 # 2)
              = (y - inject_Z (Qfloor y) ?= 1 # 2)).
  { apply Qcompare_comp; [rewrite E |]; reflexivity. }
  rewrite C. reflexivity.
Qed.

Lemma round_half_even_mono (x y : Q) :
  x <= y -> (Py.round_half_even x <= Py.round_half_even y)%Z.
Proof.
  intros L.
  pose proof (Qfloor_resp_le _ _ L) as FL.
  destruct (Z.eq_dec (Qfloor x) (Qfloor y)) as [E | NE].
  - unfold Py.round_half_even. rewrite E.
    destruct (Qcompare_spec (x - inject_Z (Qfloor y)) (1 # 2)) as [E1 | L1 | G1];
    destruct (Qcompare_spec (y - inject_Z (Qfloor y)) (1 # 2)) as [E2 | L2 | G2];
    destruct (Z.even (Qfloor y)); try lia; exfalso; lra.
  - destruct (round_half_even_cases x) as [[_ ->] | [[_ ->] | [_ [-> | ->]]]];
    destruct (round_half_even_cases y) as [[_ ->] | [[_ ->] | [_ [-> | ->]]]];
    lia.
Qed.

Lemma round_half_even_near (x : Q) :
  x - (1 # 2) <= inject_Z (Py.round_half_even x)
  /\ inject_Z (Py.round_half_even x) <= x + (1 # 2).
Proof.
  destruct (floor_bounds x) as [Lo Hi].
  destruct (round_half_even_cases x) as [[H ->] | [[H ->] | [H [-> | ->]]]];
    rewrite ?inject_Z_plus; change (inject_Z 1) with 1; split; lra.
Qed.

Lemma round_half_even_Z (z : Z) : Py.round_half_even (inject_Z z) = z.
Proof.
  unfold Py.round_half_even. rewrite Qfloor_Z.
  destruct (Qcompare_spec (inject_Z z - inject_Z z) (1 # 2)) as [E | L | G].
  - exfalso. lra.
  - reflexivity.
  - exfalso. lra.
Qed.

(** [round(x, 3)] depends on the value of [x] only, is monotone, and moves
    [x] by at most half a millisecond. *)
Lemma round3_comp (x y : Q) : x == y -> Py.round x 3 = Py.round y 3.
Proof.
  intros E. unfold Py.round. f_equal.
  apply round_half_even_comp. rewrite E. reflexivity.
Qed.

Lemma round3_value (x : Q) :
  Py.round x 3 == inject_Z (Py.round_half_even (x * 1000)) / 1000.
Proof.
  unfold Py.round. cbn [Pos.of_nat]. 
  change (Pos.pow 10 (Pos.of_nat 3)) with 1000%positive.
  rewrite (Qmake_Qdiv _ 1000). reflexivity.
Qed.

(** A time on the millisecond grid is left as it is. *)
Lemma round3_grid (ms : Z) : Py.round (ms # 1000) 3 = ms # 1000.
Proof.
  unfold Py.round. f_equal.
  rewrite <- (round_half_even_Z ms) at 2. apply round_half_even_comp.
  change (inject_Z (Z.pos (Pos.pow 10 (Pos.of_nat 3)))) with 1000.
  rewrite (Qmake_Qdiv ms 1000). field.
Qed.

Lemma round3_mono (x y : Q) : x <= y -> Py.round x 3 <= Py.round y 3.
Proof.
  intros L. unfold Py.round, Qle. cbn [Qnum Qden].
  apply Z.mul_le_mono_nonneg_r; [lia |].
  apply round_half_even_mono. 
  change (inject_Z (Z.pos (Pos.pow 10 (Pos.of_nat 3)))) with 1000. lra.
Qed.

Lemma round3_near (x : Q) :
  x - (1 # 2000) <= Py.round x 3 /\ Py.round x 3 <= x + (1 # 2000).
Proof.
  rewrite round3_value.
  destruct (round_half_even_near (x * 1000)) as [Lo Hi].
  split.
  - apply Qle_shift_div_l; [reflexivity | lra].
  - apply Qle_shift_div_r; [reflexivity | lra].
Qed.

End Rounding.

(** ** IEEE 754 binary64 *)

Section Binary64.
Local Open Scope Q_scope.

Lemma pow2_pos (e : Z) : 0 < Float.pow2 e.
Proof. apply Qpower_0_lt. reflexivity. Qed.

Lemma pow2_add (a b : Z) : Float.pow2 (a + b) == Float.pow2 a * Float.pow2 b.
Proof. apply Qpower_plus. discriminate. Qed.

Lemma pow2_le (a b : Z) : (a <= b)%Z -> Float.pow2 a <= Float.pow2 b.
Proof. intros H. apply Qpower_le_compat_l; [exact H | discriminate]. Qed.

Lemma pow2_lt (a b : Z) : (a < b)%Z -> Float.pow2 a < Float.pow2 b.
Proof. intros H. apply Qpower_lt_compat_l; [exact H | reflexivity]. Qed.

Lemma pow2_lt_inv (a b : Z) : Float.pow2 a < Float.pow2 b -> (a < b)%Z.
Proof. intros H. apply (Qpower_lt_compat_l_inv 2); [exact H | reflexivity]. Qed.

Lemma pow2_Z (e : Z) : (0 <= e)%Z -> Float.pow2 e == inject_Z (2 ^ e).
Proof. intros H. unfold Float.pow2. rewrite Zpower_Qpower by exact H. reflexivity. Qed.

Lemma pow2_succ (e : Z) : Float.pow2 (e + 1) == 2 * Float.pow2 e.
Proof. rewrite pow2_add. change (Float.pow2 1) with 2. ring. Qed.

Lemma pow2_sub (a b : Z) : Float.pow2 (a - b) == Float.pow2 a / Float.pow2 b.
Proof.
  unfold Z.sub. rewrite pow2_add. unfold Float.pow2 at 2. rewrite Qpower_opp.
  reflexivity.
Qed.

(** The binade of a positive rational. *)
Lemma binade_bounds (x : Q) :
  0 < x ->
  Float.pow2 (Float.binade x) <= x /\ x < Float.pow2 (Float.binade x + 1).
Proof.
  intros Hx. destruct x as [p q]. unfold Qlt in Hx. cbn [Qnum Qden] in Hx.
  assert (Hp : (0 < p)%Z) by lia.
  unfold Float.binade. cbn [Qnum Qden]. rewrite Z.abs_eq by lia.
  set (lp := Z.log2 p). set (lq := Z.log2 (Z.pos q)).
  destruct (Z.log2_spec p Hp) as [Lp Up]. fold lp in Lp, Up.
  destruct (Z.log2_spec (Z.pos q) ltac:(lia)) as [Lq Uq]. fold lq in Lq, Uq.
  assert (Hlp : (0 <= lp)%Z) by apply Z.log2_nonneg.
  assert (Hlq : (0 <= lq)%Z) by apply Z.log2_nonneg.
  assert (Habs : Qabs (p # q) = p # q).
  { unfold Qabs. rewrite Z.abs_eq by lia. reflexivity. }
  rewrite Habs.
  assert (HA : Float.pow2 lp == inject_Z (2 ^ lp)) by (apply pow2_Z; exact Hlp).
  assert (HB : Float.pow2 lq == inject_Z (2 ^ lq)) by (apply pow2_Z; exact Hlq).
  assert (Hx' : p # q == inject_Z p / inject_Z (Z.pos q)) by apply Qmake_Qdiv.
  assert (Hq0 : 0 < inject_Z (Z.pos q)) by (rewrite <- (Zlt_Qlt 0); lia).
  assert (HLp : Float.pow2 lp <= inject_Z p) by (rewrite HA, <- Zle_Qle; exact Lp).
  assert (HUp : inject_Z p < 2 * Float.pow2 lp).
  { rewrite HA. change 2 with (inject_Z 2). rewrite <- inject_Z_mult, <- Zlt_Qlt.
    replace (Z.succ lp) with (lp + 1)%Z in Up by lia.
    rewrite Z.pow_add_r, Z.pow_1_r in Up by lia. lia. }
  assert (HLq : Float.pow2 lq <= inject_Z (Z.pos q)) by (rewrite HB, <- Zle_Qle; exact Lq).
  assert (HUq : inject_Z (Z.pos q) < 2 * Float.pow2 lq).
  { rewrite HB. change 2 with (inject_Z 2). rewrite <- inject_Z_mult, <- Zlt_Qlt.
    replace (Z.succ lq) with (lq + 1)%Z in Uq by lia.
    rewrite Z.pow_add_r, Z.pow_1_r in Uq by lia. lia. }
  pose proof (pow2_pos lp) as PA. pose proof (pow2_pos lq) as PB.
  assert (Hup : p # q < Float.pow2 (lp - lq + 1)).
  { rewrite pow2_succ, pow2_sub, Hx'.
    apply Qlt_shift_div_r; [exact Hq0 |].
    assert (E : 2 * (Float.pow2 lp / Float.pow2 lq) * inject_Z (Z.pos q)
                == 2 * Float.pow2 lp * (inject_Z (Z.pos q) / Float.pow2 lq))
      by (field; intros E; rewrite E in PB; discriminate PB).
    rewrite E.
    apply Qlt_le_trans with (2 * Float.pow2 lp); [exact HUp |].
    rewrite <- (Qmult_1_r (2 * Float.pow2 lp)) at 1.
    apply Qmult_le_l; [lra |].
    apply Qle_shift_div_l; [exact PB | lra]. }
  assert (Hlo : Float.pow2 (lp - lq - 1) <= p # q).
  { assert (E : Float.pow2 (lp - lq - 1) == Float.pow2 lp / (2 * Float.pow2 lq)).
    { replace (lp - lq - 1)%Z with (lp - (lq + 1))%Z by lia.
      rewrite pow2_sub, pow2_succ. reflexivity. }
    rewrite E, Hx'.
    apply Qle_shift_div_l; [exact Hq0 |].
    assert (E' : Float.pow2 lp / (2 * Float.pow2 lq) * inject_Z (Z.pos q)
                 == Float.pow2 lp * (inject_Z (Z.pos q) / (2 * Float.pow2 lq)))
      by (field; intros E'; rewrite E' in PB; discriminate PB).
    rewrite E'.
    apply Qle_trans with (Float.pow2 lp); [| exact HLp].
    rewrite <- (Qmult_1_r (Float.pow2 lp)) at 2.
    apply Qmult_le_l; [exact PA |].
    apply Qle_shift_div_r; [lra | lra]. }
  destruct (Qle_bool (Float.pow2 (lp - lq)) (p # q)) eqn:Hb.
  - apply Qle_bool_iff in Hb. split; [exact Hb | exact Hup].
  - split; [exact Hlo |].
    replace (lp - lq - 1 + 1)%Z with (lp - lq)%Z by lia.
    apply Qnot_le_lt. intros H. apply Qle_bool_iff in H. congruence.
Qed.

Lemma binade_unique (x : Q) (e : Z) :
  Float.pow2 e <= x -> x < Float.pow2 (e + 1) -> Float.binade x = e.
Proof.
  intros Lo Hi.
  assert (Hx : 0 < x) by (pose proof (pow2_pos e); lra).
  destruct (binade_bounds x Hx) as [Lo' Hi'].
  assert (H1 : (Float.binade x < e + 1)%Z)
    by (apply pow2_lt_inv; lra).
  assert (H2 : (e < Float.binade x + 1)%Z)
    by (apply pow2_lt_inv; lra).
  lia.
Qed.

Lemma binade_mono (x y : Q) :
  0 < x -> x <= y -> (Float.binade x <= Float.binade y)%Z.
Proof.
  intros Hx Hxy.
  destruct (binade_bounds x Hx) as [Lx _].
  destruct (binade_bounds y ltac:(lra)) as [_ Uy].
  assert (H : (Float.binade x < Float.binade y + 1)%Z)
    by (apply pow2_lt_inv; lra).
  lia.
Qed.

Lemma binade_comp (x y : Q) : 0 < x -> x == y -> Float.binade x = Float.binade y.
Proof.
  intros Hx E. symmetry. destruct (binade_bounds x Hx) as [L U].
  apply binade_unique; rewrite <- E; assumption.
Qed.

Lemma rnd_value (x : Q) :
  Float.rnd x
  == inject_Z (Py.round_half_even (x / Float.pow2 (Float.ulp_exponent x)))
     * Float.pow2 (Float.ulp_exponent x).
Proof. unfold Float.rnd. apply Qred_correct. Qed.

Lemma grid_shift (k : Z) (e ue : Z) :
  (ue <= e)%Z ->
  inject_Z k * Float.pow2 e / Float.pow2 ue == inject_Z (k * 2 ^ (e - ue)).
Proof.
  intros H. rewrite inject_Z_mult, <- pow2_Z by lia. rewrite pow2_sub.
  field. intros E. pose proof (pow2_pos ue) as P. rewrite E in P. discriminate P.
Qed.

Lemma Qle_div_mult (a b c : Q) : 0 < c -> a <= b / c -> a * c <= b.
Proof.
  intros Hc H. apply (Qmult_le_compat_r _ _ c) in H; [| lra].
  assert (E : b / c * c == b) by (field; intros E; rewrite E in Hc; discriminate Hc).
  rewrite E in H. exact H.
Qed.

Lemma Qdiv_le_mult (a b c : Q) : 0 < c -> b / c <= a -> b <= a * c.
Proof.
  intros Hc H. apply (Qmult_le_compat_r _ _ c) in H; [| lra].
  assert (E : b / c * c == b) by (field; intros E; rewrite E in Hc; discriminate Hc).
  rewrite E in H. exact H.
Qed.

Lemma rnd_le_grid (x : Q) (k e : Z) :
  (Float.ulp_exponent x <= e)%Z ->
  x <= inject_Z k * Float.pow2 e -> Float.rnd x <= inject_Z k * Float.pow2 e.
Proof.
  intros Hu Hx. rewrite rnd_value. set (ue := Float.ulp_exponent x) in *.
  pose proof (pow2_pos ue) as P.
  assert (H : (Py.round_half_even (x / Float.pow2 ue) <= k * 2 ^ (e - ue))%Z).
  { rewrite <- (round_half_even_Z (k * 2 ^ (e - ue))).
    apply round_half_even_mono. rewrite <- grid_shift by exact Hu.
    apply Qle_shift_div_l; [exact P |].
    assert (E : x / Float.pow2 ue * Float.pow2 ue == x)
      by (field; intros E; rewrite E in P; discriminate P).
    rewrite E. exact Hx. }
  rewrite Zle_Qle, <- grid_shift in H by exact Hu.
  apply Qle_div_mult; assumption.
Qed.

Lemma rnd_ge_grid (x : Q) (k e : Z) :
  (Float.ulp_exponent x <= e)%Z ->
  inject_Z k * Float.pow2 e <= x -> inject_Z k * Float.pow2 e <= Float.rnd x.
Proof.
  intros Hu Hx. rewrite rnd_value. set (ue := Float.ulp_exponent x) in *.
  pose proof (pow2_pos ue) as P.
  assert (H : (k * 2 ^ (e - ue) <= Py.round_half_even (x / Float.pow2 ue))%Z).
  { rewrite <- (round_half_even_Z (k * 2 ^ (e - ue))) at 1.
    apply round_half_even_mono. rewrite <- grid_shift by exact Hu.
    apply Qle_shift_div_r; [exact P |].
    assert (E : x / Float.pow2 ue * Float.pow2 ue == x)
      by (field; intros E; rewrite E in P; discriminate P).
    rewrite E. exact Hx. }
  rewrite Zle_Qle, <- grid_shift in H by exact Hu.
  apply Qdiv_le_mult; assumption.
Qed.

Lemma rnd_nonneg (x : Q) : 0 <= x -> 0 <= Float.rnd x.
Proof.
  intros H.
  pose proof (rnd_ge_grid x 0 (Float.ulp_exponent x) ltac:(lia)) as G.
  rewrite Qmult_0_l in G. exact (G H).
Qed.

Lemma rnd_nonpos (x : Q) : x <= 0 -> Float.rnd x <= 0.
Proof.
  intros H.
  pose proof (rnd_le_grid x 0 (Float.ulp_exponent x) ltac:(lia)) as G.
  rewrite Qmult_0_l in G. exact (G H).
Qed.

Lemma ulp_exponent_mono (x y : Q) :
  0 < x -> x <= y -> (Float.ulp_exponent x <= Float.ulp_exponent y)%Z.
Proof.
  intros Hx Hxy. unfold Float.ulp_exponent.
  pose proof (binade_mono x y Hx Hxy). lia.
Qed.

(** Rounding to the nearest double is monotone. *)
Lemma rnd_mono (x y : Q) : 0 <= x -> x <= y -> Float.rnd x <= Float.rnd y.
Proof.
  intros H0 Hxy.
  destruct (Qlt_le_dec 0 x) as [Hx | Hx].
  2:{ apply Qle_trans with 0; [apply rnd_nonpos; exact Hx | apply rnd_nonneg; lra]. }
  pose proof (ulp_exponent_mono x y Hx Hxy) as Hu.
  destruct (Z.eq_dec (Float.ulp_exponent x) (Float.ulp_exponent y)) as [E | NE].
  - rewrite !rnd_value, E. set (ue := Float.ulp_exponent y).
    pose proof (pow2_pos ue) as P.
    apply Qmult_le_compat_r; [| lra].
    rewrite <- Zle_Qle. apply round_half_even_mono.
    apply Qle_shift_div_l; [exact P |].
    assert (E' : x / Float.pow2 ue * Float.pow2 ue == x)
      by (field; intros E'; rewrite E' in P; discriminate P).
    rewrite E'. exact Hxy.
  - destruct (binade_bounds x Hx) as [_ Ux].
    destruct (binade_bounds y ltac:(lra)) as [Ly _].
    unfold Float.ulp_exponent in Hu, NE.
    assert (Hb : (Float.binade x + 1 <= Float.binade y)%Z) by lia.
    apply Qle_trans with (inject_Z 1 * Float.pow2 (Float.binade y)).
    + apply rnd_le_grid; [unfold Float.ulp_exponent; lia |].
      change (inject_Z 1) with 1. rewrite Qmult_1_l.
      pose proof (pow2_le _ _ Hb). lra.
    + apply rnd_ge_grid; [unfold Float.ulp_exponent; lia |].
      change (inject_Z 1) with 1. rewrite Qmult_1_l. exact Ly.
Qed.

Lemma rnd_zero (x : Q) : x == 0 -> Float.rnd x == 0.
Proof.
  intros E. apply Qle_antisym.
  - apply rnd_nonpos. rewrite E. lra.
  - apply rnd_nonneg. rewrite E. lra.
Qed.

Lemma grid_is_double (k e : Z) :
  (0 <= k < 2 ^ 53)%Z -> (-1074 <= e)%Z ->
  Float.is_double (inject_Z k * Float.pow2 e).
Proof.
  intros Hk He. unfold Float.is_double. set (r := inject_Z k * Float.pow2 e).
  pose proof (pow2_pos e) as P.
  destruct (Z.eq_dec k 0%Z) as [-> | Hk0].
  { assert (Hr : r == 0) by (unfold r; ring).
    rewrite (rnd_zero r Hr), Hr. reflexivity. }
  assert (Hr : 0 < r).
  { unfold r. apply Qmult_lt_0_compat; [| exact P].
    rewrite <- (Zlt_Qlt 0). lia. }
  assert (Hu : (Float.ulp_exponent r <= e)%Z).
  { destruct (binade_bounds r Hr) as [Lo _].
    assert (Hlt : r < Float.pow2 (53 + e)).
    { unfold r. rewrite pow2_add, (pow2_Z 53) by lia.
      apply Qmult_lt_compat_r; [exact P |]. rewrite <- Zlt_Qlt. lia. }
    assert (Hb : (Float.binade r < 53 + e)%Z) by (apply pow2_lt_inv; lra).
    unfold Float.ulp_exponent. lia. }
  apply Qle_antisym.
  - apply rnd_le_grid; [exact Hu | apply Qle_refl].
  - apply rnd_ge_grid; [exact Hu | apply Qle_refl].
Qed.

Lemma rnd_opp_binade (x : Q) : Float.binade (- x) = Float.binade x.
Proof.
  unfold Float.binade. destruct x as [p q].
  assert (E : Qabs (- (p # q)) = Qabs (p # q)).
  { unfold Qabs, Qopp. cbn [Qnum Qden]. rewrite Z.abs_opp. reflexivity. }
  rewrite E. cbn [Qopp Qnum Qden]. rewrite Z.abs_opp. reflexivity.
Qed.

Lemma binade_comp_all (x y : Q) :
  ~ x == 0 -> x == y -> Float.binade x = Float.binade y.
Proof.
  intros Hx E. destruct (Qlt_le_dec 0 x) as [P | N].
  - apply binade_comp; assumption.
  - rewrite <- (rnd_opp_binade x), <- (rnd_opp_binade y).
    apply binade_comp; [| rewrite E; reflexivity].
    destruct (Qeq_dec x 0) as [Z0 | NZ]; [contradiction |].
    assert (x < 0) by (apply Qle_lteq in N as [L | Eq]; [exact L | contradiction]).
    lra.
Qed.

(** The rounded value depends on the value of the rational only. *)
Lemma rnd_comp (x y : Q) : x == y -> Float.rnd x = Float.rnd y.
Proof.
  intros E. unfold Float.rnd. apply Qred_complete.
  destruct (Qeq_dec x 0) as [Z0 | NZ].
  - pose proof (rnd_zero x Z0) as Hx.
    assert (Z1 : y == 0) by (rewrite <- E; exact Z0).
    pose proof (rnd_zero y Z1) as Hy.
    rewrite rnd_value in Hx, Hy. rewrite Hx, Hy. reflexivity.
  - unfold Float.ulp_exponent. rewrite (binade_comp_all x y NZ E).
    rewrite (round_half_even_comp (x / _) (y / Float.pow2
                 (Z.max (Float.binade y - 52) (-1074)))); [reflexivity |].
    rewrite E. reflexivity.
Qed.

Lemma rnd_is_double (x : Q) : 0 <= x -> Float.is_double (Float.rnd x).
Proof.
  intros H0. unfold Float.is_double.
  set (ue := Float.ulp_exponent x).
  set (m := Py.round_half_even (x / Float.pow2 ue)).
  assert (Hv : Float.rnd x == inject_Z m * Float.pow2 ue) by apply rnd_value.
  pose proof (pow2_pos ue) as P.
  assert (Hu : (-1074 <= ue)%Z) by (unfold ue, Float.ulp_exponent; lia).
  assert (Hm0 : (0 <= m)%Z).
  { unfold m. rewrite <- (round_half_even_Z 0). apply round_half_even_mono.
    change (inject_Z 0) with 0. apply Qle_shift_div_l; [exact P | lra]. }
  assert (Hm1 : (m <= 2 ^ 53)%Z).
  { unfold m. rewrite <- (round_half_even_Z (2 ^ 53)). apply round_half_even_mono.
    apply Qle_shift_div_r; [exact P |].
    destruct (Qlt_le_dec 0 x) as [Hx | Hx].
    - destruct (binade_bounds x Hx) as [_ Ux].
      apply Qle_trans with (Float.pow2 (Float.binade x + 1)); [lra |].
      rewrite <- (pow2_Z 53), <- pow2_add by lia. apply pow2_le.
      unfold ue, Float.ulp_exponent. lia.
    - apply Qle_trans with 0; [lra |].
      apply Qmult_le_0_compat; [| lra]. rewrite <- (Zle_Qle 0). lia. }
  rewrite (rnd_comp _ _ Hv), Hv.
  destruct (Z.eq_dec m (2 ^ 53)%Z) as [E | NE].
  - assert (E2 : inject_Z m * Float.pow2 ue
                 == inject_Z (2 ^ 52) * Float.pow2 (ue + 1)).
    { rewrite E, pow2_succ. change (2 ^ 53)%Z with (2 ^ 52 * 2)%Z.
      rewrite inject_Z_mult. change (inject_Z 2) with 2. ring. }
    rewrite (rnd_comp _ _ E2), E2. apply grid_is_double; lia.
  - apply grid_is_double; lia.
Qed.

(** The relative error of rounding, in the range of the normal doubles. *)
Lemma u_pow2 : Float.u == Float.pow2 (-53).
Proof. reflexivity. Qed.

Lemma rnd_error (x : Q) :
  Float.pow2 (-1022) <= x ->
  x * (1 - Float.u) <= Float.rnd x /\ Float.rnd x <= x * (1 + Float.u).
Proof.
  intros Hx.
  assert (H0 : 0 < x) by (pose proof (pow2_pos (-1022)); lra).
  destruct (binade_bounds x H0) as [Lo Hi].
  assert (Hb : (-1022 <= Float.binade x)%Z).
  { assert (H : (-1022 < Float.binade x + 1)%Z) by (apply pow2_lt_inv; lra). lia. }
  assert (He : Float.ulp_exponent x = (Float.binade x - 52)%Z)
    by (unfold Float.ulp_exponent; lia).
  rewrite rnd_value, He. set (e := (Float.binade x - 52)%Z).
  pose proof (pow2_pos e) as P.
  destruct (round_half_even_near (x / Float.pow2 e)) as [L U].
  set (m := inject_Z (Py.round_half_even (x / Float.pow2 e))) in *.
  assert (Hh : Float.pow2 e * (1 # 2) <= x * Float.u).
  { rewrite u_pow2.
    assert (E : Float.pow2 e * (1 # 2)
                == Float.pow2 (Float.binade x) * Float.pow2 (-53)).
    { replace (Float.binade x) with (e + 52)%Z by (unfold e; lia).
      rewrite pow2_add. change (Float.pow2 52) with (4503599627370496 # 1).
      change (Float.pow2 (-53)) with (1 # 9007199254740992). ring. }
    rewrite E. apply Qmult_le_compat_r; [exact Lo |]. apply Qlt_le_weak, pow2_pos. }
  assert (Ex : x / Float.pow2 e * Float.pow2 e == x)
    by (field; intros E; rewrite E in P; discriminate P).
  assert (L' : (x / Float.pow2 e - (1 # 2)) * Float.pow2 e <= m * Float.pow2 e)
    by (apply Qmult_le_compat_r; lra).
  assert (U' : m * Float.pow2 e <= (x / Float.pow2 e + (1 # 2)) * Float.pow2 e)
    by (apply Qmult_le_compat_r; lra).
  assert (E1 : (x / Float.pow2 e - (1 # 2)) * Float.pow2 e
               == x - Float.pow2 e * (1 # 2)) by (rewrite <- Ex at 2; ring).
  assert (E2 : (x / Float.pow2 e + (1 # 2)) * Float.pow2 e
               == x + Float.pow2 e * (1 # 2)) by (rewrite <- Ex at 2; ring).
  rewrite E1 in L'. rewrite E2 in U'.
  split; [| ].
  - apply Qle_trans with (x - Float.pow2 e * (1 # 2)); [| exact L'].
    clear -Hh. unfold Float.u in *. lra.
  - apply Qle_trans with (x + Float.pow2 e * (1 # 2)); [exact U' |].
    clear -Hh. unfold Float.u in *. lra.
Qed.

End Binary64.

#[global] Instance rnd_proper : Proper (Qeq ==> Qeq) Float.rnd.
Proof. intros x y E. rewrite (rnd_comp x y E). reflexivity. Qed.

(** ** Agreement with the binary64 arithmetic of the kernel *)

(** The operations of module [Float], run beside the machine floats of
    the kernel on values that the synthesizer and the renderer meet:
    [1.001], [1.001 * 1000], [0.0006 * 0.95], [0.25 * 0.95],
    [0.2505 + 0.2505] and a third. *)
Example binary64_agreement :
  let q (a b : Z) := PrimFloat.div (Float.prim a) (Float.prim b) in
  Float.of_prim (q 1001 1000)%Z = Some (Float.rnd (1001 # 1000))
  /\ Float.of_prim (PrimFloat.mul (q 1001 1000) (Float.prim 1000))%Z
     = Some (Float.mul (Float.rnd (1001 # 1000)) 1000%Q)
  /\ Float.of_prim (PrimFloat.mul (q 6 10000) (q 95 100))%Z
     = Some (Float.mul (Float.rnd (6 # 10000)) TTS64.c0_95)
  /\ Float.of_prim (PrimFloat.mul (q 1 4) (q 95 100))%Z
     = Some (Float.mul (1 # 4) TTS64.c0_95)
  /\ Float.of_prim (PrimFloat.add (q 1002 4000) (q 1002 4000))%Z
     = Some (Float.add (Float.div (1002 # 1000) 4%Q)
                       (Float.div (1002 # 1000) 4%Q))
  /\ Float.of_prim (q 1 3)%Z = Some (Float.div 1%Q 3%Q).
Proof. vm_compute. repeat split. Qed.

(** ** Times on the millisecond grid, as doubles *)

Section MillisecondGrid.

Local Open Scope Q_scope.

Lemma round_half_even_unique (y : Q) (k : Z) :
  inject_Z k - (1 # 2) < y -> y < inject_Z k + (1 # 2) ->
  Py.round_half_even y = k.
Proof.
  intros Lo Hi. destruct (round_half_even_near y) as [L U].
  assert (H1 : inject_Z (Py.round_half_even y) < inject_Z (k + 1)).
  { rewrite inject_Z_plus. change (inject_Z 1) with 1. lra. }
  assert (H2 : inject_Z (k - 1) < inject_Z (Py.round_half_even y)).
  { unfold Z.sub. rewrite inject_Z_plus, inject_Z_opp.
    change (inject_Z 1) with 1. lra. }
  rewrite <- Zlt_Qlt in H1, H2. lia.
Qed.

Lemma millisecond_normal : Float.pow2 (-1022) <= 1 # 2000.
Proof. apply Qle_bool_iff. vm_compute. reflexivity. Qed.

(** The double nearest to [k] milliseconds is within [k * 2^-53] ms of
    them. *)
Lemma grid_double_near (k : Z) :
  (0 <= k)%Z ->
  inject_Z k * (1 - Float.u) <= Float.rnd (k # 1000) * 1000
  /\ Float.rnd (k # 1000) * 1000 <= inject_Z k * (1 + Float.u).
Proof.
  intros Hk. destruct (Z.eq_dec k 0%Z) as [-> | Hk0].
  - assert (E : Float.rnd (0 # 1000) == 0) by (apply rnd_zero; reflexivity).
    rewrite E. change (inject_Z 0) with 0. split; lra.
  - assert (HK : 1 <= inject_Z k)
      by (change 1 with (inject_Z 1); rewrite <- Zle_Qle; lia).
    assert (Ex : k # 1000 == inject_Z k * (1 # 1000))
      by (rewrite (Qmake_Qdiv k 1000); reflexivity).
    pose proof millisecond_normal as Hn.
    destruct (rnd_error (k # 1000)) as [L U]; [rewrite Ex; lra |].
    rewrite Ex in L, U. rewrite Ex. unfold Float.u in *. split; lra.
Qed.

Lemma grid_round_trip (k : Z) :
  (0 <= k <= 2 ^ 50)%Z ->
  Py.round_half_even (Float.rnd (k # 1000) * 1000) = k.
Proof.
  intros Hk. destruct (grid_double_near k ltac:(lia)) as [L U].
  assert (HK0 : 0 <= inject_Z k) by (rewrite <- (Zle_Qle 0); lia).
  assert (HK : inject_Z k <= 1125899906842624).
  { change 1125899906842624 with (inject_Z (2 ^ 50)). rewrite <- Zle_Qle. lia. }
  unfold Float.u in *. apply round_half_even_unique; lra.
Qed.

(** [round(x, 3)] leaves a double on the millisecond grid as it is. *)
Lemma round64_grid (k : Z) :
  (0 <= k <= 2 ^ 50)%Z ->
  Float.round (Float.rnd (k # 1000)) 3 = Float.rnd (k # 1000).
Proof.
  intros Hk. unfold Float.round. apply rnd_comp. unfold Py.round.
  change (inject_Z (Z.pos (Pos.pow 10 (Pos.of_nat 3)))) with 1000.
  change (Pos.pow 10 (Pos.of_nat 3)) with 1000%positive.
  rewrite grid_round_trip by exact Hk. reflexivity.
Qed.

(** [int(x)] of a float that is not negative is its floor. *)
Lemma int_floor (x : Q) : 0 <= x -> Py.int x = Qfloor x.
Proof.
  intros H. destruct x as [p q]. unfold Py.int, Qfloor. cbn [Qnum Qden].
  unfold Qle in H. cbn [Qnum Qden] in H.
  apply Z.quot_div_nonneg; lia.
Qed.

Lemma int_mono (x y : Q) : 0 <= x -> x <= y -> (Py.int x <= Py.int y)%Z.
Proof.
  intros H0 H. rewrite !int_floor by lra. apply Qfloor_resp_le. exact H.
Qed.

(** [int(x * 1000)], the conversion of the caption renderer, is monotone
    and keeps the sign. *)
Lemma milliseconds_mono (x y : Q) :
  0 <= x -> x <= y ->
  (0 <= Py.int (Float.mul x 1000) <= Py.int (Float.mul y 1000))%Z.
Proof.
  intros H0 H. unfold Float.mul.
  assert (Hx : 0 <= Float.rnd (x * 1000)) by (apply rnd_nonneg; lra).
  split.
  - rewrite int_floor by exact Hx. rewrite <- (Qfloor_Z 0).
    apply Qfloor_resp_le. exact Hx.
  - apply int_mono; [exact Hx | apply rnd_mono; lra].
Qed.

(** For a double on the millisecond grid, [int(x * 1000)] is the number
    of milliseconds, or one less. *)
Lemma milliseconds_of_grid (k : Z) :
  (0 <= k <= 2 ^ 50)%Z ->
  Py.int (Float.mul (Float.rnd (k # 1000)) 1000) = k
  \/ Py.int (Float.mul (Float.rnd (k # 1000)) 1000) = (k - 1)%Z.
Proof.
  intros Hk. destruct (grid_double_near k ltac:(lia)) as [L U].
  assert (HK0 : 0 <= inject_Z k) by (rewrite <- (Zle_Qle 0); lia).
  assert (HK : inject_Z k <= 1125899906842624).
  { change 1125899906842624 with (inject_Z (2 ^ 50)). rewrite <- Zle_Qle. lia. }
  set (x := Float.rnd (k # 1000) * 1000) in *.
  assert (Hx0 : 0 <= x) by (unfold Float.u in *; lra).
  assert (Hp0 : 0 <= Float.rnd x) by (apply rnd_nonneg; exact Hx0).
  unfold Float.mul. fold x. rewrite int_floor by exact Hp0.
  destruct (Z.eq_dec k 0%Z) as [-> | Hk0].
  - left. change (inject_Z 0) with 0 in *.
    assert (Ex : x == 0) by lra.
    rewrite (Qfloor_comp _ 0); [reflexivity | apply rnd_zero; exact Ex].
  - assert (HK1 : 1 <= inject_Z k)
      by (change 1 with (inject_Z 1); rewrite <- Zle_Qle; lia).
    pose proof millisecond_normal as Hn.
    destruct (rnd_error x) as [Lp Up]; [unfold Float.u in *; lra |].
    destruct (floor_bounds (Float.rnd x)) as [Fl Fu].
    assert (H1 : inject_Z (Qfloor (Float.rnd x)) < inject_Z (k + 1)).
    { rewrite inject_Z_plus. change (inject_Z 1) with 1. unfold Float.u in *. lra. }
    assert (H2 : inject_Z (k - 2) < inject_Z (Qfloor (Float.rnd x))).
    { unfold Z.sub. rewrite inject_Z_plus, inject_Z_opp.
      change (inject_Z 2) with 2. unfold Float.u in *. lra. }
    rewrite <- Zlt_Qlt in H1, H2. lia.
Qed.

End MillisecondGrid.

(** ** narration/tts.py: the timing synthesizer, on exact rationals *)

Section TimingSynthesizer.

Local Open Scope Q_scope.

Lemma timestamps_loop_length (words : list string) (tpw c : Q) :
  length (TTS.timestamps_loop words tpw c) = length words.
Proof.
  revert c. induction words as [| w ws IH]; intros c; simpl; [| rewrite IH]; reflexivity.
Qed.

Lemma timestamps_loop_words (words : list string) (tpw c : Q) :
  map TTS.word (TTS.timestamps_loop words tpw c) = words.
Proof.
  revert c. induction words as [| w ws IH]; intros c; simpl; [| rewrite IH]; reflexivity.
Qed.

(** The running [current_time] of the loop is [c + i * tpw] at word [i]. *)
Lemma timestamps_loop_lookup (words : list string) (tpw c : Q) (i : nat)
    (w : TTS.WordTiming) :
  TTS.timestamps_loop words tpw c !! i = Some w ->
  let t := c + inject_Z (Z.of_nat i) * tpw in
  TTS.start w = Py.round t 3
  /\ TTS.end_ w = Py.round (t + tpw * (19 # 20)) 3
  /\ TTS.duration w = Py.round (tpw * (19 # 20)) 3.
Proof.
  revert c i. induction words as [| x ws IH]; intros c i; simpl.
  - intros H. destruct i; discriminate H.
  - destruct i as [| i]; simpl.
    + intros [= <-]. cbn [TTS.start TTS.end_ TTS.duration].
      change (inject_Z (Z.of_nat 0)) with 0.
      repeat split; apply round3_comp; lra.
    + intros H. destruct (IH _ _ H) as (Hs & He & Hd).
      assert (E : c + tpw + inject_Z (Z.of_nat i) * tpw
                  == c + inject_Z (Z.of_nat (S i)) * tpw).
      { rewrite Nat2Z.inj_succ. unfold Z.succ. rewrite inject_Z_plus.
        change (inject_Z 1) with 1. lra. }
      rewrite Hs, He, Hd. repeat split; apply round3_comp; rewrite E; reflexivity.
Qed.

Lemma generate_unfold (text : string) (d : option Q) :
  TTS._generate_dummy_timestamps text d =
  TTS.timestamps_loop (Py.split text)
    (match d with
     | None => Py.flen (Py.split text) / (5 # 2)
     | Some D => D
     end / Py.flen (Py.split text)) 0.
Proof.
  unfold TTS._generate_dummy_timestamps.
  destruct (Py.split text); reflexivity.
Qed.

Lemma slot_nonneg (D : Q) (words : list string) :
  0 <= D -> 0 <= D / Py.flen words.
Proof.
  intros HD. unfold Qdiv. apply Qmult_le_0_compat; [exact HD |].
  apply Qinv_le_0_compat. unfold Py.flen.
  change 0 with (inject_Z 0). rewrite <- Zle_Qle. lia.
Qed.

End TimingSynthesizer.

(** ** narration/tts.py: the timing synthesizer, on doubles *)

Section Timing64.
Local Open Scope Q_scope.

Lemma round64_nonneg (x : Q) : 0 <= x -> 0 <= Float.round x 3.
Proof.
  intros H. unfold Float.round. apply rnd_nonneg.
  assert (E : 0 == Py.round 0 3) by reflexivity.
  rewrite E. apply round3_mono. exact H.
Qed.

Lemma round64_nonpos (x : Q) : x <= 0 -> Float.round x 3 <= 0.
Proof.
  intros H. unfold Float.round. apply rnd_nonpos.
  assert (E : 0 == Py.round 0 3) by reflexivity.
  rewrite E. apply round3_mono. exact H.
Qed.

Lemma round64_mono (x y : Q) :
  0 <= x -> x <= y -> Float.round x 3 <= Float.round y 3.
Proof.
  intros H0 H. unfold Float.round. apply rnd_mono.
  - assert (E : 0 == Py.round 0 3) by reflexivity.
    rewrite E. apply round3_mono. exact H0.
  - apply round3_mono. exact H.
Qed.

Lemma c0_95_bounds : 0 <= TTS64.c0_95 /\ TTS64.c0_95 <= 19 # 20.
Proof. split; apply Qle_bool_iff; vm_compute; reflexivity. Qed.

Lemma loop64_length (words : list string) (tpw c : Q) :
  length (TTS64.timestamps_loop words tpw c) = length words.
Proof.
  revert c. induction words as [| w ws IH]; intros c; simpl; [| rewrite IH]; reflexivity.
Qed.

Lemma loop64_words (words : list string) (tpw c : Q) :
  map TTS.word (TTS64.timestamps_loop words tpw c) = words.
Proof.
  revert c. induction words as [| w ws IH]; intros c; simpl; [| rewrite IH]; reflexivity.
Qed.

(** The loop started at the time of word [k] reaches word [k + i] at the
    time of that word. *)
Lemma loop64_lookup (words : list string) (tpw : Q) (k i : nat)
    (w : TTS.WordTiming) :
  TTS64.timestamps_loop words tpw (TTS64.current_time_at tpw k) !! i = Some w ->
  let t := TTS64.current_time_at tpw (k + i) in
  let shown := Float.mul tpw TTS64.c0_95 in
  Some (TTS.word w) = words !! i
  /\ TTS.start w = Float.round t 3
  /\ TTS.end_ w = Float.round (Float.add t shown) 3
  /\ TTS.duration w = Float.round shown 3.
Proof.
  revert k i. induction words as [| x ws IH]; intros k i; cbn [TTS64.timestamps_loop].
  - intros H. destruct i; discriminate H.
  - destruct i as [| i].
    + intros [= <-]. rewrite Nat.add_0_r. repeat split.
    + change ((?a :: ?l) !! S i) with (l !! i).
      change (Float.add (TTS64.current_time_at tpw k) tpw)
        with (TTS64.current_time_at tpw (S k)).
      intros H. replace (k + S i)%nat with (S k + i)%nat by lia.
      exact (IH (S k) i H).
Qed.

Lemma generate64_unfold (text : string) (d : option Q) :
  TTS64._generate_dummy_timestamps text d =
  TTS64.timestamps_loop (Py.split text)
    (Float.div
       (match d with
        | None => Float.div (Float.of_int (Z.of_nat (length (Py.split text)))) (5 # 2)
        | Some D => D
        end)
       (Float.of_int (Z.of_nat (length (Py.split text)))))
    (TTS64.current_time_at
       (Float.div
          (match d with
           | None => Float.div (Float.of_int (Z.of_nat (length (Py.split text)))) (5 # 2)
           | Some D => D
           end)
          (Float.of_int (Z.of_nat (length (Py.split text))))) 0).
Proof.
  unfold TTS64._generate_dummy_timestamps.
  destruct (Py.split text); reflexivity.
Qed.

Lemma of_int_nonneg (n : Z) : (0 <= n)%Z -> 0 <= Float.of_int n.
Proof.
  intros H. apply rnd_nonneg. rewrite <- (Zle_Qle 0). exact H.
Qed.

Lemma div64_nonneg (x y : Q) : 0 <= x -> 0 <= y -> 0 <= Float.div x y.
Proof.
  intros Hx Hy. apply rnd_nonneg. unfold Qdiv.
  apply Qmult_le_0_compat; [exact Hx | apply Qinv_le_0_compat; exact Hy].
Qed.

Lemma div64_nonpos (x y : Q) : x <= 0 -> 0 <= y -> Float.div x y <= 0.
Proof.
  intros Hx Hy. apply rnd_nonpos. unfold Qdiv.
  assert (H : 0 <= (- x) * / y)
    by (apply Qmult_le_0_compat; [lra | apply Qinv_le_0_compat; exact Hy]).
  lra.
Qed.

Section Slot.

Variable slot : Q.
Hypothesis slot_nonneg : 0 <= slot.
Hypothesis slot_double : Float.is_double slot.

Lemma current_time_nonneg (i : nat) : 0 <= TTS64.current_time_at slot i.
Proof.
  destruct i as [| i]; cbn [TTS64.current_time_at]; [lra |].
  apply rnd_nonneg. induction i as [| i IH]; cbn [TTS64.current_time_at]; [lra |].
  pose proof (rnd_nonneg _ IH). unfold Float.add. lra.
Qed.

Lemma current_time_double (i : nat) : Float.is_double (TTS64.current_time_at slot i).
Proof.
  destruct i as [| i]; cbn [TTS64.current_time_at].
  - unfold Float.is_double. apply rnd_zero. reflexivity.
  - apply rnd_is_double. pose proof (current_time_nonneg i). lra.
Qed.

Lemma current_time_step (i : nat) :
  TTS64.current_time_at slot i <= TTS64.current_time_at slot (S i).
Proof.
  cbn [TTS64.current_time_at]. unfold Float.add.
  pose proof (current_time_nonneg i) as H0.
  pose proof (current_time_double i) as Hd. unfold Float.is_double in Hd.
  rewrite <- Hd at 1. apply rnd_mono; lra.
Qed.

Lemma shown_bounds :
  0 <= Float.mul slot TTS64.c0_95 /\ Float.mul slot TTS64.c0_95 <= slot.
Proof.
  destruct c0_95_bounds as [C0 C1]. unfold Float.mul. split.
  - apply rnd_nonneg. apply Qmult_le_0_compat; assumption.
  - unfold Float.is_double in slot_double. rewrite <- slot_double at 2.
    assert (H0 : 0 <= slot * TTS64.c0_95) by (apply Qmult_le_0_compat; assumption).
    apply rnd_mono; [exact H0 |].
    apply Qle_trans with (1 * slot); [| rewrite Qmult_1_l; apply Qle_refl].
    rewrite (Qmult_comm slot). apply Qmult_le_compat_r; lra.
Qed.

End Slot.

Lemma step_bound (s K c : Q) :
  0 <= s -> 0 <= K -> K * Float.u <= 1 ->
  c <= K * s * (1 + K * Float.u) ->
  (c + s) * (1 + Float.u) <= (K + 1) * s * (1 + (K + 1) * Float.u).
Proof.
  intros Hs HK HKu Hc. unfold Float.u in *.
  assert (E : (K + 1) * s * (1 + (K + 1) * (1 # 9007199254740992))
              - (K * s * (1 + K * (1 # 9007199254740992)) + s)
                * (1 + (1 # 9007199254740992))
              == s * (K * (1 # 9007199254740992))
                 * (1 - K * (1 # 9007199254740992))) by ring.
  assert (P : 0 <= s * (K * (1 # 9007199254740992))
                   * (1 - K * (1 # 9007199254740992))).
  { apply Qmult_le_0_compat; [apply Qmult_le_0_compat; [exact Hs | lra] | lra]. }
  assert (M : (c + s) * (1 + (1 # 9007199254740992))
              <= (K * s * (1 + K * (1 # 9007199254740992)) + s)
                 * (1 + (1 # 9007199254740992))).
  { apply Qmult_le_compat_r; lra. }
  lra.
Qed.

Lemma slots_bound (N : Q) :
  1 <= N -> N <= 16777216 ->
  (1 + Float.u) * (((N - 1) * (1 + (N - 1) * Float.u) + (19 # 20) * (1 + Float.u)) * (1 + Float.u)) <= N.
Proof.
  intros H1 H2. unfold Float.u.
  assert (Q2 : (N - 1) * (N - 1) <= 16777216 * (N - 1))
    by (apply Qmult_le_compat_r; lra).
  assert (Q0 : 0 <= (N - 1) * (N - 1))
    by (apply Qmult_le_0_compat; lra).
  set (q := (N - 1) * (N - 1)) in *.
  assert (E : (1 + (1 # 9007199254740992))
              * (((N - 1) * (1 + (N - 1) * (1 # 9007199254740992))
                  + (19 # 20) * (1 + (1 # 9007199254740992)))
                 * (1 + (1 # 9007199254740992)))
              == (1 + (1 # 9007199254740992)) * (1 + (1 # 9007199254740992))
                 * ((N - 1) + q * (1 # 9007199254740992)
                    + (19 # 20) * (1 + (1 # 9007199254740992))))
    by (unfold q; ring).
  rewrite E. clearbody q. lra.
Qed.

Lemma inject_S (k : nat) :
  inject_Z (Z.of_nat (S k)) == inject_Z (Z.of_nat k) + 1.
Proof.
  rewrite Nat2Z.inj_succ. unfold Z.succ. rewrite inject_Z_plus. reflexivity.
Qed.

Section Accumulation.

Variable slot : Q.
Hypothesis slot_normal : Float.pow2 (-1000) <= slot.

Lemma slot_pos : 0 < slot.
Proof. pose proof (pow2_pos (-1000)). lra. Qed.

Lemma pow2_1022_1000 : Float.pow2 (-1022) <= Float.pow2 (-1000).
Proof. apply pow2_le. lia. Qed.

(** The rounding errors of [k] additions add up to a factor of at most
    [1 + k * 2^-53]. *)
Lemma current_time_upper (k : nat) :
  (Z.of_nat k <= 16777216)%Z ->
  TTS64.current_time_at slot k
  <= inject_Z (Z.of_nat k) * slot * (1 + inject_Z (Z.of_nat k) * Float.u).
Proof.
  pose proof slot_pos as Hs. pose proof pow2_1022_1000 as Hp.
  induction k as [| k IH]; intros Hk.
  - cbn [TTS64.current_time_at]. change (inject_Z (Z.of_nat 0)) with 0. lra.
  - cbn [TTS64.current_time_at]. unfold Float.add.
    specialize (IH ltac:(lia)).
    pose proof (current_time_nonneg slot ltac:(lra) k) as H0.
    destruct (rnd_error (TTS64.current_time_at slot k + slot) ltac:(lra)) as [_ U].
    apply Qle_trans with (1 := U).
    assert (HK : 0 <= inject_Z (Z.of_nat k)) by (rewrite <- (Zle_Qle 0); lia).
    assert (HK1 : inject_Z (Z.of_nat k) <= 16777216).
    { change 16777216 with (inject_Z 16777216). rewrite <- Zle_Qle. lia. }
    rewrite inject_S. apply step_bound; [lra | exact HK | unfold Float.u; lra | exact IH].
Qed.

End Accumulation.

Lemma of_int_exact (n : Z) :
  (0 <= n < 2 ^ 53)%Z -> Float.of_int n == inject_Z n.
Proof.
  intros H. pose proof (grid_is_double n 0 H ltac:(lia)) as G.
  unfold Float.is_double in G. change (Float.pow2 0) with 1 in G.
  unfold Float.of_int.
  rewrite (rnd_comp (inject_Z n) (inject_Z n * 1)) by ring.
  rewrite G. ring.
Qed.

(** With at most [2^24] words and a duration of at least [2^-900] s, the
    end of the last word, before it is rounded to the millisecond, is at
    most the duration. *)
Lemma last_end_upper (D : Q) (n : nat) :
  (1 <= n)%nat -> (Z.of_nat n <= 16777216)%Z ->
  Float.pow2 (-900) <= D ->
  let slot := Float.div D (Float.of_int (Z.of_nat n)) in
  Float.add (TTS64.current_time_at slot (Init.Nat.pred n))
    (Float.mul slot TTS64.c0_95) <= D.
Proof.
  intros Hn1 Hn2 HD slot.
  set (N := inject_Z (Z.of_nat n)).
  assert (HN1 : 1 <= N).
  { unfold N. change 1 with (inject_Z 1). rewrite <- Zle_Qle. lia. }
  assert (HN2 : N <= 16777216).
  { unfold N. change 16777216 with (inject_Z 16777216). rewrite <- Zle_Qle. lia. }
  assert (Hof : Float.of_int (Z.of_nat n) == N) by (apply of_int_exact; lia).
  assert (HD0 : 0 < D) by (pose proof (pow2_pos (-900)); lra).
  assert (Hquot : Float.pow2 (-924) <= D / N).
  { apply Qle_shift_div_l; [lra |].
    apply Qle_trans with (Float.pow2 (-924) * 16777216).
    - apply Qmult_le_l; [apply pow2_pos | exact HN2].
    - change (Float.pow2 (-924) * 16777216) with (Float.pow2 (-924) * Float.pow2 24).
      rewrite <- pow2_add. exact HD. }
  assert (Hslot_eq : slot = Float.rnd (D / N)).
  { unfold slot, Float.div. apply rnd_comp. rewrite Hof. reflexivity. }
  assert (P924 : Float.pow2 (-1022) <= Float.pow2 (-924)) by (apply pow2_le; lia).
  destruct (rnd_error (D / N) ltac:(lra)) as [Ls Us]. rewrite <- Hslot_eq in Ls, Us.
  assert (Hsd : Float.is_double slot).
  { rewrite Hslot_eq. apply rnd_is_double.
    pose proof (pow2_pos (-924)). lra. }
  assert (Hsn : Float.pow2 (-1000) <= slot).
  { assert (G : Float.is_double (Float.pow2 (-1000))).
    { pose proof (grid_is_double 1 (-1000) ltac:(lia) ltac:(lia)) as G.
      unfold Float.is_double in *. change (inject_Z 1) with 1 in G.
      rewrite (rnd_comp _ (1 * Float.pow2 (-1000))) by ring. rewrite G. ring. }
    unfold Float.is_double in G. rewrite <- G, Hslot_eq.
    apply rnd_mono; [apply Qlt_le_weak, pow2_pos |].
    apply Qle_trans with (Float.pow2 (-924)); [apply pow2_le; lia | exact Hquot]. }
  pose proof (slot_pos slot Hsn) as Hs0.
  destruct c0_95_bounds as [C0 C1].
  (* the displayed time *)
  assert (Hc12 : 1 # 2 <= TTS64.c0_95)
    by (apply Qle_bool_iff; vm_compute; reflexivity).
  assert (Hprod : Float.pow2 (-1022) <= slot * TTS64.c0_95).
  { apply Qle_trans with (Float.pow2 (-1000) * (1 # 2)).
    - change (Float.pow2 (-1000) * (1 # 2))
        with (Float.pow2 (-1000) * Float.pow2 (-1)).
      rewrite <- pow2_add. apply pow2_le. lia.
    - apply Qle_trans with (slot * (1 # 2)).
      + apply Qmult_le_compat_r; lra.
      + apply Qmult_le_l; [exact Hs0 | exact Hc12]. }
  destruct (rnd_error (slot * TTS64.c0_95) Hprod) as [_ Uw].
  fold (Float.mul slot TTS64.c0_95) in Uw.
  set (wd := Float.mul slot TTS64.c0_95) in *.
  assert (Hwd0 : Float.pow2 (-1022) <= wd).
  { assert (G : Float.is_double (Float.pow2 (-1022))).
    { pose proof (grid_is_double 1 (-1022) ltac:(lia) ltac:(lia)) as G.
      unfold Float.is_double in *. change (inject_Z 1) with 1 in G.
      rewrite (rnd_comp _ (1 * Float.pow2 (-1022))) by ring. rewrite G. ring. }
    unfold Float.is_double in G. rewrite <- G. unfold wd, Float.mul.
    apply rnd_mono; [apply Qlt_le_weak, pow2_pos | exact Hprod]. }
  assert (Hwd1 : wd <= slot * (19 # 20) * (1 + Float.u)).
  { apply Qle_trans with (1 := Uw). apply Qmult_le_compat_r; [| unfold Float.u; lra].
    apply Qmult_le_l; [exact Hs0 | exact C1]. }
  (* the accumulated time *)
  set (k := Init.Nat.pred n).
  assert (HK : inject_Z (Z.of_nat k) == N - 1).
  { unfold k, N. rewrite Nat2Z.inj_pred by lia. unfold Z.pred.
    rewrite inject_Z_plus. reflexivity. }
  pose proof (current_time_upper slot Hsn k ltac:(unfold k; lia)) as Hcur.
  rewrite HK in Hcur.
  pose proof (current_time_nonneg slot ltac:(lra) k) as Hcur0.
  set (cur := TTS64.current_time_at slot k) in *.
  unfold Float.add.
  destruct (rnd_error (cur + wd) ltac:(lra)) as [_ U].
  apply Qle_trans with (1 := U).
  apply Qle_trans
    with (slot * (((N - 1) * (1 + (N - 1) * Float.u) + (19 # 20) * (1 + Float.u)) * (1 + Float.u))).
  { assert (E : slot * (((N - 1) * (1 + (N - 1) * Float.u) + (19 # 20) * (1 + Float.u)) * (1 + Float.u))
                == ((N - 1) * slot * (1 + (N - 1) * Float.u)
                    + slot * (19 # 20) * (1 + Float.u)) * (1 + Float.u)) by ring.
    rewrite E. apply Qmult_le_compat_r; [| unfold Float.u; lra].
    clear -Hcur Hwd1. lra. }
  pose proof (slots_bound N HN1 HN2) as HG.
  set (G := ((N - 1) * (1 + (N - 1) * Float.u) + (19 # 20) * (1 + Float.u)) * (1 + Float.u)) in *.
  assert (HG0 : 0 <= G).
  { unfold G. apply Qmult_le_0_compat; [| unfold Float.u; lra].
    assert (0 <= (N - 1) * (1 + (N - 1) * Float.u)).
    { apply Qmult_le_0_compat; [lra | unfold Float.u; lra]. }
    unfold Float.u in *. lra. }
  apply Qle_trans with (D / N * (1 + Float.u) * G).
  { apply Qmult_le_compat_r; [exact Us | exact HG0]. }
  assert (E : D / N * (1 + Float.u) * G == D / N * ((1 + Float.u) * G)) by ring.
  rewrite E.
  apply Qle_trans with (D / N * N).
  { apply Qmult_le_l; [| exact HG].
    apply Qlt_shift_div_l; lra. }
  assert (E2 : D / N * N == D) by (field; lra).
  rewrite E2. apply Qle_refl.
Qed.

Lemma round64_comp (x y : Q) : x == y -> Float.round x 3 = Float.round y 3.
Proof.
  intros E. unfold Float.round. rewrite (round3_comp x y E). reflexivity.
Qed.

Lemma one_is_double : Float.rnd 1 = 1.
Proof. vm_compute. reflexivity. Qed.

Lemma of_int_positive (n : nat) : (1 <= n)%nat -> 1 <= Float.of_int (Z.of_nat n).
Proof.
  intros H. unfold Float.of_int. rewrite <- one_is_double at 1.
  apply rnd_mono; [lra |]. change 1 with (inject_Z 1). rewrite <- Zle_Qle. lia.
Qed.

(** C1 (as amended): for every text and every total duration [D > 0],
    the timing synthesizer returns one entry per word of the text, in the
    order of the text. With [slot = D / word_count] (a float division)
    each word is shown for [round(slot * 0.95, 3)]; word [i] starts at
    [round(t_i, 3)] and ends at [round(t_i + slot * 0.95, 3)], where
    [t_i] is the running sum of [i] slots; no start is negative, no word
    ends before it starts, starts never decrease and a word ends no later
    than the next one starts. The last word ends no later than
    [round(t_n, 3)], the rounded end of its slot; for a text of at most
    [2^24] words and a duration of at least [2^-900] s it ends no later
    than [round(D, 3)], which is [D] itself when [D] is the double of a
    whole number of milliseconds. *)
Theorem C1_timing_synthesizer (text : string) (D : Q) :
  0 < D -> Float.in_range D ->
  let words := Py.split text in
  let n := length words in
  let slot := Float.div D (Float.of_int (Z.of_nat n)) in
  let shown := Float.mul slot TTS64.c0_95 in
  let ts := TTS64._generate_dummy_timestamps text (Some D) in
  length ts = n
  /\ map TTS.word ts = words
  /\ (forall (i : nat) (w : TTS.WordTiming), ts !! i = Some w ->
        TTS.start w = Float.round (TTS64.current_time_at slot i) 3
        /\ TTS.duration w = Float.round shown 3
        /\ TTS.end_ w
           = Float.round (Float.add (TTS64.current_time_at slot i) shown) 3
        /\ 0 <= TTS.start w /\ TTS.start w <= TTS.end_ w)
  /\ (forall (i : nat) (a b : TTS.WordTiming),
        ts !! i = Some a -> ts !! S i = Some b ->
        TTS.start a <= TTS.start b /\ TTS.end_ a <= TTS.start b)
  /\ (forall w : TTS.WordTiming, last ts = Some w ->
        TTS.end_ w <= Float.round (TTS64.current_time_at slot n) 3
        /\ ((Z.of_nat n <= 2 ^ 24)%Z -> Float.pow2 (-900) <= D ->
            TTS.end_ w <= Float.round D 3
            /\ forall k : Z, (0 <= k <= 2 ^ 50)%Z ->
                 D == Float.rnd (k # 1000) -> TTS.end_ w <= D)).
Proof.
  intros HD _ words n slot shown ts.
  assert (Hts : ts = TTS64.timestamps_loop words slot (TTS64.current_time_at slot 0))
    by apply generate64_unfold.
  assert (Hn0 : 0 <= Float.of_int (Z.of_nat n)) by (apply of_int_nonneg; lia).
  assert (Hslot : 0 <= slot) by (apply div64_nonneg; lra).
  assert (Hsd : Float.is_double slot).
  { apply rnd_is_double. unfold Qdiv.
    apply Qmult_le_0_compat; [lra | apply Qinv_le_0_compat; exact Hn0]. }
  destruct (shown_bounds slot Hslot Hsd) as [Hsh0 Hsh1]. fold shown in Hsh0, Hsh1.
  assert (Hcur0 : forall i, 0 <= TTS64.current_time_at slot i)
    by (intros i; apply current_time_nonneg; exact Hslot).
  assert (Hend0 : forall i,
            TTS64.current_time_at slot i
            <= Float.add (TTS64.current_time_at slot i) shown).
  { intros i. pose proof (current_time_double slot Hslot i) as Hd.
    unfold Float.is_double in Hd. rewrite <- Hd at 1. unfold Float.add.
    specialize (Hcur0 i). apply rnd_mono; lra. }
  assert (Hend1 : forall i,
            Float.add (TTS64.current_time_at slot i) shown
            <= TTS64.current_time_at slot (S i)).
  { intros i. cbn [TTS64.current_time_at]. unfold Float.add.
    specialize (Hcur0 i). apply rnd_mono; lra. }
  assert (Hlook : forall (i : nat) (w : TTS.WordTiming), ts !! i = Some w ->
        TTS.start w = Float.round (TTS64.current_time_at slot i) 3
        /\ TTS.duration w = Float.round shown 3
        /\ TTS.end_ w
           = Float.round (Float.add (TTS64.current_time_at slot i) shown) 3).
  { intros i w Hw. rewrite Hts in Hw.
    destruct (loop64_lookup _ _ 0 _ _ Hw) as (_ & Hs & He & Hd).
    cbn [Nat.add] in *. auto. }
  assert (Hlen : length ts = n) by (rewrite Hts; apply loop64_length).
  split; [exact Hlen |].
  split; [rewrite Hts; apply loop64_words |].
  split.
  { intros i w Hw. destruct (Hlook i w Hw) as (Hs & Hd & He).
    split; [exact Hs |]. split; [exact Hd |]. split; [exact He |].
    rewrite Hs, He. split.
    - apply round64_nonneg, Hcur0.
    - apply round64_mono; [apply Hcur0 | apply Hend0]. }
  split.
  { intros i a b Ha Hb.
    destruct (Hlook _ _ Ha) as (Hsa & _ & Hea).
    destruct (Hlook _ _ Hb) as (Hsb & _ & _).
    rewrite Hsa, Hea, Hsb. split.
    - apply round64_mono; [apply Hcur0 | apply current_time_step; exact Hslot].
    - apply round64_mono; [| apply Hend1].
      apply Qle_trans with (TTS64.current_time_at slot i); [apply Hcur0 | apply Hend0]. }
  intros w Hw. rewrite last_lookup, Hlen in Hw.
  destruct (Hlook _ _ Hw) as (_ & _ & He).
  assert (Hpos : (1 <= n)%nat).
  { apply lookup_lt_Some in Hw. lia. }
  assert (Hraw0 : 0 <= Float.add (TTS64.current_time_at slot (Init.Nat.pred n)) shown).
  { apply Qle_trans with (TTS64.current_time_at slot (Init.Nat.pred n));
      [apply Hcur0 | apply Hend0]. }
  split.
  { rewrite He. apply round64_mono; [exact Hraw0 |].
    replace n with (S (Init.Nat.pred n)) at 2 by lia. apply Hend1. }
  intros Hwords Hnormal.
  assert (Hraw : Float.add (TTS64.current_time_at slot (Init.Nat.pred n)) shown <= D).
  { apply (last_end_upper D n); [exact Hpos | lia | exact Hnormal]. }
  assert (Hround : TTS.end_ w <= Float.round D 3)
    by (rewrite He; apply round64_mono; assumption).
  split; [exact Hround |].
  intros k Hk Hgrid. rewrite (round64_comp _ _ Hgrid), round64_grid in Hround by exact Hk.
  rewrite Hgrid. exact Hround.
Qed.

(** C1, where the wording of the specification fails: with the one-word
    text ["a"] and the duration [0.0006], the only entry ends at [0.001],
    after the duration. *)
Lemma C1_last_end_exceeds_duration :
  TTS64._generate_dummy_timestamps "a" (Some (Float.rnd (6 # 10000)))
  = [ {| TTS.word := "a"; TTS.start := 0; TTS.end_ := Float.rnd (1 # 1000);
         TTS.duration := Float.rnd (1 # 1000) |} ]
  /\ ~ (Float.rnd (1 # 1000) <= Float.rnd (6 # 10000)).
Proof.
  split; [vm_compute; reflexivity |].
  intros H. apply Qle_bool_iff in H. vm_compute in H. discriminate H.
Qed.

Lemma C1_timing_synthesizer_witness :
  length (TTS64._generate_dummy_timestamps "Octopuses have three hearts." (Some 1))
  = 4%nat.
Proof.
  exact (proj1 (C1_timing_synthesizer "Octopuses have three hearts." 1 eq_refl
                  ltac:(apply Qle_bool_iff; vm_compute; reflexivity))).
Defined.

End Timing64.

Section DurationFallback.

Local Open Scope Q_scope.

Lemma current_time_nonpos (slot : Q) (i : nat) :
  slot <= 0 -> TTS64.current_time_at slot i <= 0.
Proof.
  intros Hs. induction i as [| i IH]; cbn [TTS64.current_time_at]; [lra |].
  apply rnd_nonpos. lra.
Qed.

Lemma quarter_is_double : Float.rnd (1 # 4) = 1 # 4.
Proof. vm_compute. reflexivity. Qed.

Lemma eighth_is_double : Float.rnd (1 # 8) = 1 # 8.
Proof. vm_compute. reflexivity. Qed.

Lemma eighth_rounded : 0 < Float.round (1 # 8) 3.
Proof. vm_compute. reflexivity. Qed.

Lemma c0_95_half : 1 # 2 <= TTS64.c0_95.
Proof. apply Qle_bool_iff. vm_compute. reflexivity. Qed.

(** The slot of the estimated duration is at least a quarter of a
    second, whatever the number of words. *)
Lemma estimated_slot (n : nat) :
  (1 <= n)%nat ->
  let N := Float.of_int (Z.of_nat n) in
  1 # 4 <= Float.div (Float.div N (5 # 2)) N.
Proof.
  intros Hn N. pose proof (of_int_positive n Hn) as HN. fold N in HN.
  pose proof millisecond_normal as Hm.
  destruct (rnd_error (N / (5 # 2))) as [L _].
  { assert (E : N / (5 # 2) == N * (2 # 5)) by (field; discriminate). rewrite E. lra. }
  fold (Float.div N (5 # 2)) in L.
  assert (E : N / (5 # 2) == N * (2 # 5)) by (field; discriminate).
  rewrite E in L. unfold Float.u in L.
  unfold Float.div at 1. rewrite <- quarter_is_double at 1.
  apply rnd_mono; [lra |].
  apply Qle_shift_div_l; lra.
Qed.

(** C2 (as amended): the estimated duration [word_count / 2.5] is used
    when no duration is given ([None]), and only then. A duration that is
    given is used as it is, whatever its sign: it fixes the start, the
    end and the duration of every entry; with a duration of zero or less
    no field of any entry is positive, whereas the estimate gives every
    entry a positive end and a positive duration. For a text without
    words (the empty text among them) the result is the empty list,
    whatever the duration argument. *)
Theorem C2_duration_fallback (text : string) :
  let n := Float.of_int (Z.of_nat (length (Py.split text))) in
  TTS64._generate_dummy_timestamps text None
  = TTS64._generate_dummy_timestamps text (Some (Float.div n (5 # 2)))
  /\ (forall (D : Q) (i : nat) (w : TTS.WordTiming),
        TTS64._generate_dummy_timestamps text (Some D) !! i = Some w ->
        let slot := Float.div D n in
        let shown := Float.mul slot TTS64.c0_95 in
        TTS.start w = Float.round (TTS64.current_time_at slot i) 3
        /\ TTS.end_ w
           = Float.round (Float.add (TTS64.current_time_at slot i) shown) 3
        /\ TTS.duration w = Float.round shown 3)
  /\ (forall (D : Q) (w : TTS.WordTiming),
        D <= 0 -> w ∈ TTS64._generate_dummy_timestamps text (Some D) ->
        TTS.start w <= 0 /\ TTS.end_ w <= 0 /\ TTS.duration w <= 0)
  /\ (forall w : TTS.WordTiming,
        w ∈ TTS64._generate_dummy_timestamps text None ->
        0 < TTS.end_ w /\ 0 < TTS.duration w)
  /\ (forall d : option Q,
        Py.split text = [] -> TTS64._generate_dummy_timestamps text d = [])
  /\ (forall d : option Q, TTS64._generate_dummy_timestamps "" d = []).
Proof.
  intros n.
  assert (Hn0 : 0 <= n) by (apply of_int_nonneg; lia).
  assert (Hlook : forall (d : option Q) (i : nat) (w : TTS.WordTiming),
            TTS64._generate_dummy_timestamps text d !! i = Some w ->
            let slot :=
              Float.div (match d with
                         | None => Float.div n (5 # 2)
                         | Some D => D
                         end) n in
            let shown := Float.mul slot TTS64.c0_95 in
            TTS.start w = Float.round (TTS64.current_time_at slot i) 3
            /\ TTS.end_ w
               = Float.round (Float.add (TTS64.current_time_at slot i) shown) 3
            /\ TTS.duration w = Float.round shown 3).
  { intros d i w Hw. rewrite generate64_unfold in Hw.
    destruct (loop64_lookup _ _ 0 _ _ Hw) as (_ & Hs & He & Hd).
    cbn [Nat.add] in *. auto. }
  split; [rewrite !generate64_unfold; reflexivity |].
  split; [intros D i w Hw; exact (Hlook (Some D) i w Hw) |].
  split.
  { intros D w HD Hw. apply list_elem_of_lookup in Hw as [i Hi].
    destruct (Hlook (Some D) i w Hi) as (Hs & He & Hd).
    cbv zeta in Hs, He, Hd.
    set (slot := Float.div D n) in *.
    assert (Hslot : slot <= 0) by (apply div64_nonpos; assumption).
    pose proof (current_time_nonpos slot i Hslot) as Hcur.
    destruct c0_95_bounds as [C0 _].
    assert (Hshown : Float.mul slot TTS64.c0_95 <= 0).
    { apply rnd_nonpos.
      assert (H : 0 <= (- slot) * TTS64.c0_95)
        by (apply Qmult_le_0_compat; lra).
      lra. }
    rewrite Hs, He, Hd. split; [| split].
    - apply round64_nonpos, Hcur.
    - apply round64_nonpos, rnd_nonpos. lra.
    - apply round64_nonpos, Hshown. }
  split.
  { intros w Hw. apply list_elem_of_lookup in Hw as [i Hi].
    assert (Hwords : (1 <= length (Py.split text))%nat).
    { apply lookup_lt_Some in Hi. rewrite generate64_unfold, loop64_length in Hi. lia. }
    destruct (Hlook None i w Hi) as (_ & He & Hd). cbv zeta in He, Hd.
    pose proof (estimated_slot _ Hwords) as Hslot. cbv zeta in Hslot. fold n in Hslot.
    set (slot := Float.div (Float.div n (5 # 2)) n) in *.
    pose proof c0_95_half as Hc.
    assert (Hshown : 1 # 8 <= Float.mul slot TTS64.c0_95).
    { unfold Float.mul. rewrite <- eighth_is_double at 1.
      apply rnd_mono; [lra |].
      apply Qle_trans with ((1 # 4) * TTS64.c0_95); [lra |].
      apply Qmult_le_compat_r; lra. }
    pose proof (current_time_nonneg slot ltac:(lra) i) as Hcur.
    assert (Hraw : 1 # 8
                   <= Float.add (TTS64.current_time_at slot i)
                        (Float.mul slot TTS64.c0_95)).
    { unfold Float.add. rewrite <- eighth_is_double at 1. apply rnd_mono; lra. }
    pose proof eighth_rounded as H8.
    rewrite He, Hd. split.
    - apply Qlt_le_trans with (1 := H8). apply round64_mono; [lra | exact Hraw].
    - apply Qlt_le_trans with (1 := H8). apply round64_mono; [lra | exact Hshown]. }
  split.
  - intros d E. unfold TTS64._generate_dummy_timestamps. rewrite E. reflexivity.
  - intros d. reflexivity.
Qed.

(** C2, where the wording of the specification fails: for the text ["a"]
    a duration of zero is not replaced by the estimate [1 / 2.5 = 0.4]
    (the word would then end at [0.38]), and a negative duration is used
    too. *)
Lemma C2_nonpositive_duration_is_used :
  TTS64._generate_dummy_timestamps "a" (Some 0)
  = [ {| TTS.word := "a"; TTS.start := 0; TTS.end_ := 0; TTS.duration := 0 |} ]
  /\ TTS64._generate_dummy_timestamps "a" (Some (-(1)))
     = [ {| TTS.word := "a"; TTS.start := 0;
            TTS.end_ := Float.rnd (- (95 # 100));
            TTS.duration := Float.rnd (- (95 # 100)) |} ]
  /\ TTS64._generate_dummy_timestamps "a" None
     = [ {| TTS.word := "a"; TTS.start := 0; TTS.end_ := Float.rnd (38 # 100);
            TTS.duration := Float.rnd (38 # 100) |} ].
Proof.
  repeat split; vm_compute; reflexivity.
Qed.

Lemma C2_duration_fallback_witness :
  TTS64._generate_dummy_timestamps "   " (Some 3) = [].
Proof.
  exact (proj1 (proj2 (proj2 (proj2 (proj2 (C2_duration_fallback "   ")))))
           (Some 3) eq_refl).
Defined.

End DurationFallback.

(** ** narration/tts.py: the speech backends *)

Section SpeechAdapter.

Variable edge_engine : string -> string -> TTS.synthesis.
Variable gtts_engine : string -> string -> TTS.synthesis.

Lemma fallback_tts_edge_ok (text output_path : string) (len_audio : Z) :
  edge_engine text output_path = TTS.Produces len_audio ->
  TTS._fallback_tts edge_engine gtts_engine text output_path
  = ([TTS.EdgeTTS],
     Some {| TTS.audio_path := output_path;
             TTS.audio_duration := (inject_Z len_audio / 1000)%Q;
             TTS.word_timestamps :=
               TTS._generate_dummy_timestamps text
                 (Some (inject_Z len_audio / 1000)%Q);
             TTS.sample_rate := 24000;
             TTS.fallback := true |}).
Proof.
  intros E. unfold TTS._fallback_tts, TTS._edge_tts. rewrite E. reflexivity.
Qed.

Lemma fallback_tts_edge_fails (text output_path : string) :
  edge_engine text output_path = TTS.Fails ->
  TTS._fallback_tts edge_engine gtts_engine text output_path
  = ([TTS.EdgeTTS; TTS.GTTS],
     match gtts_engine text output_path with
     | TTS.Fails => None
     | TTS.Produces len_audio =>
         Some {| TTS.audio_path := output_path;
                 TTS.audio_duration := (inject_Z len_audio / 1000)%Q;
                 TTS.word_timestamps :=
                   TTS._generate_dummy_timestamps text
                     (Some (inject_Z len_audio / 1000)%Q);
                 TTS.sample_rate := 24000;
                 TTS.fallback := true |}
     end).
Proof.
  intros E. unfold TTS._fallback_tts, TTS._edge_tts. rewrite E.
  destruct (gtts_engine text output_path); reflexivity.
Qed.

(** C3 (as amended): every call runs the Edge engine first and runs gTTS
    only after the Edge engine has failed (the log is [Edge] when Edge
    produced the audio and [Edge; gTTS] otherwise); the call has no result
    exactly when both engines fail; and every result carries
    [fallback = True], whichever of the two engines produced the audio. *)
Theorem C3_backend_order (text output_path : string) :
  let run := TTS._fallback_tts edge_engine gtts_engine text output_path in
  (exists rest, fst run = TTS.EdgeTTS :: rest)
  /\ (TTS.GTTS ∈ fst run <-> edge_engine text output_path = TTS.Fails)
  /\ (fst run = [TTS.EdgeTTS] \/ fst run = [TTS.EdgeTTS; TTS.GTTS])
  /\ (snd run = None <->
      edge_engine text output_path = TTS.Fails
      /\ gtts_engine text output_path = TTS.Fails)
  /\ (forall r : TTS.TTSResult, snd run = Some r -> TTS.fallback r = true).
Proof.
  intros run. subst run.
  destruct (edge_engine text output_path) as [| ms] eqn:E.
  - rewrite (fallback_tts_edge_fails _ _ E). cbn [fst snd].
    split; [eexists; reflexivity |].
    split; [split; [reflexivity | intros _; set_solver] |].
    split; [right; reflexivity |].
    destruct (gtts_engine text output_path) as [| ms'].
    + split; [split; [auto | intros _; reflexivity] | intros r H; discriminate H].
    + split; [split; [discriminate | intros [_ H]; discriminate H] |].
      intros r [= <-]. reflexivity.
  - rewrite (fallback_tts_edge_ok _ _ _ E). cbn [fst snd].
    split; [eexists; reflexivity |].
    split.
    { split; [| discriminate]. intros H. exfalso.
      apply list_elem_of_singleton in H. discriminate H. }
    split; [left; reflexivity |].
    split; [split; [discriminate | intros [H _]; discriminate H] |].
    intros r [= <-]. reflexivity.
Qed.

End SpeechAdapter.

Lemma C3_backend_order_witness :
  TTS.GTTS ∈ fst (TTS._fallback_tts (fun _ _ => TTS.Fails)
                     (fun _ _ => TTS.Produces 2000)
                     "Octopuses have three hearts." "narration.wav").
Proof.
  apply (proj1 (proj2 (C3_backend_order (fun _ _ => TTS.Fails)
                         (fun _ _ => TTS.Produces 2000)
                         "Octopuses have three hearts." "narration.wav"))).
  reflexivity.
Defined.

(** C3, where the wording of the specification fails: when the Edge engine (the
    first one tried) produces the audio, gTTS is never run and the result
    still reports [fallback = True]. *)
Lemma C3_primary_result_reports_fallback :
  let run :=
    TTS._fallback_tts (fun _ _ => TTS.Produces 1500) (fun _ _ => TTS.Fails)
      "Octopuses have three hearts." "narration.wav" in
  fst run = [TTS.EdgeTTS]
  /\ option_map TTS.fallback (snd run) = Some true
  /\ option_map TTS.audio_duration (snd run) = Some (1500 / 1000)%Q.
Proof.
  repeat split; reflexivity.
Qed.

(** ** video_assembly/assets.py: download with retries *)

Section DownloadRetries.

Variable fetch : string -> nat -> Assets.attempt_result.
Variable video_url : string.

Lemma range_pos (n : nat) : Py.range (Z.of_nat n) = map Z.of_nat (seq 0 n).
Proof. unfold Py.range. rewrite Nat2Z.id. reflexivity. Qed.

Lemma download_attempts_all_fail (file_path : string) :
  (forall k : nat, fetch video_url k = Assets.TransientError) ->
  forall (n a : nat) (st : Assets.net_state),
    Assets.download_attempts fetch (map Z.of_nat (seq a (S n)))
      (Z.of_nat (a + S n)) video_url file_path st
    = ({| Assets.fetch_calls := Assets.fetch_calls st + S n;
          Assets.slept :=
            Assets.slept st ++ map (fun k => 2 ^ Z.of_nat k)%Z (seq a n) |},
       Py.Return None).
Proof.
  intros Hfail. induction n as [| n IH]; intros a st.
  - cbn [seq map Assets.download_attempts]. rewrite Hfail.
    replace (Z.of_nat a <? Z.of_nat (a + 1) - 1)%Z with false
      by (symmetry; apply Z.ltb_ge; lia).
    cbn [Assets.fetch_calls Assets.slept].
    rewrite app_nil_r, Nat.add_1_r. reflexivity.
  - change (seq a (S (S n))) with (a :: seq (S a) (S n)).
    cbn [map Assets.download_attempts]. rewrite Hfail.
    replace (Z.of_nat a <? Z.of_nat (a + S (S n)) - 1)%Z with true
      by (symmetry; apply Z.ltb_lt; lia).
    replace (a + S (S n))%nat with (S a + S n)%nat by lia.
    rewrite IH. cbn [Assets.fetch_calls Assets.slept seq map].
    replace (S (Assets.fetch_calls st) + S n)%nat
      with (Assets.fetch_calls st + S (S n))%nat by lia.
    rewrite <- app_assoc. reflexivity.
Qed.

(** C4 (as amended): when every attempt ends in a transient I/O or HTTP
    error, [download_video] makes exactly [max_retries] requests (none when
    [max_retries <= 0]), sleeps [2^k] seconds after failed attempt [k] for
    [k = 0 .. max_retries - 2], so 1 s and 2 s for the default of three
    attempts, with no sleep after the last attempt, and returns [None];
    when the first two attempts fail and the third succeeds (and
    [max_retries >= 3]), it returns the path written, after exactly three
    requests and sleeps of 1 s and 2 s. *)
Theorem C4_download_retries (output_dir filename : option string)
    (max_retries : Z) :
  ((forall k : nat, fetch video_url k = Assets.TransientError) ->
   Assets.download_video fetch video_url output_dir filename max_retries
     {| Assets.fetch_calls := 0; Assets.slept := [] |}
   = ({| Assets.fetch_calls := Z.to_nat max_retries;
         Assets.slept := map (Z.pow 2) (Py.range (max_retries - 1)) |},
      Py.Return None))
  /\ (fetch video_url 0 = Assets.TransientError ->
      fetch video_url 1 = Assets.TransientError ->
      fetch video_url 2 = Assets.Saved ->
      (3 <= max_retries)%Z ->
      Assets.download_video fetch video_url output_dir filename max_retries
        {| Assets.fetch_calls := 0; Assets.slept := [] |}
      = ({| Assets.fetch_calls := 3; Assets.slept := [1; 2]%Z |},
         Py.Return (Some (Assets.target_path output_dir filename)))).
Proof.
  split.
  - intros Hfail. unfold Assets.download_video.
    destruct (Z.to_nat max_retries) as [| n] eqn:En.
    + unfold Py.range. rewrite En.
      replace (Z.to_nat (max_retries - 1)) with 0%nat by lia. reflexivity.
    + assert (Em : max_retries = Z.of_nat (S n)) by lia.
      subst max_retries. rewrite range_pos.
      pose proof (download_attempts_all_fail
                    (Py.path_join (default "." output_dir)
                       match filename with
                       | Some f => if Py.str_truthy f then f else "background.mp4"
                       | None => "background.mp4"
                       end) Hfail n 0%nat
                    {| Assets.fetch_calls := 0; Assets.slept := [] |}) as R.
      cbn [Nat.add Assets.fetch_calls Assets.slept app] in R. rewrite R.
      replace (Z.of_nat (S n) - 1)%Z with (Z.of_nat n) by lia.
      rewrite range_pos, map_map. reflexivity.
  - intros H0 H1 H2 Hm. unfold Assets.download_video. fold (Assets.target_path output_dir filename).
    unfold Py.range.
    destruct (Z.to_nat max_retries) as [| [| [| n]]] eqn:En; try lia.
    cbn [seq map Assets.download_attempts Assets.fetch_calls Assets.slept].
    rewrite H0.
    replace (Z.of_nat 0 <? max_retries - 1)%Z with true
      by (symmetry; apply Z.ltb_lt; lia).
    cbn [Assets.fetch_calls Assets.slept]. rewrite H1.
    replace (Z.of_nat 1 <? max_retries - 1)%Z with true
      by (symmetry; apply Z.ltb_lt; lia).
    cbn [Assets.fetch_calls Assets.slept]. rewrite H2. reflexivity.
Qed.

End DownloadRetries.

(** C4, where the wording of the specification fails: with the default of three
    attempts that all fail, the sleeps are 1 s and 2 s; there is no sleep
    of 4 s. *)
Lemma C4_three_attempts_two_sleeps :
  Assets.download_video (fun _ _ => Assets.TransientError)
    "https://videos.example/clip.mp4" None None 3
    {| Assets.fetch_calls := 0; Assets.slept := [] |}
  = ({| Assets.fetch_calls := 3; Assets.slept := [1; 2]%Z |}, Py.Return None)
  /\ [1; 2]%Z <> [1; 2; 4]%Z.
Proof.
  split; [reflexivity | discriminate].
Qed.

Lemma C4_download_retries_witness :
  Assets.download_video
    (fun _ k => if (k <? 2)%nat then Assets.TransientError else Assets.Saved)
    "https://videos.example/clip.mp4" (Some "out") None 3
    {| Assets.fetch_calls := 0; Assets.slept := [] |}
  = ({| Assets.fetch_calls := 3; Assets.slept := [1; 2]%Z |},
     Py.Return (Some "out/background.mp4")).
Proof.
  apply (proj2 (C4_download_retries
    (fun _ k => if (k <? 2)%nat then Assets.TransientError else Assets.Saved)
    "https://videos.example/clip.mp4" (Some "out") None 3));
    [reflexivity | reflexivity | reflexivity | lia].
Defined.

(** ** video_assembly/assets.py: candidate selection *)

Section Sorting.

Lemma insert_desc_perm (c : Assets.Candidate) (l : list Assets.Candidate) :
  Assets.insert_desc c l ≡ₚ c :: l.
Proof.
  induction l as [| d l IH]; simpl; [reflexivity |].
  destruct (Assets.duration d <=? Assets.duration c)%Z; [reflexivity |].
  rewrite IH. apply Permutation_swap.
Qed.

Lemma sort_desc_perm (l : list Assets.Candidate) : Assets.sort_desc l ≡ₚ l.
Proof.
  induction l as [| c l IH]; simpl; [reflexivity |].
  rewrite insert_desc_perm, IH. reflexivity.
Qed.

Lemma insert_desc_sorted (c : Assets.Candidate) (l : list Assets.Candidate) :
  StronglySorted Assets.longer_first l ->
  StronglySorted Assets.longer_first (Assets.insert_desc c l).
Proof.
  induction 1 as [| d l Hs IH Hd]; simpl.
  - repeat constructor.
  - destruct (Assets.duration d <=? Assets.duration c)%Z eqn:E.
    + apply Z.leb_le in E. constructor; [constructor; assumption |].
      constructor; [exact E |].
      eapply Forall_impl; [exact Hd |]. unfold Assets.longer_first. intros; lia.
    + apply Z.leb_gt in E. constructor; [exact IH |].
      rewrite insert_desc_perm. constructor; [| exact Hd].
      unfold Assets.longer_first. lia.
Qed.

Lemma sort_desc_sorted (l : list Assets.Candidate) :
  StronglySorted Assets.longer_first (Assets.sort_desc l).
Proof.
  induction l as [| c l IH]; simpl; [constructor |].
  apply insert_desc_sorted, IH.
Qed.

(** In a list sorted longest first, nothing beyond the first [n] entries
    is longer than one of the first [n]. *)
Lemma sorted_take_drop (n : nat) (l : list Assets.Candidate)
    (c d : Assets.Candidate) :
  StronglySorted Assets.longer_first l ->
  c ∈ take n l -> d ∈ drop n l -> Assets.longer_first c d.
Proof.
  intros Hs. revert n. induction Hs as [| x l Hs IH Hx]; intros n Hc Hd.
  - rewrite take_nil in Hc. inversion Hc.
  - destruct n as [| n]; simpl in *; [inversion Hc |].
    apply elem_of_cons in Hc as [-> | Hc].
    + rewrite Forall_forall in Hx. apply Hx.
      exact (subseteq_drop _ _ _ Hd).
    + eapply IH; eauto.
Qed.

End Sorting.

Section Selection.

Variable pexels_key pixabay_key : string.
Variable pexels_api pixabay_api : string -> option (list Assets.Video).

Abbreviation search_keyword :=
  (Assets.search_keyword pexels_key pixabay_key pexels_api pixabay_api).
Abbreviation pool := (Assets.pool pexels_key pixabay_key pexels_api pixabay_api).
Abbreviation pool_spec :=
  (Assets.pool_spec pexels_key pixabay_key pexels_api pixabay_api).
Abbreviation find_best_video :=
  (Assets.find_best_video pexels_key pixabay_key pexels_api pixabay_api).

Lemma search_keyword_step (source : string) (min_duration : Z)
    (log : list Assets.provider_query) (all : list Assets.Candidate)
    (keyword : string) :
  search_keyword source min_duration (log, all) keyword
  = (log ++ Assets.keyword_queries pexels_key pixabay_key source keyword,
     all ++ Assets.keyword_survivors pexels_key pixabay_key pexels_api
              pixabay_api source min_duration keyword).
Proof.
  unfold Assets.search_keyword, Assets.keyword_queries, Assets.keyword_survivors,
    Assets.pexels_enabled, Assets.pixabay_enabled,
    Assets.search_pexels_videos, Assets.search_pixabay_videos.
  destruct (String.eqb source "pexels" || String.eqb source "both");
    destruct (String.eqb source "pixabay" || String.eqb source "both");
    destruct (Py.str_truthy pexels_key); destruct (Py.str_truthy pixabay_key);
    cbn [andb]; rewrite ?app_nil_r, <- ?app_assoc; reflexivity.
Qed.

Lemma search_keywords_fold (source : string) (min_duration : Z)
    (kws : list string) (log : list Assets.provider_query)
    (all : list Assets.Candidate) :
  fold_left (search_keyword source min_duration) kws (log, all)
  = (log ++ flat_map (Assets.keyword_queries pexels_key pixabay_key source) kws,
     all ++ flat_map (Assets.keyword_survivors pexels_key pixabay_key
                        pexels_api pixabay_api source min_duration) kws).
Proof.
  revert log all. induction kws as [| kw kws IH]; intros log all.
  - cbn [fold_left flat_map]. rewrite !app_nil_r. reflexivity.
  - cbn [fold_left flat_map]. rewrite search_keyword_step, IH.
    rewrite <- !app_assoc. reflexivity.
Qed.

(** The loop of the code computes the pool of the specification. *)
Lemma pool_refines (keywords : list string) (source : string) (min_duration : Z) :
  pool keywords source min_duration = pool_spec keywords source min_duration.
Proof.
  unfold Assets.pool, Assets.pool_spec. apply search_keywords_fold.
Qed.

Lemma survivor_long_enough (source : string) (min_duration : Z)
    (keyword : string) (c : Assets.Candidate) :
  c ∈ Assets.keyword_survivors pexels_key pixabay_key pexels_api pixabay_api
        source min_duration keyword ->
  (min_duration <= Assets.duration c)%Z /\ Assets.keyword c = keyword.
Proof.
  unfold Assets.keyword_survivors. intros H.
  apply elem_of_app in H as [H | H].
  - destruct (Assets.pexels_enabled _ _); [| inversion H].
    apply list_elem_of_fmap in H as (v & -> & Hv).
    apply list_elem_of_In, filter_In in Hv as [_ Hv].
    unfold Assets.pexels_usable in Hv. apply andb_true_iff in Hv as [Hv _].
    apply Z.leb_le in Hv. split; [exact Hv | reflexivity].
  - destruct (Assets.pixabay_enabled _ _); [| inversion H].
    apply list_elem_of_fmap in H as (v & -> & Hv).
    apply list_elem_of_In, filter_In in Hv as [_ Hv].
    unfold Assets.pixabay_usable in Hv. apply andb_true_iff in Hv as [Hv _].
    apply Z.leb_le in Hv. split; [exact Hv | reflexivity].
Qed.

Lemma choice_lookup {A} (l : list A) (rnd : nat) :
  l <> [] ->
  Py.choice l rnd = l !! (rnd mod length l)%nat
  /\ exists x, Py.choice l rnd = Some x /\ x ∈ l.
Proof.
  intros Hne. destruct l as [| a l]; [congruence |].
  unfold Py.choice. split; [reflexivity |].
  destruct (lookup_lt_is_Some_2 (a :: l) (rnd mod length (a :: l))%nat) as [x Hx].
  { apply Nat.mod_upper_bound. simpl. lia. }
  exists x. split; [exact Hx |]. eapply list_elem_of_lookup_2, Hx.
Qed.

(** C5: [find_best_video] sends the first three keywords, and no other,
    to every enabled provider; it pools the hits of all providers and
    keywords whose duration is at least [min_duration] (and that carry
    files), so that no pooled candidate is shorter than [min_duration];
    it sorts the pool longest first and returns the element of the first
    five that the random draw designates (position [rnd mod len]), every
    one of these positions being open to the draw; there is no result
    only when the pool is empty. In the example of the specification
    (hits of durations 5, 20, 15, 30, 25 and 10, [min_duration = 10]) the
    result has, for every draw, one of the durations 30, 25, 20, 15, 10,
    and never 5. *)
Theorem C5_candidate_selection (keywords : list string) (source : string)
    (min_duration : Z) (rnd : nat) :
  let run := find_best_video keywords source min_duration rnd in
  let all := snd (pool keywords source min_duration) in
  let ranked := Assets.sort_desc all in
  let top := take 5 ranked in
  pool keywords source min_duration = pool_spec keywords source min_duration
  /\ fst run = fst (pool_spec keywords source min_duration)
  /\ (forall q, q ∈ fst run -> Assets.query_keyword q ∈ take 3 keywords)
  /\ (forall c, c ∈ all -> (min_duration <= Assets.duration c)%Z)
  /\ ranked ≡ₚ all
  /\ StronglySorted Assets.longer_first ranked
  /\ (forall c d, c ∈ top -> d ∈ drop 5 ranked ->
        (Assets.duration d <= Assets.duration c)%Z)
  /\ (all = [] -> snd run = None)
  /\ (all <> [] ->
        snd run = top !! (rnd mod length top)%nat
        /\ (exists c, snd run = Some c /\ c ∈ top /\ c ∈ all
                      /\ (min_duration <= Assets.duration c)%Z)
        /\ (forall i c, top !! i = Some c ->
               snd (find_best_video keywords source min_duration i) = Some c))
  /\ (forall r : nat, exists c,
        snd (Assets.find_best_video "key" "" (fun _ => Some Assets.example_hits)
               (fun _ => None) ["ocean"] "both" 10 r) = Some c
        /\ Assets.duration c ∈ [30; 25; 20; 15; 10]%Z
        /\ Assets.duration c <> 5%Z).
Proof.
  intros run all ranked top.
  assert (Hpool := pool_refines keywords source min_duration).
  assert (Hmin : forall c, c ∈ all -> (min_duration <= Assets.duration c)%Z).
  { intros c Hc. unfold all in Hc. rewrite Hpool in Hc. cbn [snd Assets.pool_spec] in Hc.
    apply list_elem_of_In, in_flat_map in Hc as (kw & _ & Hc).
    apply list_elem_of_In in Hc. eapply survivor_long_enough, Hc. }
  assert (Hrun : run = (fst (pool keywords source min_duration),
                        match all with
                        | [] => None
                        | _ :: _ => Py.choice top rnd
                        end)).
  { unfold run, Assets.find_best_video, top, ranked, all.
    destruct (pool keywords source min_duration) as [log [| c l]]; reflexivity. }
  assert (Htop : all <> [] -> top <> []).
  { intros Hne Htop. apply Hne.
    assert (Hr : ranked = []).
    { unfold top in Htop. destruct ranked; [reflexivity | discriminate Htop]. }
    apply Permutation_nil_r. rewrite <- Hr. symmetry. apply sort_desc_perm. }
  split; [exact Hpool |].
  split; [rewrite Hrun, Hpool; reflexivity |].
  split.
  { intros q Hq. rewrite Hrun, Hpool in Hq. cbn [fst Assets.pool_spec] in Hq.
    apply list_elem_of_In, in_flat_map in Hq as (kw & Hkw & Hq).
    apply list_elem_of_In in Hkw.
    unfold Assets.keyword_queries in Hq.
    apply in_app_or in Hq as [Hq | Hq];
      [destruct (Assets.pexels_enabled _ _) | destruct (Assets.pixabay_enabled _ _)];
      simpl in Hq; try tauto; destruct Hq as [<- | []]; exact Hkw. }
  split; [exact Hmin |].
  split; [apply sort_desc_perm |].
  split; [apply sort_desc_sorted |].
  split.
  { intros c d Hc Hd.
    exact (sorted_take_drop 5 ranked c d (sort_desc_sorted all) Hc Hd). }
  split; [intros E; rewrite Hrun, E; reflexivity |].
  split.
  { intros Hne.
    assert (Hsnd : forall i, snd (find_best_video keywords source min_duration i)
                             = Py.choice top i).
    { intros i. unfold Assets.find_best_video.
      fold all. destruct (pool keywords source min_duration) as [log l].
      cbn [snd] in all. subst all. destruct l; [congruence | reflexivity]. }
    destruct (choice_lookup top rnd (Htop Hne)) as [E (c & Hc & Hin)].
    fold run in Hsnd. split; [unfold run; rewrite Hsnd; exact E |].
    split.
    - exists c. split; [unfold run; rewrite Hsnd; exact Hc |].
      split; [exact Hin |].
      assert (Hall : c ∈ all).
      { rewrite <- (sort_desc_perm all). exact (subseteq_take 5 _ _ Hin). }
      split; [exact Hall | exact (Hmin _ Hall)].
    - intros i c' Hi. rewrite Hsnd.
      destruct (choice_lookup top i (Htop Hne)) as [E' _]. rewrite E'.
      rewrite Nat.mod_small; [exact Hi |]. eapply lookup_lt_Some, Hi. }
  intros r.
  assert (E : snd (Assets.find_best_video "key" "" (fun _ => Some Assets.example_hits)
                     (fun _ => None) ["ocean"] "both" 10 r)
              = map (fun d => Assets.wrap "pexels" "ocean" (Assets.example_hit d))
                  [30; 25; 20; 15; 10]%Z !! (r mod 5)%nat) by reflexivity.
  rewrite E. pose proof (Nat.mod_upper_bound r 5 ltac:(lia)) as Hb.
  destruct (r mod 5)%nat as [| [| [| [| [| k]]]]]; try lia;
    (eexists; split; [reflexivity |]; split;
     [apply list_elem_of_In; cbn; auto 10 | cbn; lia]).
Qed.

End Selection.

Lemma C5_candidate_selection_witness :
  snd (Assets.find_best_video "key" "" (fun _ => Some Assets.example_hits)
         (fun _ => None) ["ocean"; "reef"] "pexels" 10 7)
  = Some (Assets.wrap "pexels" "ocean" (Assets.example_hit 25)).
Proof.
  destruct (C5_candidate_selection "key" "" (fun _ => Some Assets.example_hits)
              (fun _ => None) ["ocean"; "reef"] "pexels" 10 7)
    as (_ & _ & _ & _ & _ & _ & _ & _ & H & _).
  exact (proj1 (H ltac:(discriminate))).
Defined.

(** ** video_assembly/assets.py: URL extraction *)

Section UrlExtraction.

(** A file whose sizes are numbers passes the comparison of the
    comprehension; a file with a [null] size makes it raise. *)
Lemma lt_sized (f : Assets.VideoFile) (w h : Z) :
  Assets.sizes f = Some (w, h) ->
  Assets.lt (Assets.get_width f) (Assets.get_height f) = Py.Return (w <? h)%Z
  /\ Assets.portrait f = (w <? h)%Z /\ Assets.width_of f = w.
Proof.
  unfold Assets.sizes, Assets.portrait, Assets.sizes, Assets.width_of.
  destruct (Assets.get_width f), (Assets.get_height f); intros [= <- <-] || intros [=];
    repeat split.
Qed.

Lemma lt_null (f : Assets.VideoFile) :
  Assets.sizes f = None ->
  Assets.lt (Assets.get_width f) (Assets.get_height f) = Py.Raise.
Proof.
  unfold Assets.sizes.
  destruct (Assets.get_width f), (Assets.get_height f); intros [=]; reflexivity.
Qed.

Lemma portrait_loop_sized (video_files : list Assets.VideoFile) :
  Forall (fun f => is_Some (Assets.sizes f)) video_files ->
  Assets.portrait_loop video_files
  = Py.Return (List.filter Assets.portrait video_files).
Proof.
  induction 1 as [| f fs [[w h] Hf] _ IH]; [reflexivity |].
  cbn [Assets.portrait_loop List.filter].
  destruct (lt_sized f w h Hf) as (-> & -> & _). rewrite IH. reflexivity.
Qed.

Lemma portrait_loop_null (video_files : list Assets.VideoFile)
    (f : Assets.VideoFile) :
  f ∈ video_files -> Assets.sizes f = None ->
  Assets.portrait_loop video_files = Py.Raise.
Proof.
  intros Hin Hf. induction video_files as [| g gs IH]; [inversion Hin |].
  cbn [Assets.portrait_loop].
  apply elem_of_cons in Hin as [<- | Hin].
  - rewrite (lt_null f Hf). reflexivity.
  - rewrite (IH Hin). destruct (Assets.lt _ _); reflexivity.
Qed.

Lemma max_by_width_spec (first : Assets.VideoFile) (others : list Assets.VideoFile) :
  Forall (fun f => is_Some (Assets.sizes f)) (first :: others) ->
  exists best : Assets.VideoFile,
    Assets.max_by_width first others = Py.Return best
    /\ best ∈ first :: others
    /\ forall f, f ∈ first :: others ->
         (Assets.width_of f <= Assets.width_of best)%Z.
Proof.
  revert first. induction others as [| g others IH]; intros first Hall.
  - exists first. cbn. split; [reflexivity |]. split; [left |]. intros f Hf.
    apply list_elem_of_singleton in Hf as ->. lia.
  - cbn [Assets.max_by_width].
    apply Forall_cons in Hall as [[[w h] Hfirst] Hrest].
    pose proof Hrest as Hrest'.
    apply Forall_cons in Hrest' as [[[w' h'] Hg] Hothers].
    assert (Hlt : Assets.lt (Assets.get_width first) (Assets.get_width g)
                  = Py.Return (Assets.width_of first <? Assets.width_of g)%Z).
    { clear -Hfirst Hg. unfold Assets.sizes, Assets.width_of in *.
      destruct (Assets.get_width first), (Assets.get_width g); try reflexivity.
      - destruct (Assets.get_height g); discriminate Hg.
      - discriminate Hfirst.
      - discriminate Hfirst. }
    rewrite Hlt.
    destruct (Assets.width_of first <? Assets.width_of g)%Z eqn:E.
    + apply Z.ltb_lt in E. destruct (IH g Hrest) as (best & Hbest & Hin & Hmax).
      exists best. split; [exact Hbest |]. split; [right; exact Hin |].
      intros f Hf. apply elem_of_cons in Hf as [-> | Hf].
      * specialize (Hmax g ltac:(left)). lia.
      * apply Hmax, Hf.
    + apply Z.ltb_ge in E.
      destruct (IH first ltac:(apply Forall_cons; split; [eauto | exact Hothers]))
        as (best & Hbest & Hin & Hmax).
      exists best. split; [exact Hbest |]. split.
      * apply elem_of_cons in Hin as [-> | Hin]; [left | right; right; exact Hin].
      * intros f Hf. apply elem_of_cons in Hf as [-> | Hf]; [apply Hmax; left |].
        apply elem_of_cons in Hf as [-> | Hf].
        -- specialize (Hmax first ltac:(left)). lia.
        -- apply Hmax. right. exact Hf.
Qed.

Lemma first_tier_preference (videos : gmap string (gmap string string)) :
  match Assets.first_tier videos ["medium"; "large"; "small"] with
  | Some url => url
  | None => None
  end
  = match Assets.tier videos "medium" with
    | Some info => info !! "url"
    | None =>
        match Assets.tier videos "large" with
        | Some info => info !! "url"
        | None =>
            match Assets.tier videos "small" with
            | Some info => info !! "url"
            | None => None
            end
        end
    end.
Proof.
  unfold Assets.tier. cbn [Assets.first_tier].
  destruct (videos !! "medium") as [m |];
    [destruct (bool_decide (m = ∅)); [| reflexivity] |];
    (destruct (videos !! "large") as [l |];
      [destruct (bool_decide (l = ∅)); [| reflexivity] |];
      (destruct (videos !! "small") as [sm |];
        [destruct (bool_decide (sm = ∅)); reflexivity | reflexivity])).
Qed.

(** C6, where the code misses what the specification says: a Pexels
    candidate one of whose files holds [null] for its width or its height
    gets no URL at all, whatever its other files are. The comparison of
    the comprehension raises [TypeError] at that file, and the [except]
    clause turns the exception into [None]. *)
Theorem C6_null_size_yields_no_url (video_data : Assets.Candidate)
    (f : Assets.VideoFile) :
  Assets.source video_data = "pexels" ->
  f ∈ default [] (Assets.video_files (Assets.data video_data)) ->
  Assets.sizes f = None ->
  Assets.get_video_url video_data = None.
Proof.
  intros Hsrc Hin Hf. unfold Assets.get_video_url. rewrite Hsrc.
  cbn [String.eqb Ascii.eqb Bool.eqb].
  rewrite (portrait_loop_null _ f Hin Hf). reflexivity.
Qed.

End UrlExtraction.

(** The failing input of C6: a hit with a streaming variant without sizes
    and a portrait file with a link. *)
Lemma C6_null_size_yields_no_url_witness :
  let stream :=
    {| Assets.width := Some Assets.Null; Assets.height := Some Assets.Null;
       Assets.link := Some "stream.m3u8" |} in
  let upright :=
    {| Assets.width := Some (Assets.Num 720); Assets.height := Some (Assets.Num 1280);
       Assets.link := Some "upright.mp4" |} in
  let hit :=
    {| Assets.v_duration := Some 12%Z;
       Assets.video_files := Some [stream; upright];
       Assets.videos := None |} in
  Assets.portrait upright = true
  /\ Assets.get_video_url (Assets.wrap "pexels" "ocean" hit) = None.
Proof.
  intros stream upright hit. split; [reflexivity |].
  apply (C6_null_size_yields_no_url (Assets.wrap "pexels" "ocean" hit) stream);
    [reflexivity | apply list_elem_of_In; left; reflexivity | reflexivity].
Defined.

(** ** video_assembly/editor.py *)

Section AudioMixer.

Variable TEMP_DIR : string.
Variable path_exists : string -> bool.
Variable ffmpeg : list string -> Editor.process.
Variable float_str : Q -> string.

(** C7: when no music track is given, or the given music path does not
    exist on disk, [mix_audio] returns the voice path itself (a result,
    not a failure) and hands no command to FFmpeg. *)
Theorem C7_mix_without_music (voice_path : string)
    (music_path output_path : option string) (voice_volume music_volume : Q) :
  music_path = None
  \/ (exists music, music_path = Some music /\ path_exists music = false) ->
  Editor.mix_audio TEMP_DIR path_exists ffmpeg float_str voice_path music_path
    output_path voice_volume music_volume
  = ([], Some voice_path).
Proof.
  intros [-> | (music & -> & Hmissing)]; unfold Editor.mix_audio.
  - reflexivity.
  - rewrite Hmissing. reflexivity.
Qed.

End AudioMixer.

Lemma C7_mix_without_music_witness :
  Editor.mix_audio "temp" (fun _ => false) (fun _ => Editor.Exited 0)
    (fun _ => "1.0") "narration.wav" (Some "music/track.mp3") None 1 (1 # 5)
  = ([], Some "narration.wav").
Proof.
  apply (C7_mix_without_music "temp" (fun _ => false) (fun _ => Editor.Exited 0)
           (fun _ => "1.0") "narration.wav" (Some "music/track.mp3") None 1 (1 # 5)).
  right. exists "music/track.mp3". split; reflexivity.
Defined.

Section CaptionRenderer.

Variable TEMP_DIR : string.
Variable str_upper : string -> string.
Variable to_ass : Editor.SSAFile -> string.
Variable can_write : string -> bool.

Lemma append_words_events (word_timestamps : list TTS.WordTiming)
    (subs : Editor.SSAFile) :
  fold_left (Editor.append_word str_upper) word_timestamps subs
  = {| Editor.styles := Editor.styles subs;
       Editor.events :=
         Editor.events subs
         ++ map (Editor.caption_event str_upper) word_timestamps |}.
Proof.
  revert subs. induction word_timestamps as [| w ws IH]; intros subs.
  - cbn. rewrite app_nil_r. destruct subs; reflexivity.
  - cbn [fold_left map]. rewrite IH. cbn [Editor.append_word Editor.styles Editor.events].
    rewrite <- app_assoc. reflexivity.
Qed.


End CaptionRenderer.



(** ** publishing/scheduler.py *)

Section QueueStatus.

Variable clock : nat -> Z.
Variable disk_writable : bool.

Abbreviation mark_uploaded := (Scheduler.mark_uploaded clock disk_writable).
Abbreviation mark_failed := (Scheduler.mark_failed clock disk_writable).

Lemma save_queue_queue (st : Scheduler.state) :
  Scheduler.queue (fst (Scheduler._save_queue disk_writable st))
  = Scheduler.queue st.
Proof. unfold Scheduler._save_queue. destruct disk_writable; reflexivity. Qed.

(** The loop of the [mark_] methods rewrites the first entry of the given
    id, in place. *)
Lemma update_first_insert (video_id : string)
    (f : Scheduler.QueueEntry -> Scheduler.QueueEntry)
    (q : list Scheduler.QueueEntry) :
  Scheduler.update_first video_id f q
  = match Scheduler.find_first video_id q with
    | Some i =>
        match q !! i with
        | Some video => Some (<[i := f video]> q)
        | None => None
        end
    | None => None
    end.
Proof.
  induction q as [| v q IH]; cbn [Scheduler.update_first Scheduler.find_first];
    [reflexivity |].
  destruct (String.eqb (Scheduler.id v) video_id); [reflexivity |].
  rewrite IH. destruct (Scheduler.find_first video_id q) as [i |]; [| reflexivity].
  cbn [option_map]. change ((v :: q) !! S i) with (q !! i).
  destruct (q !! i); reflexivity.
Qed.

Lemma find_first_Some (video_id : string) (q : list Scheduler.QueueEntry) (i : nat) :
  Scheduler.find_first video_id q = Some i ->
  (exists video, q !! i = Some video /\ Scheduler.id video = video_id)
  /\ forall j w, (j < i)%nat -> q !! j = Some w -> Scheduler.id w <> video_id.
Proof.
  revert i. induction q as [| v q IH]; intros i; cbn [Scheduler.find_first];
    [discriminate |].
  destruct (String.eqb_spec (Scheduler.id v) video_id) as [E | NE].
  - intros [= <-]. split; [exists v; auto | intros j w Hj; lia].
  - destruct (Scheduler.find_first video_id q) as [k |]; [| discriminate].
    intros [= <-]. destruct (IH k eq_refl) as [Hk Hbefore]. split; [exact Hk |].
    intros [| j] w Hj Hw.
    + injection Hw as <-. exact NE.
    + apply (Hbefore j w); [lia | exact Hw].
Qed.

Lemma find_first_None (video_id : string) (q : list Scheduler.QueueEntry) :
  Scheduler.find_first video_id q = None <->
  forall video, video ∈ q -> Scheduler.id video <> video_id.
Proof.
  induction q as [| v q IH]; cbn [Scheduler.find_first].
  - split; [intros _ w Hw; inversion Hw | reflexivity].
  - destruct (String.eqb_spec (Scheduler.id v) video_id) as [E | NE].
    + split; [discriminate |]. intros H. exfalso. apply (H v); [left | exact E].
    + destruct (Scheduler.find_first video_id q) as [k |]; cbn [option_map].
      * split; [discriminate |]. intros H. exfalso.
        assert (Hk : Some k = None); [| discriminate Hk].
        apply IH. intros w Hw. apply H. right. exact Hw.
      * split; [| reflexivity]. intros _ w Hw.
        apply elem_of_cons in Hw as [-> | Hw]; [exact NE |].
        apply (proj1 IH eq_refl w Hw).
Qed.

(** Rewriting an entry without touching its id leaves the first entry of
    every id where it was. *)
Lemma find_first_insert (video_id : string) (q : list Scheduler.QueueEntry)
    (i : nat) (v : Scheduler.QueueEntry) (other : string) :
  q !! i = Some v ->
  forall v', Scheduler.id v' = Scheduler.id v ->
  Scheduler.find_first other (<[i := v']> q) = Scheduler.find_first other q.
Proof.
  revert i. induction q as [| x q IH]; intros i Hi v' Hid; [reflexivity |].
  destruct i as [| i].
  - injection Hi as ->. change (<[0%nat := v']> (v :: q)) with (v' :: q).
    cbn [Scheduler.find_first]. rewrite Hid. reflexivity.
  - change (<[S i := v']> (x :: q)) with (x :: <[i := v']> q).
    cbn [Scheduler.find_first]. rewrite (IH i Hi v' Hid). reflexivity.
Qed.

Lemma mark_uploaded_found (video_id youtube : string) (st : Scheduler.state)
    (i : nat) :
  Scheduler.find_first video_id (Scheduler.queue st) = Some i ->
  exists video,
    Scheduler.queue st !! i = Some video
    /\ Scheduler.id video = video_id
    /\ snd (mark_uploaded video_id youtube st) = true
    /\ Scheduler.queue (fst (mark_uploaded video_id youtube st))
       = <[i := Scheduler.set_uploaded youtube
                  (clock (Scheduler.clock_reads st)) video]> (Scheduler.queue st).
Proof.
  intros Hi. destruct (find_first_Some _ _ _ Hi) as [(video & Hv & Hid) _].
  exists video. unfold Scheduler.mark_uploaded.
  rewrite update_first_insert, Hi, Hv. cbn [snd fst].
  rewrite save_queue_queue. auto.
Qed.

Lemma mark_failed_found (video_id err : string) (st : Scheduler.state) (i : nat) :
  Scheduler.find_first video_id (Scheduler.queue st) = Some i ->
  exists video,
    Scheduler.queue st !! i = Some video
    /\ Scheduler.id video = video_id
    /\ snd (mark_failed video_id err st) = true
    /\ Scheduler.queue (fst (mark_failed video_id err st))
       = <[i := Scheduler.set_failed err
                  (clock (Scheduler.clock_reads st)) video]> (Scheduler.queue st).
Proof.
  intros Hi. destruct (find_first_Some _ _ _ Hi) as [(video & Hv & Hid) _].
  exists video. unfold Scheduler.mark_failed.
  rewrite update_first_insert, Hi, Hv. cbn [snd fst].
  rewrite save_queue_queue. auto.
Qed.

Lemma statuses_insert (q : list Scheduler.QueueEntry) (i : nat)
    (v : Scheduler.QueueEntry) :
  Scheduler.status <$> <[i := v]> q
  = <[i := Scheduler.status v]> (Scheduler.status <$> q).
Proof. apply list_fmap_insert. Qed.

(** C8 (as amended): [mark_uploaded] and [mark_failed] look for the first
    entry of the given id; when there is none they return [False] and
    change nothing; otherwise they return [True] and set the status of
    that entry, and of no other, to ['uploaded'], respectively ['failed'],
    whatever the status was. So a second [mark_uploaded] for the same id
    succeeds again and leaves every status as it is, but the two statuses
    are not terminal: [mark_failed] moves an uploaded entry to ['failed']
    and [mark_uploaded] moves a failed entry to ['uploaded']. *)
Theorem C8_status_transitions (video_id youtube youtube2 err : string)
    (st : Scheduler.state) :
  let statuses := fun s => Scheduler.status <$> Scheduler.queue s in
  let st1 := fst (mark_uploaded video_id youtube st) in
  let st2 := fst (mark_failed video_id err st) in
  match Scheduler.find_first video_id (Scheduler.queue st) with
  | None =>
      mark_uploaded video_id youtube st = (st, false)
      /\ mark_failed video_id err st = (st, false)
  | Some i =>
      (exists video,
         Scheduler.queue st !! i = Some video
         /\ Scheduler.id video = video_id
         /\ Scheduler.queue st1
            = <[i := Scheduler.set_uploaded youtube
                       (clock (Scheduler.clock_reads st)) video]>
                (Scheduler.queue st)
         /\ Scheduler.queue st2
            = <[i := Scheduler.set_failed err
                       (clock (Scheduler.clock_reads st)) video]>
                (Scheduler.queue st))
      /\ snd (mark_uploaded video_id youtube st) = true
      /\ snd (mark_failed video_id err st) = true
      /\ statuses st1 = <[i := "uploaded"]> (statuses st)
      /\ statuses st2 = <[i := "failed"]> (statuses st)
      /\ snd (mark_uploaded video_id youtube2 st1) = true
      /\ statuses (fst (mark_uploaded video_id youtube2 st1)) = statuses st1
      /\ snd (mark_failed video_id err st1) = true
      /\ statuses (fst (mark_failed video_id err st1))
         = <[i := "failed"]> (statuses st)
      /\ statuses (fst (mark_uploaded video_id youtube st2))
         = <[i := "uploaded"]> (statuses st)
  end.
Proof.
  intros statuses st1 st2.
  destruct (Scheduler.find_first video_id (Scheduler.queue st)) as [i |] eqn:Hi.
  - destruct (mark_uploaded_found video_id youtube st i Hi)
      as (video & Hv & Hid & Hr1 & Hq1).
    destruct (mark_failed_found video_id err st i Hi)
      as (video' & Hv' & _ & Hr2 & Hq2).
    assert (video' = video) by congruence. subst video'.
    fold st1 in Hq1. fold st2 in Hq2.
    assert (Hlt : (i < length (Scheduler.queue st))%nat)
      by (eapply lookup_lt_Some, Hv).
    assert (Hs1 : statuses st1 = <[i := "uploaded"]> (statuses st)).
    { unfold statuses. rewrite Hq1, statuses_insert. reflexivity. }
    assert (Hs2 : statuses st2 = <[i := "failed"]> (statuses st)).
    { unfold statuses. rewrite Hq2, statuses_insert. reflexivity. }
    assert (Hi1 : Scheduler.find_first video_id (Scheduler.queue st1) = Some i).
    { rewrite Hq1, (find_first_insert video_id _ _ _ _ Hv); [exact Hi | reflexivity]. }
    assert (Hi2 : Scheduler.find_first video_id (Scheduler.queue st2) = Some i).
    { rewrite Hq2, (find_first_insert video_id _ _ _ _ Hv); [exact Hi | reflexivity]. }
    destruct (mark_uploaded_found video_id youtube2 st1 i Hi1)
      as (v1 & _ & _ & Hr11 & Hq11).
    destruct (mark_failed_found video_id err st1 i Hi1)
      as (v1' & _ & _ & Hr12 & Hq12).
    destruct (mark_uploaded_found video_id youtube st2 i Hi2)
      as (v2 & _ & _ & _ & Hq21).
    split; [exists video; auto |].
    split; [exact Hr1 |]. split; [exact Hr2 |].
    split; [exact Hs1 |]. split; [exact Hs2 |].
    split; [exact Hr11 |].
    split.
    { unfold statuses at 1. rewrite Hq11, statuses_insert.
      fold (statuses st1). rewrite Hs1. apply list_insert_insert_eq. }
    split; [exact Hr12 |].
    split.
    { unfold statuses at 1. rewrite Hq12, statuses_insert.
      fold (statuses st1). rewrite Hs1. apply list_insert_insert_eq. }
    unfold statuses at 1. rewrite Hq21, statuses_insert.
    fold (statuses st2). rewrite Hs2. apply list_insert_insert_eq.
  - unfold Scheduler.mark_uploaded, Scheduler.mark_failed.
    rewrite !update_first_insert, Hi. split; reflexivity.
Qed.

End QueueStatus.

Lemma C8_status_transitions_witness :
  let clock := fun k : nat => (1700000000000000 + Z.of_nat k)%Z in
  let st0 := {| Scheduler.queue :=
                  [Scheduler.example_entry "1" "pending";
                   Scheduler.example_entry "2" "pending"];
                Scheduler.queue_file := None;
                Scheduler.clock_reads := 0 |} in
  Scheduler.status
    <$> Scheduler.queue (fst (Scheduler.mark_uploaded clock true "2" "yt42" st0))
  = ["pending"; "uploaded"].
Proof.
  intros clock st0.
  pose proof (C8_status_transitions clock true "2" "yt42" "yt43" "quota" st0) as H.
  cbn [Scheduler.find_first Scheduler.queue st0 Scheduler.example_entry
       Scheduler.id String.eqb Ascii.eqb Bool.eqb option_map] in H.
  destruct H as (_ & _ & _ & H & _).
  exact H.
Defined.

(** C8, where the wording of the specification fails: an entry that
    [mark_uploaded] has set to ['uploaded'] is moved to ['failed'] by a
    later [mark_failed] for the same id. *)
Lemma C8_uploaded_then_failed :
  let clock := fun k : nat => (1700000000000000 + Z.of_nat k)%Z in
  let st0 := {| Scheduler.queue := [Scheduler.example_entry "1700000000000" "pending"];
                Scheduler.queue_file := None;
                Scheduler.clock_reads := 0 |} in
  let (st1, ok1) := Scheduler.mark_uploaded clock true "1700000000000" "yt42" st0 in
  let (st2, ok2) := Scheduler.mark_failed clock true "1700000000000" "quota" st1 in
  ok1 = true
  /\ Scheduler.status <$> Scheduler.queue st1 = ["uploaded"]
  /\ ok2 = true
  /\ Scheduler.status <$> Scheduler.queue st2 = ["failed"].
Proof.
  repeat split; reflexivity.
Qed.

Section Purge.

Variable clock : nat -> Z.
Variable disk_writable : bool.

Lemma purge_filter (cutoff : Z) (q : list Scheduler.QueueEntry) (reads : nat) :
  (forall k : nat, (reads <= k)%nat -> (cutoff <= clock k)%Z) ->
  fst (Scheduler.purge clock q cutoff reads)
  = List.filter (fun video => negb (Scheduler.purgeable cutoff video)) q.
Proof.
  revert reads. induction q as [| v q IH]; intros reads Hclock; [reflexivity |].
  cbn [Scheduler.purge List.filter]. unfold Scheduler.purgeable at 1.
  destruct (String.eqb (Scheduler.status v) "uploaded").
  - specialize (IH (S reads) ltac:(intros k Hk; apply Hclock; lia)).
    destruct (Scheduler.purge clock q cutoff (S reads)) as [kept reads'].
    cbn [fst] in IH. cbn [andb]. destruct (Scheduler.uploaded_at v) as [t |].
    + cbn [from_option id]. destruct (t <? cutoff)%Z; cbn [negb fst]; rewrite IH; reflexivity.
    + cbn [from_option id negb].
      replace (clock reads <? cutoff)%Z with false
        by (symmetry; apply Z.ltb_ge, Hclock; lia).
      cbn [fst]. rewrite IH. reflexivity.
  - specialize (IH reads Hclock).
    destruct (Scheduler.purge clock q cutoff reads) as [kept reads'].
    cbn [fst] in IH. cbn [andb negb fst]. rewrite IH. reflexivity.
Qed.

(** Whatever the clock does, an entry that is not ['uploaded'] stays. *)
Lemma purge_keeps_others (cutoff : Z) (q : list Scheduler.QueueEntry) (reads : nat) :
  List.filter (fun video => negb (String.eqb (Scheduler.status video) "uploaded"))
    (fst (Scheduler.purge clock q cutoff reads))
  = List.filter (fun video => negb (String.eqb (Scheduler.status video) "uploaded")) q.
Proof.
  revert reads. induction q as [| v q IH]; intros reads; [reflexivity |].
  cbn [Scheduler.purge List.filter].
  destruct (String.eqb (Scheduler.status v) "uploaded") eqn:E.
  - specialize (IH (S reads)).
    destruct (Scheduler.purge clock q cutoff (S reads)) as [kept reads'].
    cbn [fst negb] in *.
    destruct (_ <? cutoff)%Z; cbn [fst List.filter]; rewrite ?E; exact IH.
  - specialize (IH reads).
    destruct (Scheduler.purge clock q cutoff reads) as [kept reads'].
    cbn [fst negb List.filter] in *. rewrite E. cbn [negb]. rewrite IH. reflexivity.
Qed.

Lemma clear_completed_queue (older_than_days : Z) (st : Scheduler.state) :
  Scheduler.queue (fst (Scheduler.clear_completed clock disk_writable
                          older_than_days st))
  = fst (Scheduler.purge clock (Scheduler.queue st)
           (clock (Scheduler.clock_reads st)
            - Scheduler.timedelta_days older_than_days)
           (S (Scheduler.clock_reads st))).
Proof.
  unfold Scheduler.clear_completed.
  destruct (Scheduler.purge clock _ _ _) as [kept reads].
  destruct (0 <? _)%Z; cbn [fst]; [rewrite save_queue_queue |]; reflexivity.
Qed.

(** C10 (as amended): with a clock that does not run backwards and a
    retention of [older_than_days >= 0] days, [clear_completed] removes
    exactly the entries whose status is ['uploaded'] and whose
    ['uploaded_at'] is before the cutoff [now - older_than_days], and
    returns their number; every other entry (pending, failed whatever its
    age, uploaded since the cutoff or without an upload time) stays in
    the queue, unchanged and in the same order. *)
Theorem C10_purge_uploaded (older_than_days : Z) (st : Scheduler.state) :
  (forall k : nat, (clock k <= clock (S k))%Z) ->
  (0 <= older_than_days)%Z ->
  let cutoff := (clock (Scheduler.clock_reads st)
                 - Scheduler.timedelta_days older_than_days)%Z in
  let run := Scheduler.clear_completed clock disk_writable older_than_days st in
  Scheduler.queue (fst run)
  = List.filter (fun video => negb (Scheduler.purgeable cutoff video))
      (Scheduler.queue st)
  /\ snd run
     = Z.of_nat (length (List.filter (Scheduler.purgeable cutoff)
                           (Scheduler.queue st)))
  /\ List.filter
       (fun video => negb (String.eqb (Scheduler.status video) "uploaded"))
       (Scheduler.queue (fst run))
     = List.filter
         (fun video => negb (String.eqb (Scheduler.status video) "uploaded"))
         (Scheduler.queue st).
Proof.
  intros Hmono Hdays cutoff run.
  assert (Hclock : forall k, (S (Scheduler.clock_reads st) <= k)%nat ->
                             (cutoff <= clock k)%Z).
  { intros k Hk.
    assert (Hge : forall n m, (clock n <= clock (n + m))%Z).
    { intros n m. induction m as [| m IHm]; [rewrite Nat.add_0_r; lia |].
      rewrite Nat.add_succ_r. specialize (Hmono (n + m)%nat). lia. }
    specialize (Hge (Scheduler.clock_reads st) (k - Scheduler.clock_reads st)%nat).
    replace (Scheduler.clock_reads st + (k - Scheduler.clock_reads st))%nat
      with k in Hge by lia.
    unfold cutoff, Scheduler.timedelta_days. lia. }
  assert (Hq : Scheduler.queue (fst run)
               = List.filter (fun video => negb (Scheduler.purgeable cutoff video))
                   (Scheduler.queue st)).
  { unfold run. rewrite clear_completed_queue. apply purge_filter, Hclock. }
  split; [exact Hq |].
  split.
  - assert (Hsnd : snd run = (Z.of_nat (length (Scheduler.queue st))
                              - Z.of_nat (length (Scheduler.queue (fst run))))%Z).
    { unfold run. rewrite clear_completed_queue. unfold Scheduler.clear_completed.
      fold cutoff. destruct (Scheduler.purge clock _ _ _) as [kept reads].
      destruct (0 <? _)%Z; reflexivity. }
    rewrite Hsnd, Hq.
    pose proof (List.filter_length (Scheduler.purgeable cutoff) (Scheduler.queue st)).
    lia.
  - unfold run. rewrite clear_completed_queue. apply purge_keeps_others.
Qed.

End Purge.

(** C10, where the wording of the specification fails: an entry that failed a
    hundred days ago survives a purge with a retention of seven days. *)
Lemma C10_old_failed_entry_is_kept :
  let day := 86400000000%Z in
  let clock := fun k : nat => (100 * day + Z.of_nat k)%Z in
  let old_failed :=
    Scheduler.set_failed "quota" 0 (Scheduler.example_entry "17" "pending") in
  let st := {| Scheduler.queue := [old_failed];
               Scheduler.queue_file := None;
               Scheduler.clock_reads := 0 |} in
  Scheduler.status old_failed = "failed"
  /\ Scheduler.failed_at old_failed = Some 0%Z
  /\ Scheduler.queue (fst (Scheduler.clear_completed clock true 7 st))
     = [old_failed]
  /\ snd (Scheduler.clear_completed clock true 7 st) = 0%Z.
Proof.
  repeat split; reflexivity.
Qed.

Lemma C10_purge_uploaded_witness :
  let day := 86400000000%Z in
  let clock := fun k : nat => (100 * day + Z.of_nat k)%Z in
  let old_upload :=
    Scheduler.set_uploaded "yt1" day (Scheduler.example_entry "1" "pending") in
  let new_upload :=
    Scheduler.set_uploaded "yt2" (99 * day) (Scheduler.example_entry "2" "pending") in
  let waiting := Scheduler.example_entry "3" "pending" in
  Scheduler.queue
    (fst (Scheduler.clear_completed clock true 7
            {| Scheduler.queue := [old_upload; waiting; new_upload];
               Scheduler.queue_file := None;
               Scheduler.clock_reads := 0 |}))
  = [waiting; new_upload].
Proof.
  intros day clock old_upload new_upload waiting.
  exact (proj1 (C10_purge_uploaded clock true 7
                  {| Scheduler.queue := [old_upload; waiting; new_upload];
                     Scheduler.queue_file := None;
                     Scheduler.clock_reads := 0 |}
                  ltac:(intros k; unfold clock; lia) ltac:(lia))).
Defined.

(* ===================================================================== *)
(** * Part III: further properties of the code                            *)
(* ===================================================================== *)

(** ** narration/tts.py *)

Section TimingsOfANarration.

Local Open Scope Q_scope.

Lemma round3_zero : Py.round 0 3 = 0 # 1000.
Proof. reflexivity. Qed.

Lemma index_below (i n : nat) :
  (i < n)%nat -> inject_Z (Z.of_nat i) + 1 <= inject_Z (Z.of_nat n).
Proof.
  intros H. change 1 with (inject_Z 1). rewrite <- inject_Z_plus, <- Zle_Qle. lia.
Qed.

(** Where the synthesizer puts word [i] of [n], for a duration [D >= 0]. *)
Lemma timing_in_range (text : string) (D : Q) (i : nat) (w : TTS.WordTiming) :
  0 <= D ->
  TTS._generate_dummy_timestamps text (Some D) !! i = Some w ->
  0 # 1000 <= TTS.start w
  /\ TTS.start w <= TTS.end_ w
  /\ TTS.end_ w <= Py.round D 3.
Proof.
  intros HD Hw. rewrite generate_unfold in Hw.
  assert (Hi : (i < length (Py.split text))%nat).
  { apply lookup_lt_Some in Hw. rewrite timestamps_loop_length in Hw. exact Hw. }
  destruct (timestamps_loop_lookup _ _ _ _ _ Hw) as (Hs & He & _).
  pose proof (slot_nonneg D (Py.split text) HD) as Hslot.
  assert (ED : Py.flen (Py.split text) * (D / Py.flen (Py.split text)) == D).
  { apply Qmult_div_r. unfold Py.flen.
    intros Z0. unfold Qeq in Z0. cbn [Qnum Qden inject_Z] in Z0. lia. }
  pose proof (index_below i _ Hi) as Hidx. fold (Py.flen (Py.split text)) in Hidx.
  set (slot := D / Py.flen (Py.split text)) in *.
  set (n := Py.flen (Py.split text)) in *.
  set (k := inject_Z (Z.of_nat i)) in *.
  assert (Hk : 0 <= k).
  { unfold k. change 0 with (inject_Z 0). rewrite <- Zle_Qle. lia. }
  assert (Hks : 0 <= k * slot) by (apply Qmult_le_0_compat; assumption).
  assert (Hrest : 0 <= (n - (k + 1)) * slot)
    by (apply Qmult_le_0_compat; [lra | assumption]).
  assert (Hexp : (n - (k + 1)) * slot == D - k * slot - slot)
    by (rewrite <- ED; ring).
  rewrite Hexp in Hrest.
  rewrite Hs, He. split; [| split].
  - rewrite <- round3_zero. apply round3_mono. lra.
  - apply round3_mono. lra.
  - apply round3_mono. lra.
Qed.



End TimingsOfANarration.

(** ** video_assembly/assets.py *)

Section DownloadOutcomes.

Variable fetch : string -> nat -> Assets.attempt_result.
Variable video_url : string.

Lemma download_attempts_decisive (file_path : string) (max_retries : Z) (k : nat) :
  (forall j : nat, (j < k)%nat -> fetch video_url j = Assets.TransientError) ->
  fetch video_url k <> Assets.TransientError ->
  (Z.of_nat k < max_retries)%Z ->
  forall (d a n : nat) (sl : list Z),
    (a + d = k)%nat -> (d < n)%nat ->
    Assets.download_attempts fetch (map Z.of_nat (seq a n)) max_retries
      video_url file_path {| Assets.fetch_calls := a; Assets.slept := sl |}
    = ({| Assets.fetch_calls := S k;
          Assets.slept := sl ++ map (fun j => 2 ^ Z.of_nat j)%Z (seq a d) |},
       Assets.settled (fetch video_url k) file_path).
Proof.
  intros Hbefore Hk Hmax. induction d as [| d IH]; intros a n sl Ha Hn.
  - destruct n as [| n]; [lia |]. rewrite Nat.add_0_r in Ha. subst a.
    cbn [seq map Assets.download_attempts Assets.fetch_calls Assets.slept].
    rewrite app_nil_r.
    destruct (fetch video_url k); [reflexivity | congruence | reflexivity].
  - destruct n as [| n]; [lia |].
    cbn [seq map Assets.download_attempts Assets.fetch_calls Assets.slept].
    rewrite (Hbefore a) by lia.
    replace (Z.of_nat a <? max_retries - 1)%Z with true
      by (symmetry; apply Z.ltb_lt; lia).
    rewrite (IH (S a) n (sl ++ [(2 ^ Z.of_nat a)%Z])) by lia.
    rewrite <- app_assoc. reflexivity.
Qed.

(** X3: the first attempt that does not end in a transient error settles
    the call. If it is attempt [k] (counted from 0, with
    [k < max_retries]), the call has made [k + 1] requests and slept
    1, 2, ..., [2^(k-1)] seconds; it returns the path when the attempt
    wrote the file, and lets the exception through, without a further
    attempt, when the attempt raised anything else. *)
Theorem X3_first_decisive_attempt (output_dir filename : option string)
    (max_retries : Z) (k : nat) :
  (forall j : nat, (j < k)%nat -> fetch video_url j = Assets.TransientError) ->
  fetch video_url k <> Assets.TransientError ->
  (Z.of_nat k < max_retries)%Z ->
  Assets.download_video fetch video_url output_dir filename max_retries
    {| Assets.fetch_calls := 0; Assets.slept := [] |}
  = ({| Assets.fetch_calls := S k;
        Assets.slept := map (Z.pow 2) (Py.range (Z.of_nat k)) |},
     match fetch video_url k with
     | Assets.Saved => Py.Return (Some (Assets.target_path output_dir filename))
     | _ => Py.Raise
     end).
Proof.
  intros Hbefore Hk Hmax. unfold Assets.download_video.
  fold (Assets.target_path output_dir filename). unfold Py.range at 1.
  rewrite (download_attempts_decisive _ _ k Hbefore Hk Hmax k 0) by lia.
  cbn [app]. rewrite range_pos, map_map. f_equal.
  destruct (fetch video_url k); [reflexivity | congruence | reflexivity].
Qed.

(** The loop keeps: one sleep of [2^j] seconds after each request [j] but
    the last one made. *)
Lemma download_attempts_invariant (file_path : string) (total : nat) :
  forall (n a : nat),
    (a + S n = total)%nat ->
    exists c : nat,
      (a < c <= total)%nat
      /\ Assets.download_attempts fetch (map Z.of_nat (seq a (S n)))
           (Z.of_nat total) video_url file_path
           {| Assets.fetch_calls := a; Assets.slept := Assets.backoff a |}
         = ({| Assets.fetch_calls := c; Assets.slept := Assets.backoff (c - 1) |},
            Assets.settled (fetch video_url (c - 1)) file_path)
      /\ (fetch video_url (c - 1) = Assets.TransientError -> c = total).
Proof.
  induction n as [| n IH]; intros a Ha.
  - exists (S a). replace (S a - 1)%nat with a by lia.
    split; [lia |]. split; [| intros _; lia].
    cbn [seq map Assets.download_attempts Assets.fetch_calls Assets.slept].
    replace (Z.of_nat a <? Z.of_nat total - 1)%Z with false
      by (symmetry; apply Z.ltb_ge; lia).
    destruct (fetch video_url a); reflexivity.
  - change (seq a (S (S n))) with (a :: seq (S a) (S n)).
    cbn [map Assets.download_attempts Assets.fetch_calls Assets.slept].
    replace (Z.of_nat a <? Z.of_nat total - 1)%Z with true
      by (symmetry; apply Z.ltb_lt; lia).
    destruct (fetch video_url a) eqn:Ef.
    + exists (S a). replace (S a - 1)%nat with a by lia. rewrite Ef.
      split; [lia |]. split; [reflexivity | discriminate].
    + destruct (IH (S a) ltac:(lia)) as (c & Hc & Hrun & Hlast).
      exists c. split; [lia |]. split; [| exact Hlast].
      replace (Assets.backoff a ++ [(2 ^ Z.of_nat a)%Z])
        with (Assets.backoff (S a)); [exact Hrun |].
      unfold Assets.backoff. rewrite seq_S, map_app. reflexivity.
    + exists (S a). replace (S a - 1)%nat with a by lia. rewrite Ef.
      split; [lia |]. split; [reflexivity | discriminate].
Qed.

Lemma backoff_range (m : nat) :
  Assets.backoff m = map (Z.pow 2) (Py.range (Z.of_nat m)).
Proof. unfold Assets.backoff. rewrite range_pos, map_map. reflexivity. Qed.

(** X4: whatever the requests do, [download_video] makes at most
    [max_retries] requests, and it has slept 1, 2, 4, ... seconds after
    each request but the last one it made, never after the last; it
    returns [None] only after all [max_retries] requests, a path only
    when its last request wrote the file, and it raises only when its
    last request raised an error that is not an I/O or HTTP error. *)
Theorem X4_download_bounds (output_dir filename : option string)
    (max_retries : Z) :
  let run :=
    Assets.download_video fetch video_url output_dir filename max_retries
      {| Assets.fetch_calls := 0; Assets.slept := [] |} in
  let calls := Assets.fetch_calls (fst run) in
  (calls <= Z.to_nat max_retries)%nat
  /\ Assets.slept (fst run) = map (Z.pow 2) (Py.range (Z.of_nat calls - 1))
  /\ (snd run = Py.Return None -> calls = Z.to_nat max_retries)
  /\ (forall p : string, snd run = Py.Return (Some p) ->
        p = Assets.target_path output_dir filename
        /\ fetch video_url (calls - 1) = Assets.Saved)
  /\ (snd run = Py.Raise ->
        fetch video_url (calls - 1) = Assets.OtherError).
Proof.
  intros run calls. subst calls run. unfold Assets.download_video.
  fold (Assets.target_path output_dir filename).
  assert (Hr : Py.range max_retries = map Z.of_nat (seq 0 (Z.to_nat max_retries)))
    by reflexivity.
  rewrite Hr. clear Hr.
  destruct (Z.to_nat max_retries) as [| n] eqn:En.
  - cbn [seq map Assets.download_attempts fst snd Assets.fetch_calls Assets.slept].
    repeat split; try discriminate; try reflexivity.
  - assert (Em : max_retries = Z.of_nat (S n)) by lia. rewrite Em.
    destruct (download_attempts_invariant (Assets.target_path output_dir filename)
                (S n) n 0%nat eq_refl) as (c & Hc & Hrun & Hlast).
    change (Assets.backoff 0) with (@nil Z) in Hrun. rewrite Hrun.
    cbn [fst snd Assets.fetch_calls Assets.slept].
    split; [lia |].
    split.
    { rewrite backoff_range. do 2 f_equal. lia. }
    unfold Assets.settled.
    destruct (fetch video_url (c - 1)) eqn:Ef.
    + split; [discriminate |]. split; [| discriminate].
      intros p [= <-]. auto.
    + split; [intros _; apply Hlast; reflexivity |].
      split; [discriminate | discriminate].
    + split; [discriminate |]. split; [discriminate | auto].
Qed.

End DownloadOutcomes.

Lemma X3_first_decisive_attempt_witness :
  Assets.download_video
    (fun _ j => if (j =? 0)%nat then Assets.TransientError else Assets.OtherError)
    "https://videos.example/clip.mp4" None None 3
    {| Assets.fetch_calls := 0; Assets.slept := [] |}
  = ({| Assets.fetch_calls := 2; Assets.slept := [1]%Z |}, Py.Raise).
Proof.
  apply (X3_first_decisive_attempt
           (fun _ j => if (j =? 0)%nat then Assets.TransientError
                       else Assets.OtherError)
           "https://videos.example/clip.mp4" None None 3 1).
  - intros j Hj. assert (j = 0%nat) as -> by lia. reflexivity.
  - discriminate.
  - lia.
Defined.

Section Ranking.

Lemma insert_desc_stable (d : Z) (c : Assets.Candidate) (l : list Assets.Candidate) :
  List.filter (fun x => (Assets.duration x =? d)%Z) (Assets.insert_desc c l)
  = List.filter (fun x => (Assets.duration x =? d)%Z) (c :: l).
Proof.
  induction l as [| y l IH]; [reflexivity |].
  cbn [Assets.insert_desc].
  destruct (Assets.duration y <=? Assets.duration c)%Z eqn:E; [reflexivity |].
  apply Z.leb_gt in E. cbn [List.filter] in *. rewrite IH.
  destruct (Assets.duration c =? d)%Z eqn:Ec; [| reflexivity].
  apply Z.eqb_eq in Ec.
  replace (Assets.duration y =? d)%Z with false
    by (symmetry; apply Z.eqb_neq; lia).
  reflexivity.
Qed.

(** X5: the ranking of [find_best_video] is stable: candidates of one and
    the same duration stand in the sorted list in the order in which the
    searches returned them. *)
Theorem X5_ranking_is_stable (d : Z) (l : list Assets.Candidate) :
  List.filter (fun x => (Assets.duration x =? d)%Z) (Assets.sort_desc l)
  = List.filter (fun x => (Assets.duration x =? d)%Z) l.
Proof.
  induction l as [| c l IH]; [reflexivity |].
  cbn [Assets.sort_desc]. rewrite insert_desc_stable.
  cbn [List.filter]. rewrite IH. reflexivity.
Qed.

End Ranking.

Section SelectedCandidate.

Variable pexels_key pixabay_key : string.
Variable pexels_api pixabay_api : string -> option (list Assets.Video).

Lemma survivor_shape (source : string) (min_duration : Z) (keyword : string)
    (c : Assets.Candidate) :
  c ∈ Assets.keyword_survivors pexels_key pixabay_key pexels_api pixabay_api
        source min_duration keyword ->
  Assets.duration c = Assets.get_duration (Assets.data c)
  /\ ((Assets.source c = "pexels"
       /\ exists f fs, Assets.video_files (Assets.data c) = Some (f :: fs))
      \/ (Assets.source c = "pixabay"
          /\ exists tiers, Assets.videos (Assets.data c) = Some tiers
                           /\ tiers <> ∅)).
Proof.
  unfold Assets.keyword_survivors. intros H.
  apply elem_of_app in H as [H | H].
  - destruct (Assets.pexels_enabled _ _); [| inversion H].
    apply list_elem_of_fmap in H as (v & -> & Hv).
    apply list_elem_of_In, filter_In in Hv as [_ Hv].
    unfold Assets.pexels_usable in Hv. apply andb_true_iff in Hv as [_ Hv].
    split; [reflexivity |]. left. split; [reflexivity |]. cbn [Assets.wrap Assets.data].
    destruct (Assets.video_files v) as [[| f fs] |]; try discriminate Hv. eauto.
  - destruct (Assets.pixabay_enabled _ _); [| inversion H].
    apply list_elem_of_fmap in H as (v & -> & Hv).
    apply list_elem_of_In, filter_In in Hv as [_ Hv].
    unfold Assets.pixabay_usable in Hv. apply andb_true_iff in Hv as [_ Hv].
    split; [reflexivity |]. right. split; [reflexivity |]. cbn [Assets.wrap Assets.data].
    destruct (Assets.videos v) as [tiers |]; cbn [from_option id] in Hv.
    + exists tiers. split; [reflexivity |]. intros ->.
      rewrite bool_decide_eq_true_2 in Hv by reflexivity. discriminate Hv.
    + rewrite bool_decide_eq_true_2 in Hv by reflexivity. discriminate Hv.
Qed.

Lemma selected_in_pool (keywords : list string) (source : string)
    (min_duration : Z) (rnd : nat) (c : Assets.Candidate) :
  snd (Assets.find_best_video pexels_key pixabay_key pexels_api pixabay_api
         keywords source min_duration rnd) = Some c ->
  c ∈ snd (Assets.pool_spec pexels_key pixabay_key pexels_api pixabay_api
             keywords source min_duration).
Proof.
  unfold Assets.find_best_video. rewrite pool_refines.
  destruct (Assets.pool_spec _ _ _ _ _ _ _) as [log all]. cbn [snd].
  destruct all as [| a all]; [discriminate |]. intros Hc.
  destruct (choice_lookup (take 5 (Assets.sort_desc (a :: all))) rnd)
    as [_ (x & Hx & Hin)].
  { intros E. apply (f_equal length) in E. rewrite length_take in E.
    pose proof (Permutation_length (sort_desc_perm (a :: all))) as Hl.
    cbn [length] in *. lia. }
  rewrite Hx in Hc. injection Hc as ->.
  rewrite <- (sort_desc_perm (a :: all)). exact (subseteq_take 5 _ _ Hin).
Qed.

(** X6: a candidate that [find_best_video] returns is one that
    [get_video_url] knows how to read: its source is ['pexels'] and its
    data carries a non-empty list of video files, or its source is
    ['pixabay'] and its data carries a non-empty dictionary of tiers; its
    ['duration'] is the duration of the data. *)
Theorem X6_selected_candidate_shape (keywords : list string) (source : string)
    (min_duration : Z) (rnd : nat) (c : Assets.Candidate) :
  snd (Assets.find_best_video pexels_key pixabay_key pexels_api pixabay_api
         keywords source min_duration rnd) = Some c ->
  Assets.duration c = Assets.get_duration (Assets.data c)
  /\ ((Assets.source c = "pexels"
       /\ exists f fs, Assets.video_files (Assets.data c) = Some (f :: fs))
      \/ (Assets.source c = "pixabay"
          /\ exists tiers, Assets.videos (Assets.data c) = Some tiers
                           /\ tiers <> ∅)).
Proof.
  intros Hc. apply selected_in_pool in Hc. cbn [snd Assets.pool_spec] in Hc.
  apply list_elem_of_In, in_flat_map in Hc as (kw & _ & Hc).
  apply list_elem_of_In in Hc. eapply survivor_shape, Hc.
Qed.

(** X7: when no provider is enabled (the key of a provider is not set, or
    [source] names neither it nor ['both']), [find_best_video] sends no
    request and finds nothing, whatever the keywords and the draw. *)
Theorem X7_no_provider_no_request (keywords : list string) (source : string)
    (min_duration : Z) (rnd : nat) :
  Assets.pexels_enabled pexels_key source = false ->
  Assets.pixabay_enabled pixabay_key source = false ->
  Assets.find_best_video pexels_key pixabay_key pexels_api pixabay_api
    keywords source min_duration rnd
  = ([], None).
Proof.
  intros Hp Hx. unfold Assets.find_best_video. rewrite pool_refines.
  unfold Assets.pool_spec, Assets.keyword_queries, Assets.keyword_survivors.
  rewrite Hp, Hx. cbn [app].
  assert (Hq : forall (A B : Type) (l : list A), flat_map (fun _ : A => @nil B) l = [])
    by (intros A B l; induction l; auto).
  rewrite !Hq. reflexivity.
Qed.

End SelectedCandidate.

Lemma X6_selected_candidate_shape_witness :
  Assets.duration (Assets.wrap "pexels" "ocean" (Assets.example_hit 25)) = 25%Z.
Proof.
  exact (proj1 (X6_selected_candidate_shape "key" ""
                  (fun _ => Some Assets.example_hits) (fun _ => None)
                  ["ocean"; "reef"] "pexels" 10 7 _ eq_refl)).
Defined.

Lemma X7_no_provider_no_request_witness :
  Assets.find_best_video "" "key" (fun _ => Some Assets.example_hits)
    (fun _ => Some Assets.example_hits) ["ocean"] "pexels" 10 0
  = ([], None).
Proof.
  apply (X7_no_provider_no_request "" "key" (fun _ => Some Assets.example_hits)
           (fun _ => Some Assets.example_hits) ["ocean"] "pexels" 10 0);
    reflexivity.
Defined.

(** ** publishing/scheduler.py *)

Section QueueOperations.

Variable clock : nat -> Z.
Variable disk_writable : bool.

Abbreviation add_to_queue := (Scheduler.add_to_queue clock disk_writable).
Abbreviation get_pending_uploads := (Scheduler.get_pending_uploads clock).
Abbreviation mark_uploaded' := (Scheduler.mark_uploaded clock disk_writable).
Abbreviation mark_failed' := (Scheduler.mark_failed clock disk_writable).

Lemma pending_loop_filter (q : list Scheduler.QueueEntry) (now : Z) :
  Scheduler.pending_loop q now = List.filter (Scheduler.due now) q.
Proof.
  induction q as [| v q IH]; [reflexivity |].
  cbn [Scheduler.pending_loop List.filter]. unfold Scheduler.due at 1.
  destruct (String.eqb (Scheduler.status v) "pending");
    [destruct (Scheduler.scheduled_time v <=? now)%Z |];
    cbn [andb]; rewrite IH; reflexivity.
Qed.

Lemma add_to_queue_queue (video_path title description : string)
    (tags : list string) (scheduled_time : option Z) (st : Scheduler.state) :
  exists e : Scheduler.QueueEntry,
    Scheduler.queue
      (fst (add_to_queue video_path title description tags scheduled_time st))
    = Scheduler.queue st ++ [e]
    /\ Scheduler.status e = "pending"
    /\ Scheduler.id e
       = Scheduler.str_int (Z.quot (clock (Scheduler.clock_reads st)) 1000)
    /\ Scheduler.scheduled_time e
       = match scheduled_time with
         | Some t => t
         | None => clock (S (Scheduler.clock_reads st))
         end
    /\ Scheduler.video_path e = video_path /\ Scheduler.title e = title
    /\ Scheduler.description e = description /\ Scheduler.tags e = tags
    /\ Scheduler.clock_reads
         (fst (add_to_queue video_path title description tags scheduled_time st))
       = match scheduled_time with
         | Some _ => S (S (Scheduler.clock_reads st))
         | None => S (S (S (Scheduler.clock_reads st)))
         end.
Proof.
  unfold Scheduler.add_to_queue, Scheduler._save_queue.
  destruct scheduled_time as [t |]; destruct disk_writable; cbn [fst];
    eexists; cbn; repeat split; reflexivity.
Qed.

(** X8: an entry enqueued for the time [t] is pending, stands last in the
    queue, and the next [get_pending_uploads] returns it exactly when the
    clock then reads [t] or later; the due entries come in the order of
    the queue, so the new one comes after the older ones. *)
Theorem X8_enqueued_entry_becomes_due (video_path title description : string)
    (tags : list string) (t : Z) (st : Scheduler.state) :
  let st1 := fst (add_to_queue video_path title description tags (Some t) st) in
  let now := clock (Scheduler.clock_reads st1) in
  exists e : Scheduler.QueueEntry,
    Scheduler.queue st1 = Scheduler.queue st ++ [e]
    /\ Scheduler.status e = "pending"
    /\ Scheduler.scheduled_time e = t
    /\ snd (get_pending_uploads st1)
       = List.filter (Scheduler.due now) (Scheduler.queue st)
         ++ (if (t <=? now)%Z then [e] else []).
Proof.
  intros st1 now.
  destruct (add_to_queue_queue video_path title description tags (Some t) st)
    as (e & Hq & Hs & _ & Ht & _).
  fold st1 in Hq. exists e. split; [exact Hq |]. split; [exact Hs |].
  split; [exact Ht |].
  unfold Scheduler.get_pending_uploads. cbn [snd]. fold now.
  rewrite pending_loop_filter, Hq, List.filter_app. f_equal.
  cbn [List.filter]. unfold Scheduler.due. rewrite Hs, Ht. reflexivity.
Qed.

(** The first entry of an id hides every later entry of the same id. *)
Lemma update_first_shadow (video_id : string)
    (f : Scheduler.QueueEntry -> Scheduler.QueueEntry)
    (q q' : list Scheduler.QueueEntry) (i j : nat)
    (vi vj : Scheduler.QueueEntry) :
  q !! i = Some vi -> q !! j = Some vj -> (i < j)%nat ->
  Scheduler.id vi = Scheduler.id vj ->
  Scheduler.update_first video_id f q = Some q' ->
  q' !! j = Some vj.
Proof.
  intros Hi Hj Hlt Hid Hup. rewrite update_first_insert in Hup.
  destruct (Scheduler.find_first video_id q) as [k |] eqn:Hk; [| discriminate].
  destruct (find_first_Some _ _ _ Hk) as [(vk & Hvk & Hidk) Hbefore].
  rewrite Hvk in Hup. injection Hup as <-.
  rewrite list_lookup_insert_ne; [exact Hj |].
  intros ->. assert (Hvj : vk = vj) by congruence. subst vk.
  apply (Hbefore i vi Hlt Hi). congruence.
Qed.

Lemma later_duplicate_kept (st : Scheduler.state) (i j : nat)
    (vi vj : Scheduler.QueueEntry) (video_id youtube err : string) :
  Scheduler.queue st !! i = Some vi ->
  Scheduler.queue st !! j = Some vj ->
  (i < j)%nat ->
  Scheduler.id vi = Scheduler.id vj ->
  Scheduler.queue (fst (mark_uploaded' video_id youtube st)) !! j = Some vj
  /\ Scheduler.queue (fst (mark_failed' video_id err st)) !! j = Some vj.
Proof.
  intros Hi Hj Hlt Hid.
  unfold Scheduler.mark_uploaded, Scheduler.mark_failed. split.
  - destruct (Scheduler.update_first video_id _ (Scheduler.queue st)) as [q' |] eqn:Hup;
      cbn [fst]; [| exact Hj].
    rewrite save_queue_queue. cbn [Scheduler.queue].
    exact (update_first_shadow _ _ _ _ i j vi vj Hi Hj Hlt Hid Hup).
  - destruct (Scheduler.update_first video_id _ (Scheduler.queue st)) as [q' |] eqn:Hup;
      cbn [fst]; [| exact Hj].
    rewrite save_queue_queue. cbn [Scheduler.queue].
    exact (update_first_shadow _ _ _ _ i j vi vj Hi Hj Hlt Hid Hup).
Qed.

(** X9: [mark_uploaded] and [mark_failed] never change an entry that
    stands behind another entry of the same id: whatever id they are
    called with, such an entry keeps its status and all its fields. *)
Theorem X9_later_duplicate_is_never_marked (st : Scheduler.state) (i j : nat)
    (vi vj : Scheduler.QueueEntry) (video_id youtube err : string) :
  Scheduler.queue st !! i = Some vi ->
  Scheduler.queue st !! j = Some vj ->
  (i < j)%nat ->
  Scheduler.id vi = Scheduler.id vj ->
  Scheduler.queue (fst (mark_uploaded' video_id youtube st)) !! j = Some vj
  /\ Scheduler.queue (fst (mark_failed' video_id err st)) !! j = Some vj.
Proof.
  intros Hi Hj Hlt Hid. split.
  - exact (proj1 (later_duplicate_kept st i j vi vj video_id youtube err
                    Hi Hj Hlt Hid)).
  - exact (proj2 (later_duplicate_kept st i j vi vj video_id youtube err
                    Hi Hj Hlt Hid)).
Qed.

(** X10: the id of an entry is the millisecond at which it was enqueued.
    Two entries enqueued one after the other within the same millisecond
    get the same id, and then no [mark_uploaded] for that id ever reaches
    the second one: it stays pending. *)
Theorem X10_same_millisecond_same_id (p1 t1 d1 p2 t2 d2 : string)
    (g1 g2 : list string) (s1 s2 : Z) (youtube : string) (st : Scheduler.state) :
  let r := Scheduler.clock_reads st in
  let st1 := fst (add_to_queue p1 t1 d1 g1 (Some s1) st) in
  let st2 := fst (add_to_queue p2 t2 d2 g2 (Some s2) st1) in
  Z.quot (clock r) 1000 = Z.quot (clock (S (S r))) 1000 ->
  exists e1 e2 : Scheduler.QueueEntry,
    Scheduler.queue st2 = Scheduler.queue st ++ [e1; e2]
    /\ Scheduler.id e1 = Scheduler.id e2
    /\ Scheduler.status e2 = "pending"
    /\ Scheduler.queue (fst (mark_uploaded' (Scheduler.id e2) youtube st2))
         !! S (length (Scheduler.queue st))
       = Some e2.
Proof.
  intros r st1 st2 Hms.
  destruct (add_to_queue_queue p1 t1 d1 g1 (Some s1) st)
    as (e1 & Hq1 & _ & Hid1 & _ & _ & _ & _ & _ & Hr1).
  fold st1 in Hq1, Hr1.
  destruct (add_to_queue_queue p2 t2 d2 g2 (Some s2) st1)
    as (e2 & Hq2 & Hs2 & Hid2 & _).
  fold st2 in Hq2. rewrite Hr1 in Hid2. fold r in Hid1, Hid2.
  exists e1, e2.
  assert (Hq : Scheduler.queue st2 = Scheduler.queue st ++ [e1; e2]).
  { rewrite Hq2, Hq1, <- app_assoc. reflexivity. }
  assert (Hid : Scheduler.id e1 = Scheduler.id e2) by (rewrite Hid1, Hid2, Hms; reflexivity).
  split; [exact Hq |]. split; [exact Hid |]. split; [exact Hs2 |].
  apply (later_duplicate_kept st2 (length (Scheduler.queue st))
           (S (length (Scheduler.queue st))) e1 e2 (Scheduler.id e2) youtube "");
    [| | lia | exact Hid].
  - rewrite Hq, lookup_app_r by lia. rewrite Nat.sub_diag. reflexivity.
  - rewrite Hq, lookup_app_r by lia.
    replace (S (length (Scheduler.queue st)) - length (Scheduler.queue st))%nat
      with 1%nat by lia. reflexivity.
Qed.

End QueueOperations.

Lemma X9_later_duplicate_is_never_marked_witness :
  let clock := fun k : nat => (1700000000000000 + Z.of_nat k)%Z in
  let twin := Scheduler.example_entry "7" "pending" in
  let st := {| Scheduler.queue := [twin; twin];
               Scheduler.queue_file := None;
               Scheduler.clock_reads := 0 |} in
  Scheduler.queue (fst (Scheduler.mark_uploaded clock true "7" "yt1" st)) !! 1%nat
  = Some twin.
Proof.
  intros clock twin st.
  exact (proj1 (X9_later_duplicate_is_never_marked clock true st 0 1 twin twin
                  "7" "yt1" "" eq_refl eq_refl ltac:(lia) eq_refl)).
Defined.

Lemma X10_same_millisecond_same_id_witness :
  let clock := fun k : nat => (1700000000000000 + Z.of_nat k)%Z in
  let st := {| Scheduler.queue := []; Scheduler.queue_file := None;
               Scheduler.clock_reads := 0 |} in
  exists e1 e2 : Scheduler.QueueEntry,
    Scheduler.queue
      (fst (Scheduler.add_to_queue clock true "b.mp4" "B" "second" [] (Some 0%Z)
              (fst (Scheduler.add_to_queue clock true "a.mp4" "A" "first" []
                      (Some 0%Z) st))))
    = [e1; e2]
    /\ Scheduler.id e1 = Scheduler.id e2.
Proof.
  intros clock st.
  destruct (X10_same_millisecond_same_id clock true "a.mp4" "A" "first"
              "b.mp4" "B" "second" [] [] 0 0 "yt1" st eq_refl)
    as (e1 & e2 & Hq & Hid & _).
  exists e1, e2. split; [exact Hq | exact Hid].
Defined.

Section QueueStatistics.

Variable clock : nat -> Z.
Variable disk_writable : bool.

Lemma bump_fold (q : list Scheduler.QueueEntry) (s0 : Scheduler.QueueStats) :
  fold_left (fun stats video => Scheduler.bump stats (Scheduler.status video)) q s0
  = {| Scheduler.total := Scheduler.total s0 + Scheduler.count_status "total" q;
       Scheduler.pending := Scheduler.pending s0 + Scheduler.count_status "pending" q;
       Scheduler.uploaded :=
         Scheduler.uploaded s0 + Scheduler.count_status "uploaded" q;
       Scheduler.failed := Scheduler.failed s0 + Scheduler.count_status "failed" q |}.
Proof.
  revert s0. induction q as [| v q IH]; intros s0.
  - destruct s0. unfold Scheduler.count_status. cbn. f_equal; lia.
  - cbn [fold_left]. rewrite IH. unfold Scheduler.bump, Scheduler.count_status.
    cbn [List.filter].
    destruct (String.eqb_spec (Scheduler.status v) "total") as [-> | Nt].
    { cbn [String.eqb Ascii.eqb Bool.eqb Scheduler.total Scheduler.pending
           Scheduler.uploaded Scheduler.failed length].
      f_equal; lia. }
    destruct (String.eqb_spec (Scheduler.status v) "pending") as [-> | Np].
    { cbn [String.eqb Ascii.eqb Bool.eqb Scheduler.total Scheduler.pending
           Scheduler.uploaded Scheduler.failed length].
      f_equal; lia. }
    destruct (String.eqb_spec (Scheduler.status v) "uploaded") as [-> | Nu].
    { cbn [String.eqb Ascii.eqb Bool.eqb Scheduler.total Scheduler.pending
           Scheduler.uploaded Scheduler.failed length].
      f_equal; lia. }
    destruct (String.eqb_spec (Scheduler.status v) "failed") as [Ef | Nf].
    { cbn [String.eqb Ascii.eqb Bool.eqb Scheduler.total Scheduler.pending
           Scheduler.uploaded Scheduler.failed length].
      f_equal; lia. }
    reflexivity.
Qed.

Lemma count_status_bounds (q : list Scheduler.QueueEntry) :
  (0 <= Scheduler.count_status "total" q
   /\ 0 <= Scheduler.count_status "pending" q
   /\ 0 <= Scheduler.count_status "uploaded" q
   /\ 0 <= Scheduler.count_status "failed" q
   /\ Scheduler.count_status "total" q + Scheduler.count_status "pending" q
      + Scheduler.count_status "uploaded" q + Scheduler.count_status "failed" q
      <= Z.of_nat (length q))%Z.
Proof.
  unfold Scheduler.count_status.
  induction q as [| v q IH]; [cbn; lia |].
  cbn [List.filter length].
  destruct (String.eqb_spec (Scheduler.status v) "total") as [E | Nt];
    [rewrite E; cbn [String.eqb Ascii.eqb Bool.eqb length]; lia |].
  destruct (String.eqb_spec (Scheduler.status v) "pending") as [E | Np];
    [rewrite E; cbn [String.eqb Ascii.eqb Bool.eqb length]; lia |].
  destruct (String.eqb_spec (Scheduler.status v) "uploaded") as [E | Nu];
    [rewrite E; cbn [String.eqb Ascii.eqb Bool.eqb length]; lia |].
  destruct (String.eqb_spec (Scheduler.status v) "failed") as [E | Nf];
    [cbn [length]; lia |].
  lia.
Qed.

(** X11: [get_queue_stats] counts the entries of each of the three
    statuses, so ['pending'] + ['uploaded'] + ['failed'] never exceeds the
    length of the queue; but ['total'] is the length of the queue plus the
    number of entries whose status is the string ['total'], since the loop
    increments whichever key of the dictionary the status names. It
    equals the length exactly when no entry has that status. *)
Theorem X11_queue_stats (st : Scheduler.state) :
  let stats := Scheduler.get_queue_stats st in
  let q := Scheduler.queue st in
  Scheduler.pending stats = Scheduler.count_status "pending" q
  /\ Scheduler.uploaded stats = Scheduler.count_status "uploaded" q
  /\ Scheduler.failed stats = Scheduler.count_status "failed" q
  /\ Scheduler.total stats
     = (Z.of_nat (length q) + Scheduler.count_status "total" q)%Z
  /\ (Scheduler.pending stats + Scheduler.uploaded stats + Scheduler.failed stats
      <= Z.of_nat (length q) <= Scheduler.total stats)%Z
  /\ (Scheduler.total stats = Z.of_nat (length q) <->
      forall video, video ∈ q -> Scheduler.status video <> "total").
Proof.
  intros stats q. subst stats. unfold Scheduler.get_queue_stats. fold q.
  rewrite bump_fold. cbn [Scheduler.total Scheduler.pending Scheduler.uploaded
                          Scheduler.failed].
  pose proof (count_status_bounds q) as (Ht & Hp & Hu & Hf & Hsum).
  repeat split; try lia.
  - intros Heq video Hin Hst.
    assert (Hz : Scheduler.count_status "total" q = 0%Z) by lia.
    unfold Scheduler.count_status in Hz.
    assert (Hnil : List.filter
                     (fun v => String.eqb (Scheduler.status v) "total") q = []).
    { destruct (List.filter _ q); [reflexivity | cbn in Hz; lia]. }
    assert (Hmem : In video (List.filter
                     (fun v => String.eqb (Scheduler.status v) "total") q)).
    { apply filter_In. split; [apply list_elem_of_In, Hin |].
      rewrite Hst. reflexivity. }
    rewrite Hnil in Hmem. exact Hmem.
  - intros Hnone.
    assert (Hnil : List.filter
                     (fun v => String.eqb (Scheduler.status v) "total") q = []).
    { destruct (List.filter _ q) as [| x l] eqn:E; [reflexivity |].
      assert (Hx : In x (List.filter
                     (fun v => String.eqb (Scheduler.status v) "total") q))
        by (rewrite E; left; reflexivity).
      apply filter_In in Hx as [Hx Hs]. apply String.eqb_eq in Hs.
      exfalso. exact (Hnone x (proj2 (list_elem_of_In _ _) Hx) Hs). }
    unfold Scheduler.count_status. rewrite Hnil. cbn. lia.
Qed.

End QueueStatistics.

Section QueueStatisticsFollow.

Variable clock : nat -> Z.
Variable disk_writable : bool.

Lemma count_status_app (s : string) (q1 q2 : list Scheduler.QueueEntry) :
  Scheduler.count_status s (q1 ++ q2)
  = (Scheduler.count_status s q1 + Scheduler.count_status s q2)%Z.
Proof.
  unfold Scheduler.count_status. rewrite List.filter_app, length_app. lia.
Qed.

Lemma count_status_single (s : string) (e : Scheduler.QueueEntry) :
  Scheduler.count_status s [e]
  = if String.eqb (Scheduler.status e) s then 1%Z else 0%Z.
Proof.
  unfold Scheduler.count_status. cbn [List.filter].
  destruct (String.eqb (Scheduler.status e) s); reflexivity.
Qed.

Lemma stats_of_counts (st : Scheduler.state) :
  Scheduler.get_queue_stats st
  = {| Scheduler.total :=
         Z.of_nat (length (Scheduler.queue st))
         + Scheduler.count_status "total" (Scheduler.queue st);
       Scheduler.pending := Scheduler.count_status "pending" (Scheduler.queue st);
       Scheduler.uploaded := Scheduler.count_status "uploaded" (Scheduler.queue st);
       Scheduler.failed := Scheduler.count_status "failed" (Scheduler.queue st) |}.
Proof.
  unfold Scheduler.get_queue_stats. rewrite bump_fold. reflexivity.
Qed.

(** X12: enqueueing raises ['total'] and ['pending'] of the statistics by
    one and leaves ['uploaded'] and ['failed'] as they are. *)
Theorem X12_stats_after_enqueue (video_path title description : string)
    (tags : list string) (scheduled_time : option Z) (st : Scheduler.state) :
  let before := Scheduler.get_queue_stats st in
  let after :=
    Scheduler.get_queue_stats
      (fst (Scheduler.add_to_queue clock disk_writable video_path title
              description tags scheduled_time st)) in
  Scheduler.total after = (Scheduler.total before + 1)%Z
  /\ Scheduler.pending after = (Scheduler.pending before + 1)%Z
  /\ Scheduler.uploaded after = Scheduler.uploaded before
  /\ Scheduler.failed after = Scheduler.failed before.
Proof.
  intros before after. subst before after.
  destruct (add_to_queue_queue clock disk_writable video_path title description
              tags scheduled_time st) as (e & Hq & Hs & _).
  rewrite !stats_of_counts, Hq, !count_status_app, length_app.
  rewrite !count_status_single, Hs.
  cbn [String.eqb Ascii.eqb Bool.eqb length
       Scheduler.total Scheduler.pending Scheduler.uploaded Scheduler.failed].
  repeat split; lia.
Qed.

Lemma purge_keeps_status (s : string) (cutoff : Z) (q : list Scheduler.QueueEntry) :
  s <> "uploaded" ->
  List.filter (fun v => String.eqb (Scheduler.status v) s)
    (List.filter (fun v => negb (Scheduler.purgeable cutoff v)) q)
  = List.filter (fun v => String.eqb (Scheduler.status v) s) q.
Proof.
  intros Hs. induction q as [| v q IH]; [reflexivity |].
  cbn [List.filter]. unfold Scheduler.purgeable at 1.
  destruct (String.eqb_spec (Scheduler.status v) "uploaded") as [E | NE].
  - replace (String.eqb (Scheduler.status v) s) with false
      by (symmetry; apply String.eqb_neq; congruence).
    destruct (negb _); cbn [List.filter];
      [replace (String.eqb (Scheduler.status v) s) with false
         by (symmetry; apply String.eqb_neq; congruence) |];
      exact IH.
  - cbn [andb negb List.filter]. rewrite IH. reflexivity.
Qed.

Lemma purge_uploaded_split (cutoff : Z) (q : list Scheduler.QueueEntry) :
  Scheduler.count_status "uploaded" q
  = (Scheduler.count_status "uploaded"
       (List.filter (fun v => negb (Scheduler.purgeable cutoff v)) q)
     + Z.of_nat (length (List.filter (Scheduler.purgeable cutoff) q)))%Z.
Proof.
  unfold Scheduler.count_status. induction q as [| v q IH]; [reflexivity |].
  cbn [List.filter].
  destruct (Scheduler.purgeable cutoff v) eqn:P; cbn [negb List.filter].
  - assert (E : String.eqb (Scheduler.status v) "uploaded" = true).
    { unfold Scheduler.purgeable in P. apply andb_true_iff in P. tauto. }
    rewrite E. cbn [length]. lia.
  - destruct (String.eqb (Scheduler.status v) "uploaded"); cbn [length]; lia.
Qed.

(** X13: a purge (with a clock that does not run backwards and a retention
    of zero or more days) leaves the ['pending'] and ['failed'] counts of the
    statistics as they are and lowers ['uploaded'] and ['total'] by the
    number it returns. *)
Theorem X13_stats_after_purge (older_than_days : Z) (st : Scheduler.state) :
  (forall k : nat, (clock k <= clock (S k))%Z) ->
  (0 <= older_than_days)%Z ->
  let run := Scheduler.clear_completed clock disk_writable older_than_days st in
  let before := Scheduler.get_queue_stats st in
  let after := Scheduler.get_queue_stats (fst run) in
  (0 <= snd run)%Z
  /\ Scheduler.pending after = Scheduler.pending before
  /\ Scheduler.failed after = Scheduler.failed before
  /\ Scheduler.uploaded after = (Scheduler.uploaded before - snd run)%Z
  /\ Scheduler.total after = (Scheduler.total before - snd run)%Z.
Proof.
  intros Hmono Hdays run before after. subst before after.
  set (cutoff := (clock (Scheduler.clock_reads st)
                  - Scheduler.timedelta_days older_than_days)%Z).
  assert (Hclock : forall k, (S (Scheduler.clock_reads st) <= k)%nat ->
                             (cutoff <= clock k)%Z).
  { intros k Hk.
    assert (Hge : forall n m, (clock n <= clock (n + m))%Z).
    { intros n m. induction m as [| m IHm]; [rewrite Nat.add_0_r; lia |].
      rewrite Nat.add_succ_r. specialize (Hmono (n + m)%nat). lia. }
    specialize (Hge (Scheduler.clock_reads st) (k - Scheduler.clock_reads st)%nat).
    replace (Scheduler.clock_reads st + (k - Scheduler.clock_reads st))%nat
      with k in Hge by lia.
    unfold cutoff, Scheduler.timedelta_days. lia. }
  assert (Hq : Scheduler.queue (fst run)
               = List.filter (fun video => negb (Scheduler.purgeable cutoff video))
                   (Scheduler.queue st)).
  { unfold run. rewrite clear_completed_queue. apply purge_filter, Hclock. }
  assert (Hsnd : snd run = (Z.of_nat (length (Scheduler.queue st))
                            - Z.of_nat (length (Scheduler.queue (fst run))))%Z).
  { unfold run. rewrite clear_completed_queue. unfold Scheduler.clear_completed.
    destruct (Scheduler.purge clock _ _ _) as [kept reads].
    destruct (0 <? _)%Z; reflexivity. }
  pose proof (List.filter_length (Scheduler.purgeable cutoff) (Scheduler.queue st))
    as Hlen.
  pose proof (purge_uploaded_split cutoff (Scheduler.queue st)) as Hup.
  assert (Hkeep : forall s, s <> "uploaded" ->
            Scheduler.count_status s
              (List.filter (fun video => negb (Scheduler.purgeable cutoff video))
                 (Scheduler.queue st))
            = Scheduler.count_status s (Scheduler.queue st)).
  { intros s Hs. unfold Scheduler.count_status.
    rewrite purge_keeps_status by exact Hs. reflexivity. }
  rewrite !stats_of_counts, Hsnd, Hq.
  cbn [Scheduler.total Scheduler.pending Scheduler.uploaded Scheduler.failed].
  rewrite (Hkeep "pending"), (Hkeep "failed"), (Hkeep "total") by discriminate.
  repeat split; lia.
Qed.

End QueueStatisticsFollow.

Lemma X13_stats_after_purge_witness :
  let day := 86400000000%Z in
  let clock := fun k : nat => (100 * day + Z.of_nat k)%Z in
  let old_upload :=
    Scheduler.set_uploaded "yt1" day (Scheduler.example_entry "1" "pending") in
  let st := {| Scheduler.queue :=
                 [old_upload; Scheduler.example_entry "2" "pending";
                  Scheduler.example_entry "3" "failed"];
               Scheduler.queue_file := None;
               Scheduler.clock_reads := 0 |} in
  Scheduler.pending
    (Scheduler.get_queue_stats (fst (Scheduler.clear_completed clock true 7 st)))
  = 1%Z.
Proof.
  intros day clock old_upload st.
  destruct (X13_stats_after_purge clock true 7 st
              ltac:(intros k; unfold clock; lia) ltac:(lia))
    as (_ & H & _).
  exact H.
Defined.

Section QueueFile.

Variable clock : nat -> Z.

Lemma purge_length (q : list Scheduler.QueueEntry) (cutoff : Z) (reads : nat) :
  (length (fst (Scheduler.purge clock q cutoff reads)) <= length q)%nat
  /\ (length (fst (Scheduler.purge clock q cutoff reads)) = length q ->
      fst (Scheduler.purge clock q cutoff reads) = q).
Proof.
  revert reads. induction q as [| v q IH]; intros reads; [split; reflexivity |].
  cbn [Scheduler.purge].
  destruct (String.eqb (Scheduler.status v) "uploaded").
  - specialize (IH (S reads)).
    destruct (Scheduler.purge clock q cutoff (S reads)) as [kept reads'].
    cbn [fst] in IH. destruct IH as [Hle Heq].
    destruct (_ <? cutoff)%Z; cbn [fst length].
    + split; [lia | intros H; lia].
    + split; [lia |]. intros H. f_equal. apply Heq. lia.
  - specialize (IH reads).
    destruct (Scheduler.purge clock q cutoff reads) as [kept reads'].
    cbn [fst length] in *. destruct IH as [Hle Heq].
    split; [lia |]. intros H. f_equal. apply Heq. lia.
Qed.

(** X14: while the queue file can be written, it is up to date after
    every operation that changes the queue: what [add_to_queue], a
    [mark_uploaded] or [mark_failed] that found its entry, and a
    [clear_completed] that removed something leave in the file is the
    dump of the queue they leave in memory; and an operation that changes
    nothing ([mark_] without a match, a purge that removes nothing)
    leaves a file that was up to date up to date. *)
Theorem X14_queue_file_is_up_to_date (st : Scheduler.state)
    (video_path title description video_id youtube err : string)
    (tags : list string) (scheduled_time : option Z) (older_than_days : Z) :
  let added :=
    Scheduler.add_to_queue clock true video_path title description tags
      scheduled_time st in
  let up := Scheduler.mark_uploaded clock true video_id youtube st in
  let down := Scheduler.mark_failed clock true video_id err st in
  let purged := Scheduler.clear_completed clock true older_than_days st in
  Scheduler.saved (fst added)
  /\ (snd up = true -> Scheduler.saved (fst up))
  /\ (snd down = true -> Scheduler.saved (fst down))
  /\ ((0 < snd purged)%Z -> Scheduler.saved (fst purged))
  /\ (Scheduler.saved st ->
      Scheduler.saved (fst up) /\ Scheduler.saved (fst down)
      /\ Scheduler.saved (fst purged)).
Proof.
  intros added up down purged. subst added up down purged.
  unfold Scheduler.saved.
  split; [| split; [| split; [| split]]].
  - unfold Scheduler.add_to_queue, Scheduler._save_queue.
    destruct scheduled_time; reflexivity.
  - unfold Scheduler.mark_uploaded, Scheduler._save_queue.
    destruct (Scheduler.update_first _ _ _); [reflexivity | discriminate].
  - unfold Scheduler.mark_failed, Scheduler._save_queue.
    destruct (Scheduler.update_first _ _ _); [reflexivity | discriminate].
  - unfold Scheduler.clear_completed, Scheduler._save_queue.
    destruct (Scheduler.purge clock _ _ _) as [kept reads].
    destruct (0 <? _)%Z eqn:E; cbn [fst snd]; [reflexivity |].
    apply Z.ltb_ge in E. lia.
  - intros Hm. split; [| split].
    + unfold Scheduler.mark_uploaded, Scheduler._save_queue.
      destruct (Scheduler.update_first _ _ _); [reflexivity | exact Hm].
    + unfold Scheduler.mark_failed, Scheduler._save_queue.
      destruct (Scheduler.update_first _ _ _); [reflexivity | exact Hm].
    + unfold Scheduler.clear_completed, Scheduler._save_queue.
      pose proof (purge_length (Scheduler.queue st)
                    (clock (Scheduler.clock_reads st)
                     - Scheduler.timedelta_days older_than_days)
                    (S (Scheduler.clock_reads st))) as [Hle Heq].
      destruct (Scheduler.purge clock _ _ _) as [kept reads].
      cbn [fst] in Hle, Heq.
      destruct (0 <? _)%Z eqn:E; cbn [fst Scheduler.queue Scheduler.queue_file];
        [reflexivity |].
      apply Z.ltb_ge in E. rewrite Hm. f_equal.
      symmetry. apply Heq. lia.
Qed.

(** X15: the result of [_save_queue] is never looked at. When the queue
    file cannot be written, [add_to_queue] and a [mark_uploaded] or
    [mark_failed] that finds its entry still report success and change
    the queue in memory, and the file keeps its old content: a scheduler
    started afterwards does not see the change. *)
Theorem X15_failed_save_goes_unnoticed (st : Scheduler.state)
    (video_path title description video_id youtube err : string)
    (tags : list string) (scheduled_time : option Z) (i : nat) :
  Scheduler.find_first video_id (Scheduler.queue st) = Some i ->
  let added :=
    Scheduler.add_to_queue clock false video_path title description tags
      scheduled_time st in
  let up := Scheduler.mark_uploaded clock false video_id youtube st in
  let down := Scheduler.mark_failed clock false video_id err st in
  snd added = true
  /\ length (Scheduler.queue (fst added)) = S (length (Scheduler.queue st))
  /\ Scheduler._load_queue (fst added) = Scheduler._load_queue st
  /\ snd up = true
  /\ (Scheduler.status <$> Scheduler.queue (fst up)) !! i = Some "uploaded"
  /\ Scheduler._load_queue (fst up) = Scheduler._load_queue st
  /\ snd down = true
  /\ (Scheduler.status <$> Scheduler.queue (fst down)) !! i = Some "failed"
  /\ Scheduler._load_queue (fst down) = Scheduler._load_queue st.
Proof.
  intros Hi added up down. subst added up down.
  destruct (find_first_Some _ _ _ Hi) as [(video & Hv & _) _].
  assert (Hlt : (i < length (Scheduler.queue st))%nat)
    by (eapply lookup_lt_Some, Hv).
  split; [unfold Scheduler.add_to_queue; destruct scheduled_time; reflexivity |].
  split.
  { unfold Scheduler.add_to_queue, Scheduler._save_queue.
    destruct scheduled_time; cbn [fst Scheduler.queue];
      rewrite length_app; cbn [length]; lia. }
  split.
  { unfold Scheduler.add_to_queue, Scheduler._save_queue.
    destruct scheduled_time; reflexivity. }
  unfold Scheduler.mark_uploaded, Scheduler.mark_failed, Scheduler._save_queue.
  rewrite !update_first_insert, Hi, Hv. cbn [fst snd Scheduler.queue].
  repeat split.
  - rewrite list_lookup_fmap, list_lookup_insert_eq by exact Hlt. reflexivity.
  - rewrite list_lookup_fmap, list_lookup_insert_eq by exact Hlt. reflexivity.
Qed.

End QueueFile.

Lemma X15_failed_save_goes_unnoticed_witness :
  let clock := fun k : nat => (1700000000000000 + Z.of_nat k)%Z in
  let st := {| Scheduler.queue := [Scheduler.example_entry "1" "pending"];
               Scheduler.queue_file := Some [Scheduler.example_entry "1" "pending"];
               Scheduler.clock_reads := 0 |} in
  Scheduler._load_queue (fst (Scheduler.mark_uploaded clock false "1" "yt1" st))
  = [Scheduler.example_entry "1" "pending"].
Proof.
  intros clock st.
  destruct (X15_failed_save_goes_unnoticed clock st "a.mp4" "A" "a" "1" "yt1"
              "quota" [] None 0 eq_refl)
    as (_ & _ & _ & _ & _ & H & _).
  exact H.
Defined.

Section Batch.

Variable clock : nat -> Z.
Variable disk_writable : bool.
Variable path_str : string -> string.

Lemma complete_prefix_all (videos : list Scheduler.BatchVideo) :
  forallb Scheduler.complete videos = true ->
  Scheduler.complete_prefix videos = videos.
Proof.
  induction videos as [| v videos IH]; [reflexivity |].
  cbn [forallb Scheduler.complete_prefix]. intros H.
  apply andb_prop in H as [-> H]. rewrite (IH H). reflexivity.
Qed.

Lemma schedule_loop_queue (interval_hours current_time : Z)
    (videos : list Scheduler.BatchVideo) :
  forall (i : nat) (st : Scheduler.state),
  let run :=
    Scheduler.schedule_loop clock disk_writable path_str videos i current_time
      interval_hours st in
  snd run = forallb Scheduler.complete videos
  /\ exists new : list Scheduler.QueueEntry,
    Scheduler.queue (fst run) = Scheduler.queue st ++ new
    /\ length new = length (Scheduler.complete_prefix videos)
    /\ Forall (fun e => Scheduler.status e = "pending") new
    /\ forall (k : nat) (video : Scheduler.BatchVideo),
         Scheduler.complete_prefix videos !! k = Some video ->
         exists e : Scheduler.QueueEntry,
           new !! k = Some e
           /\ Scheduler.scheduled_time e
              = (current_time
                 + Scheduler.timedelta_hours (Z.of_nat (i + k) * interval_hours))%Z
           /\ Some (Scheduler.video_path e)
              = path_str <$> Scheduler.b_video_path video
           /\ Some (Scheduler.title e) = Scheduler.b_title video
           /\ Some (Scheduler.description e) = Scheduler.b_description video
           /\ Some (Scheduler.tags e) = Scheduler.b_tags video.
Proof.
  induction videos as [| v videos IH]; intros i st run; subst run.
  - cbn [Scheduler.schedule_loop forallb Scheduler.complete_prefix fst snd].
    split; [reflexivity |]. exists []. rewrite app_nil_r.
    split; [reflexivity |]. split; [reflexivity |]. split; [constructor |].
    intros k video Hk. rewrite lookup_nil in Hk. discriminate Hk.
  - cbn [Scheduler.schedule_loop forallb Scheduler.complete_prefix].
    destruct (Scheduler.b_video_path v) as [p |] eqn:Ep;
      [destruct (Scheduler.b_title v) as [t |] eqn:Et;
        [destruct (Scheduler.b_description v) as [d |] eqn:Ed;
          [destruct (Scheduler.b_tags v) as [g |] eqn:Eg |] |] |].
    2-5: assert (Hc : Scheduler.complete v = false)
      by (unfold Scheduler.complete; rewrite Ep, ?Et, ?Ed, ?Eg; reflexivity);
      rewrite Hc; cbn [fst snd andb length]; split; [reflexivity |]; exists [];
      rewrite app_nil_r; split; [reflexivity |]; split; [reflexivity |];
      split; [apply Forall_nil; exact I |]; intros k video Hk;
      rewrite lookup_nil in Hk; discriminate Hk.
    assert (Hc : Scheduler.complete v = true)
      by (unfold Scheduler.complete; rewrite Ep, Et, Ed, Eg; reflexivity).
    rewrite Hc. cbn [andb].
    destruct (add_to_queue_queue clock disk_writable (path_str p) t d g
                (Some (current_time
                       + Scheduler.timedelta_hours (Z.of_nat i * interval_hours))%Z)
                st)
      as (e & Hq & Hs & _ & Ht & Hp & Hti & Hd & Hg & _).
    destruct (IH (S i) (fst (Scheduler.add_to_queue clock disk_writable
                               (path_str p) t d g
                               (Some (current_time
                                      + Scheduler.timedelta_hours
                                          (Z.of_nat i * interval_hours))%Z) st)))
      as (Hres & new & Hnew & Hlen & Hpend & Hall).
    split; [exact Hres |].
    exists (e :: new). rewrite Hnew, Hq, <- app_assoc.
    split; [reflexivity |]. split; [cbn [length]; lia |].
    split; [constructor; assumption |].
    intros [| k] video Hk.
    + injection Hk as <-. exists e. rewrite Nat.add_0_r, Ep, Et, Ed, Eg.
      cbn [fmap option_fmap option_map]. rewrite Hp, Hti, Hd, Hg.
      repeat split; assumption.
    + destruct (Hall k video Hk) as (e' & He' & Hrest).
      exists e'. split; [exact He' |].
      replace (i + S k)%nat with (S i + k)%nat by lia. exact Hrest.
Qed.

(** X16: [schedule_batch] returns [True] exactly when every dictionary
    of the batch has the four keys ['video_path'], ['title'],
    ['description'] and ['tags']. It appends one pending entry for each
    dictionary that stands before the first incomplete one, in the order
    of the batch, so a batch that fails half-way has enqueued its
    beginning; entry [k] is scheduled [k * interval_hours] hours after the
    moment the call read the clock, and its path is the text that pathlib
    makes of the given one. *)
Theorem X16_batch_schedule (videos : list Scheduler.BatchVideo)
    (interval_hours : Z) (st : Scheduler.state) :
  let run :=
    Scheduler.schedule_batch clock disk_writable path_str videos
      interval_hours st in
  let enqueued := Scheduler.complete_prefix videos in
  snd run = forallb Scheduler.complete videos
  /\ (snd run = true -> enqueued = videos)
  /\ exists new : list Scheduler.QueueEntry,
       Scheduler.queue (fst run) = Scheduler.queue st ++ new
       /\ length new = length enqueued
       /\ forall (k : nat) (video : Scheduler.BatchVideo),
            enqueued !! k = Some video ->
            exists e : Scheduler.QueueEntry,
              new !! k = Some e
              /\ Scheduler.status e = "pending"
              /\ Scheduler.scheduled_time e
                 = (clock (Scheduler.clock_reads st)
                    + Z.of_nat k * interval_hours * 3600000000)%Z
              /\ Some (Scheduler.title e) = Scheduler.b_title video
              /\ Some (Scheduler.video_path e)
                 = path_str <$> Scheduler.b_video_path video.
Proof.
  intros run enqueued. subst run enqueued. unfold Scheduler.schedule_batch.
  destruct (schedule_loop_queue interval_hours (clock (Scheduler.clock_reads st))
              videos 0
              {| Scheduler.queue := Scheduler.queue st;
                 Scheduler.queue_file := Scheduler.queue_file st;
                 Scheduler.clock_reads := S (Scheduler.clock_reads st) |})
    as (Hres & new & Hq & Hlen & Hpend & Hall).
  split; [exact Hres |].
  split; [rewrite Hres; apply complete_prefix_all |].
  exists new. split; [exact Hq |]. split; [exact Hlen |].
  intros k video Hk.
  destruct (Hall k video Hk) as (e & He & Ht & Hp & Hti & _).
  exists e. split; [exact He |].
  split; [exact (proj1 (Forall_lookup _ _) Hpend k e He) |].
  split; [| split; assumption].
  rewrite Ht. unfold Scheduler.timedelta_hours. cbn [Nat.add]. reflexivity.
Qed.

End Batch.

(** ** video_assembly/editor.py: the compositor *)

Section SubtitlePath.

(** X17: in the subtitle path that [assemble_video] hands to the [ass]
    filter, every colon stands behind a backslash and every backslash
    before a colon: the backslashes of the path have become slashes and
    only the escapes of the colons remain. *)
Theorem X17_subtitle_path_is_escaped (subtitle_path : string) :
  Editor.colons_escaped (Editor.escape_path subtitle_path) = true.
Proof.
  unfold Editor.escape_path.
  induction subtitle_path as [| c rest IH]; [reflexivity |].
  cbn [Editor.replace_char].
  destruct (Ascii.eqb c Editor.backslash) eqn:Eb.
  - change ("/" +:+ Editor.replace_char Editor.backslash "/" rest)
      with (String "/" (Editor.replace_char Editor.backslash "/" rest)).
    cbn [Editor.replace_char].
    change (Ascii.eqb "/" Editor.colon) with false. cbn iota.
    cbn [Editor.colons_escaped].
    change (Ascii.eqb "/" Editor.backslash) with false.
    change (Ascii.eqb "/" Editor.colon) with false. cbn iota. exact IH.
  - cbn [Editor.replace_char].
    destruct (Ascii.eqb c Editor.colon) eqn:Ec.
    + change (String Editor.backslash (String Editor.colon "") +:+ ?x)
        with (String Editor.backslash (String Editor.colon x)).
      cbn [Editor.colons_escaped String.append].
      change (Ascii.eqb Editor.backslash Editor.backslash) with true.
      change (Ascii.eqb Editor.colon Editor.colon) with true.
      cbn [andb]. exact IH.
    + cbn [Editor.colons_escaped]. rewrite Eb, Ec. exact IH.
Qed.

End SubtitlePath.

Lemma voice_passes_through (TEMP_DIR : string) (path_exists : string -> bool)
    (ffmpeg : list string -> Editor.process) (float_str : Q -> string)
    (voice_path : string) (music_path output_path : option string)
    (voice_volume music_volume : Q) :
  music_path = None
  \/ (exists music, music_path = Some music /\ path_exists music = false) ->
  Editor.mix_audio TEMP_DIR path_exists ffmpeg float_str voice_path music_path
    output_path voice_volume music_volume
  = ([], Some voice_path).
Proof.
  intros [-> | (music & -> & Hmissing)]; unfold Editor.mix_audio;
    [| rewrite Hmissing]; reflexivity.
Qed.

Section CompleteVideo.

Variable TEMP_DIR : string.
Variable str_upper : string -> string.
Variable to_ass : Editor.SSAFile -> string.
Variable can_write : string -> bool.
Variable ffmpeg : list string -> Editor.process.
Variable float_str : Q -> string.
Variable VIDEO_WIDTH VIDEO_HEIGHT VIDEO_FPS : Z.
Variable VOICE_VOLUME BACKGROUND_MUSIC_VOLUME : Q.

Abbreviation create_complete_video :=
  (Editor.create_complete_video TEMP_DIR str_upper to_ass can_write ffmpeg
     float_str VIDEO_WIDTH VIDEO_HEIGHT VIDEO_FPS VOICE_VOLUME
     BACKGROUND_MUSIC_VOLUME).
Abbreviation assemble_cmd :=
  (Editor.assemble_cmd float_str VIDEO_WIDTH VIDEO_HEIGHT VIDEO_FPS).
Abbreviation subtitles :=
  (Editor.create_animated_subtitles TEMP_DIR str_upper to_ass can_write).

Lemma assemble_video_result (disk : gmap string string)
    (video_path audio_path : string) (subtitle_path : option string)
    (output_path : string) (duration : option Q) :
  let cmd := assemble_cmd disk video_path audio_path subtitle_path output_path
               duration in
  Editor.assemble_video ffmpeg float_str VIDEO_WIDTH VIDEO_HEIGHT VIDEO_FPS disk
    video_path
    audio_path subtitle_path output_path duration
  = ([cmd], match ffmpeg cmd with
            | Editor.Exited 0 => Some output_path
            | _ => None
            end).
Proof.
  intros cmd. unfold Editor.assemble_video. fold cmd.
  destruct (ffmpeg cmd) as [[| p | p] |]; reflexivity.
Qed.

(** X18: [create_complete_video] without usable music (none given, or the
    given path not on disk) runs FFmpeg exactly once, for the assembly,
    with the voice track itself as the audio input and with the captions
    that were written, and it returns the output path exactly when that
    run exits with code 0. *)
Theorem X18_complete_video_without_music (background_video voice_audio : string)
    (background_music : option string) (word_timestamps : list TTS.WordTiming)
    (output_path : string) (target_duration : option Q)
    (disk : gmap string string) :
  let written := subtitles word_timestamps None disk in
  let cmd := assemble_cmd (fst written) background_video voice_audio
               (snd written) output_path target_duration in
  background_music = None
  \/ (exists music, background_music = Some music
                    /\ Editor.on_disk (fst written) music = false) ->
  create_complete_video background_video voice_audio background_music
    word_timestamps output_path target_duration disk
  = (fst written, [cmd],
     match ffmpeg cmd with
     | Editor.Exited 0 => Some output_path
     | _ => None
     end).
Proof.
  intros written cmd Hmusic. unfold Editor.create_complete_video.
  fold written. destruct written as [disk' sub] eqn:Ew. cbn [fst snd] in *.
  rewrite (voice_passes_through TEMP_DIR (Editor.on_disk disk') ffmpeg float_str
             voice_audio background_music None VOICE_VOLUME
             BACKGROUND_MUSIC_VOLUME Hmusic).
  rewrite assemble_video_result. reflexivity.
Qed.

Lemma mix_audio_runs (path_exists : string -> bool) (voice_path : string)
    (music_path output_path : option string) (voice_volume music_volume : Q) :
  let mixed := Editor.mix_audio TEMP_DIR path_exists ffmpeg float_str voice_path
                 music_path output_path voice_volume music_volume in
  (length (fst mixed) <= 1)%nat
  /\ (snd mixed = None -> length (fst mixed) = 1%nat).
Proof.
  unfold Editor.mix_audio. destruct music_path as [music |].
  - destruct (path_exists music); cbn [negb].
    + destruct (ffmpeg _) as [[| p | p] |]; cbn; split; (lia || discriminate || reflexivity).
    + cbn. split; [lia | discriminate].
  - cbn. split; [lia | discriminate].
Qed.

(** X19: in [create_complete_video] the captions are best effort and the
    mix is required. FFmpeg is run at most twice. When the mix gives no
    result, the call ends there: FFmpeg has run once, the assembly is
    never started and there is no result. When the subtitle file cannot
    be written, the disk is left as it is and the call goes on to the
    assembly without captions. A result, when there is one, is the output
    path, and the last FFmpeg run has then exited with code 0. *)
Theorem X19_complete_video_stages (background_video voice_audio : string)
    (background_music : option string) (word_timestamps : list TTS.WordTiming)
    (output_path : string) (target_duration : option Q)
    (disk : gmap string string) :
  let run := create_complete_video background_video voice_audio background_music
               word_timestamps output_path target_duration disk in
  let written := subtitles word_timestamps None disk in
  let mixed := Editor.mix_audio TEMP_DIR (Editor.on_disk (fst written)) ffmpeg
                 float_str voice_audio background_music None VOICE_VOLUME
                 BACKGROUND_MUSIC_VOLUME in
  (length (snd (fst run)) <= 2)%nat
  /\ (snd mixed = None ->
      snd run = None /\ snd (fst run) = fst mixed
      /\ length (snd (fst run)) = 1%nat)
  /\ (can_write (Py.path_join TEMP_DIR "subtitles.ass") = false ->
      fst (fst run) = disk
      /\ forall audio, snd mixed = Some audio ->
           snd (fst run)
           = fst mixed ++ [assemble_cmd disk background_video audio None
                             output_path target_duration])
  /\ (forall p, snd run = Some p ->
        p = output_path
        /\ exists cmd, last (snd (fst run)) = Some cmd
                       /\ ffmpeg cmd = Editor.Exited 0).
Proof.
  intros run written mixed. subst run. unfold Editor.create_complete_video.
  fold written. fold (Editor.on_disk (fst written)).
  assert (Hw : written = (fst written, snd written)) by (destruct written; reflexivity).
  rewrite Hw. fold mixed.
  assert (Hm : mixed = (fst mixed, snd mixed)) by (destruct mixed; reflexivity).
  rewrite Hm.
  pose proof (mix_audio_runs (Editor.on_disk (fst written)) voice_audio
                background_music None VOICE_VOLUME BACKGROUND_MUSIC_VOLUME)
    as [Hle Hone].
  fold mixed in Hle, Hone.
  destruct (snd mixed) as [audio |] eqn:Ea.
  - rewrite assemble_video_result. cbn [fst snd].
    split; [rewrite length_app; cbn [length]; lia |].
    split; [discriminate |].
    split.
    + intros Hcw. unfold written, Editor.create_animated_subtitles.
      cbn [from_option id]. rewrite Hcw. cbn [fst snd].
      split; [reflexivity |]. intros a [= <-]. reflexivity.
    + intros p Hp. rewrite last_snoc.
      destruct (ffmpeg _) as [[| q | q] |] eqn:Ef; try discriminate Hp.
      injection Hp as <-. split; [reflexivity |]. eexists. split; [reflexivity | exact Ef].
  - cbn [fst snd]. split; [lia |].
    split; [intros _; split; [reflexivity | split; [reflexivity | apply Hone; reflexivity]] |].
    split.
    + intros Hcw. unfold written, Editor.create_animated_subtitles.
      cbn [from_option id]. rewrite Hcw. cbn [fst snd].
      split; [reflexivity |]. discriminate.
    + discriminate.
Qed.

End CompleteVideo.

Lemma X18_complete_video_without_music_witness :
  let ffmpeg := fun _ : list string => Editor.Exited 0 in
  snd (Editor.create_complete_video "temp" Py.ascii_upper (fun _ => "")
         (fun _ => true) ffmpeg (fun _ => "1.0") 1080 1920 30 1 (1 # 5)
         "background.mp4" "narration.wav" None
         (TTS._generate_dummy_timestamps "three hearts" (Some 1%Q))
         "final.mp4" (Some 1%Q) ∅)
  = Some "final.mp4".
Proof.
  intros ffmpeg.
  rewrite (X18_complete_video_without_music "temp" Py.ascii_upper (fun _ => "")
             (fun _ => true) ffmpeg (fun _ => "1.0") 1080 1920 30 1 (1 # 5)
             "background.mp4" "narration.wav" None
             (TTS._generate_dummy_timestamps "three hearts" (Some 1%Q))
             "final.mp4" (Some 1%Q) ∅ (or_introl eq_refl)).
  reflexivity.
Defined.

(** ** publishing/scheduler.py: marked entries and the due list *)

Section MarkedIsNotDue.

Variable clock : nat -> Z.
Variable disk_writable : bool.

Lemma due_after_update (q : list Scheduler.QueueEntry) (i : nat)
    (old new e : Scheduler.QueueEntry) (now : Z) :
  NoDup (Scheduler.id <$> q) ->
  q !! i = Some old ->
  Scheduler.id new = Scheduler.id old ->
  Scheduler.status new <> "pending" ->
  e ∈ Scheduler.pending_loop (<[i := new]> q) now ->
  Scheduler.id e <> Scheduler.id old.
Proof.
  intros Hnd Hold Hid Hst He. rewrite pending_loop_filter in He.
  apply list_elem_of_In, filter_In in He as [He Hdue].
  apply list_elem_of_In, list_elem_of_lookup in He as [j Hj].
  unfold Scheduler.due in Hdue. apply andb_true_iff in Hdue as [Hp _].
  apply String.eqb_eq in Hp.
  destruct (decide (i = j)) as [-> | Hne].
  - rewrite list_lookup_insert_eq in Hj by (eapply lookup_lt_Some, Hold).
    injection Hj as <-. contradiction.
  - rewrite list_lookup_insert_ne in Hj by exact Hne.
    intros Heq. apply Hne.
    eapply (NoDup_lookup (Scheduler.id <$> q) i j (Scheduler.id old)); [exact Hnd | |].
    + rewrite list_lookup_fmap, Hold. reflexivity.
    + rewrite list_lookup_fmap, Hj. cbn. rewrite Heq. reflexivity.
Qed.

(** X20: in a queue whose ids are all different, an entry that
    [mark_uploaded] or [mark_failed] has marked is no longer handed out:
    the next [get_pending_uploads] returns no entry of that id. *)
Theorem X20_marked_entry_is_not_due (video_id youtube err : string)
    (st : Scheduler.state) :
  NoDup (Scheduler.id <$> Scheduler.queue st) ->
  let up := Scheduler.mark_uploaded clock disk_writable video_id youtube st in
  let down := Scheduler.mark_failed clock disk_writable video_id err st in
  (snd up = true ->
   forall e, e ∈ snd (Scheduler.get_pending_uploads clock (fst up)) ->
             Scheduler.id e <> video_id)
  /\ (snd down = true ->
      forall e, e ∈ snd (Scheduler.get_pending_uploads clock (fst down)) ->
                Scheduler.id e <> video_id).
Proof.
  intros Hnd up down. subst up down.
  destruct (Scheduler.find_first video_id (Scheduler.queue st)) as [i |] eqn:Hi.
  - destruct (mark_uploaded_found clock disk_writable video_id youtube st i Hi)
      as (video & Hv & Hid & _ & Hq1).
    destruct (mark_failed_found clock disk_writable video_id err st i Hi)
      as (video' & Hv' & _ & _ & Hq2).
    assert (video' = video) by congruence. subst video'.
    split; intros _ e He; unfold Scheduler.get_pending_uploads in He;
      cbn [snd] in He; rewrite <- Hid.
    + rewrite Hq1 in He.
      eapply (due_after_update _ i video _ e _ Hnd Hv); [| | exact He];
        [reflexivity | discriminate].
    + rewrite Hq2 in He.
      eapply (due_after_update _ i video _ e _ Hnd Hv); [| | exact He];
        [reflexivity | discriminate].
  - unfold Scheduler.mark_uploaded, Scheduler.mark_failed.
    rewrite !update_first_insert, Hi. cbn [snd]. split; discriminate.
Qed.

End MarkedIsNotDue.

Lemma X20_marked_entry_is_not_due_witness :
  let clock := fun k : nat => (1700000000000000 + Z.of_nat k)%Z in
  let st := {| Scheduler.queue :=
                 [Scheduler.example_entry "1" "pending";
                  Scheduler.example_entry "2" "pending"];
               Scheduler.queue_file := None;
               Scheduler.clock_reads := 0 |} in
  snd (Scheduler.get_pending_uploads clock
         (fst (Scheduler.mark_uploaded clock true "1" "yt1" st)))
  = [Scheduler.example_entry "2" "pending"]
  /\ Scheduler.id (Scheduler.example_entry "2" "pending") <> "1".
Proof.
  intros clock st. split; [reflexivity |].
  assert (Hnd : NoDup (Scheduler.id <$> Scheduler.queue st)).
  { cbn. apply NoDup_cons. split; [| apply NoDup_singleton].
    intros H. apply list_elem_of_singleton in H. discriminate H. }
  apply (proj1 (X20_marked_entry_is_not_due clock true "1" "yt1" "quota" st Hnd)
           eq_refl).
  apply list_elem_of_In. left. reflexivity.
Defined.

(** ** narration/voice_manager.py *)

Section VoiceProfiles.

Lemma known_voice_cases (voice_id : string) :
  Voices.dict_get Voices.VOICES voice_id = None
  \/ voice_id = "default" \/ voice_id = "energetic"
  \/ voice_id = "calm" \/ voice_id = "authoritative".
Proof.
  unfold Voices.VOICES. cbn [Voices.dict_get].
  destruct (String.eqb_spec "default" voice_id); [auto |].
  destruct (String.eqb_spec "energetic" voice_id); [auto |].
  destruct (String.eqb_spec "calm" voice_id); [auto 6 |].
  destruct (String.eqb_spec "authoritative" voice_id); [auto 6 |].
  left. reflexivity.
Qed.

(** X21: the settings that [get_voice_settings] returns always pass
    [validate_voice_config], for every voice id (known or unknown, given or
    not) and every current voice: all three keys are there and within the
    ranges of the validator. *)
Theorem X21_voice_settings_are_valid (current_voice : string)
    (voice_id : option string) :
  Voices.validate_voice_config (Voices.get_voice_settings current_voice voice_id)
  = true.
Proof.
  unfold Voices.get_voice_settings.
  set (v := match voice_id with
            | Some v => if Py.str_truthy v then v else current_voice
            | None => current_voice
            end).
  unfold Voices.get_voice.
  destruct (known_voice_cases v) as [E | [E | [E | [E | E]]]]; rewrite E; reflexivity.
Qed.

(** X22: [set_voice] accepts exactly the four known voice ids; after any
    sequence of [set_voice] calls, starting from the initial voice
    ['default'], the current voice is a known one, so [get_current_voice]
    finds its profile and never raises. *)
Theorem X22_current_voice_is_known (calls : list string) :
  let current := fold_left (fun cur v => fst (Voices.set_voice v cur)) calls "default" in
  (exists profile, Voices.get_current_voice current = Py.Return profile
                   /\ Voices.voice_id profile = current)
  /\ forall v cur, snd (Voices.set_voice v cur) = true <->
                   v = "default" \/ v = "energetic" \/ v = "calm"
                   \/ v = "authoritative".
Proof.
  intros current. split.
  - assert (Hinv : forall cur,
              (exists p, Voices.get_current_voice cur = Py.Return p
                         /\ Voices.voice_id p = cur) ->
              exists p,
                Voices.get_current_voice
                  (fold_left (fun cur v => fst (Voices.set_voice v cur)) calls cur)
                = Py.Return p
                /\ Voices.voice_id p
                   = fold_left (fun cur v => fst (Voices.set_voice v cur)) calls cur).
    { induction calls as [| v calls IH]; intros cur Hcur; [exact Hcur |].
      cbn [fold_left]. apply IH. unfold Voices.set_voice.
      destruct (known_voice_cases v) as [E | [E | [E | [E | E]]]];
        rewrite E; cbn [fst]; try exact Hcur; eexists; split; reflexivity. }
    apply Hinv. eexists. split; reflexivity.
  - intros v cur. unfold Voices.set_voice. split.
    + destruct (known_voice_cases v) as [E | H]; [rewrite E; discriminate | auto].
    + intros [-> | [-> | [-> | ->]]]; reflexivity.
Qed.

End VoiceProfiles.

(** ** content_sourcing/parsers.py *)

Example extract_keywords_demo :
  Parsers.extract_keywords Parsers.ascii_lower
    "The Pacific Ocean is deeper than Mount Everest is tall." 3
  = ["ocean"; "pacific"; "deeper"].
Proof. reflexivity. Qed.

Section Keywords.

Variable str_lower : string -> string.

(** What a keyword taken from the text looks like. *)
Lemma keyword_step_keeps (P : string -> Prop) (words : list string) :
  (forall w, w ∈ words ->
     let clean := Parsers.strip Parsers.strip_chars w in
     (String.length clean <? 4)%nat = false ->
     Parsers.mem (str_lower clean) Parsers.stop_words = false ->
     P clean) ->
  forall acc,
    Forall P (fst acc) -> Forall P (snd acc) ->
    Forall P (fst (fold_left (Parsers.keyword_step str_lower) words acc))
    /\ Forall P (snd (fold_left (Parsers.keyword_step str_lower) words acc)).
Proof.
  induction words as [| w words IH]; intros HP acc Hk Hp; [split; assumption |].
  cbn [fold_left]. apply IH.
  - intros w' Hw'. apply HP. right. exact Hw'.
  - destruct acc as [kws prio]. unfold Parsers.keyword_step.
    destruct (_ <? 4)%nat eqn:E1; cbn [orb]; [exact Hk |].
    destruct (Parsers.mem (str_lower _) Parsers.stop_words) eqn:E2; [exact Hk |].
    destruct (existsb _ Parsers.priority_indicators).
    + destruct (Parsers.mem _ prio); exact Hk.
    + destruct (Parsers.mem _ kws); [exact Hk |]. cbn [fst] in *.
      apply Forall_app. split; [exact Hk |]. apply Forall_singleton.
      apply (HP w); [left | exact E1 | exact E2].
  - destruct acc as [kws prio]. unfold Parsers.keyword_step.
    destruct (_ <? 4)%nat eqn:E1; cbn [orb]; [exact Hp |].
    destruct (Parsers.mem (str_lower _) Parsers.stop_words) eqn:E2; [exact Hp |].
    destruct (existsb _ Parsers.priority_indicators).
    + destruct (Parsers.mem _ prio); [exact Hp |]. cbn [snd] in *.
      apply Forall_app. split; [exact Hp |]. apply Forall_singleton.
      apply (HP w); [left | exact E1 | exact E2].
    + destruct (Parsers.mem _ kws); exact Hp.
Qed.

(** X23: for [max_keywords >= 0], [extract_keywords] returns at most
    [max_keywords] keywords and at least two of them when [max_keywords]
    allows (the three fallback topics fill in when the text gives fewer
    than two); every keyword has four characters or more, and is either a
    fallback topic or a word of the lower-cased text, stripped of its
    punctuation, whose lower case is no stop word. With the default of
    three, as the pipeline calls it, the slice [keywords[:3]] of
    [find_best_video] drops nothing. *)
Theorem X23_extracted_keywords (fact_text : string) (max_keywords : Z) :
  (0 <= max_keywords)%Z ->
  let kws := Parsers.extract_keywords str_lower fact_text max_keywords in
  (Z.of_nat (length kws) <= max_keywords)%Z
  /\ (Z.min max_keywords 2 <= Z.of_nat (length kws))%Z
  /\ (forall k, k ∈ kws ->
        (4 <= String.length k)%nat
        /\ (k ∈ Parsers.fallback_topics
            \/ (Parsers.mem (str_lower k) Parsers.stop_words = false
                /\ exists w, w ∈ Py.split (str_lower fact_text)
                             /\ k = Parsers.strip Parsers.strip_chars w)))
  /\ (max_keywords = 3%Z -> take 3 kws = kws).
Proof.
  intros Hmax kws.
  set (P := fun k : string =>
              (4 <= String.length k)%nat
              /\ (k ∈ Parsers.fallback_topics
                  \/ (Parsers.mem (str_lower k) Parsers.stop_words = false
                      /\ exists w, w ∈ Py.split (str_lower fact_text)
                                   /\ k = Parsers.strip Parsers.strip_chars w))).
  assert (HP : forall w, w ∈ Py.split (str_lower fact_text) ->
            let clean := Parsers.strip Parsers.strip_chars w in
            (String.length clean <? 4)%nat = false ->
            Parsers.mem (str_lower clean) Parsers.stop_words = false ->
            P clean).
  { intros w Hw clean E1 E2. split; [apply Nat.ltb_ge in E1; exact E1 |].
    right. split; [exact E2 |]. exists w. split; [exact Hw | reflexivity]. }
  destruct (keyword_step_keeps P (Py.split (str_lower fact_text)) HP
              (@nil string, @nil string) (Forall_nil_2 P) (Forall_nil_2 P))
    as [Hk Hp].
  subst kws. unfold Parsers.extract_keywords.
  destruct (fold_left _ _ _) as [keywords priority]. cbn [fst snd] in Hk, Hp.
  set (final := if (length (priority ++ keywords) <? 2)%nat
                then (priority ++ keywords) ++ Parsers.fallback_topics
                else priority ++ keywords).
  assert (Hfinal : Forall P final).
  { unfold final. destruct (_ <? 2)%nat.
    - apply Forall_app. split; [apply Forall_app; split; assumption |].
      unfold Parsers.fallback_topics.
      repeat (apply Forall_cons; split;
              [split; [cbn; lia | left; apply list_elem_of_In; cbn; auto] |]).
      apply Forall_nil_2.
    - apply Forall_app. split; assumption. }
  assert (Hlen : (2 <= length final)%nat).
  { unfold final. destruct (_ <? 2)%nat eqn:E.
    - rewrite length_app. cbn. lia.
    - apply Nat.ltb_ge in E. exact E. }
  unfold Parsers.slice_upto.
  replace (0 <=? max_keywords)%Z with true by (symmetry; apply Z.leb_le; exact Hmax).
  split; [rewrite length_take; lia |].
  split; [rewrite length_take; lia |].
  split.
  - intros k Hk'. apply subseteq_take in Hk'.
    rewrite Forall_forall in Hfinal. exact (Hfinal k Hk').
  - intros ->. rewrite take_take. reflexivity.
Qed.

End Keywords.

Lemma X23_extracted_keywords_witness :
  (Z.of_nat (length (Parsers.extract_keywords Parsers.ascii_lower
                       "Octopuses have three hearts." 3)) <= 3)%Z.
Proof.
  exact (proj1 (X23_extracted_keywords Parsers.ascii_lower
                  "Octopuses have three hearts." 3 ltac:(lia))).
Defined.

(** ** main.py: acquiring the background video *)

Section Acquisition.

Variable pexels_key pixabay_key : string.
Variable pexels_api pixabay_api : nat -> string -> option (list Assets.Video).
Variable rnd : nat -> nat.
Variable fetch : string -> nat -> Assets.attempt_result.

Lemma download_attempts_any_state (attempts : list Z) (max_retries : Z)
    (video_url file_path : string) (st : Assets.net_state) :
  let run := Assets.download_attempts fetch attempts max_retries video_url
               file_path st in
  (Assets.fetch_calls st <= Assets.fetch_calls (fst run)
   <= Assets.fetch_calls st + length attempts)%nat
  /\ (forall p, snd run = Py.Return (Some p) ->
        p = file_path /\ (Assets.fetch_calls st < Assets.fetch_calls (fst run))%nat).
Proof.
  revert st. induction attempts as [| a rest IH]; intros st.
  - cbn. split; [lia | discriminate].
  - cbn [Assets.download_attempts length].
    destruct (fetch video_url (Assets.fetch_calls st)).
    + cbn. split; [lia |]. intros p [= <-]. split; [reflexivity | lia].
    + destruct (a <? max_retries - 1)%Z.
      * specialize (IH {| Assets.fetch_calls := S (Assets.fetch_calls st);
                          Assets.slept := Assets.slept st ++ [(2 ^ a)%Z] |}).
        cbn [Assets.fetch_calls Assets.slept] in *. destruct IH as [Hb Hp].
        split; [lia |]. intros p Hs. destruct (Hp p Hs). split; [assumption | lia].
      * cbn. split; [lia | discriminate].
    + cbn. split; [lia | discriminate].
Qed.

Lemma find_best_video_queries (api1 api2 : string -> option (list Assets.Video))
    (keywords : list string) (source : string) (min_duration : Z) (r : nat) :
  (length (fst (Assets.find_best_video pexels_key pixabay_key api1 api2 keywords
                  source min_duration r)) <= 6)%nat.
Proof.
  assert (Hfst : fst (Assets.find_best_video pexels_key pixabay_key api1 api2
                        keywords source min_duration r)
                 = flat_map (Assets.keyword_queries pexels_key pixabay_key source)
                     (take 3 keywords)).
  { unfold Assets.find_best_video. rewrite pool_refines. unfold Assets.pool_spec.
    destruct (flat_map (Assets.keyword_survivors _ _ _ _ _ _) _); reflexivity. }
  rewrite Hfst.
  assert (Hk : forall kws : list string,
            (length (flat_map (Assets.keyword_queries pexels_key pixabay_key source)
                       kws) <= 2 * length kws)%nat).
  { induction kws as [| k kws IH]; [cbn; lia |].
    cbn [flat_map length]. rewrite length_app. unfold Assets.keyword_queries at 1.
    destruct (Assets.pexels_enabled _ _), (Assets.pixabay_enabled _ _);
      cbn [app length]; lia. }
  specialize (Hk (take 3 keywords)). rewrite length_take in Hk. lia.
Qed.

Lemma acquire_loop_bounds (keywords : list string) (video_dir : string) :
  forall (attempts : list Z) (st : Assets.net_state)
         (log : list Assets.provider_query),
    let run := Pipeline.acquire_loop pexels_key pixabay_key pexels_api pixabay_api
                 rnd fetch attempts keywords video_dir st log in
    (Assets.fetch_calls (fst (fst run))
     <= Assets.fetch_calls st + 3 * length attempts)%nat
    /\ (length (snd (fst run)) <= length log + 6 * length attempts)%nat
    /\ (forall p, snd run = Py.Return (Some p) ->
          p = Py.path_join video_dir "background.mp4"
          /\ (Assets.fetch_calls st < Assets.fetch_calls (fst (fst run)))%nat).
Proof.
  induction attempts as [| a rest IH]; intros st log.
  - cbn. split; [lia |]. split; [lia | discriminate].
  - cbn [Pipeline.acquire_loop length].
    pose proof (find_best_video_queries (pexels_api (Z.to_nat a))
                  (pixabay_api (Z.to_nat a)) keywords "both" 10
                  (rnd (Z.to_nat a))) as Hq.
    destruct (Assets.find_best_video _ _ _ _ _ _ _ _) as [sent [c |]];
      cbn [fst] in Hq.
    2:{ cbn [fst snd]. rewrite length_app. split; [lia |]. split; [lia | discriminate]. }
    assert (Hcont : forall st',
              (Assets.fetch_calls st <= Assets.fetch_calls st'
               <= Assets.fetch_calls st + 3)%nat ->
              let run := Pipeline.acquire_loop pexels_key pixabay_key pexels_api
                           pixabay_api rnd fetch rest keywords video_dir st'
                           (log ++ sent) in
              (Assets.fetch_calls (fst (fst run))
               <= Assets.fetch_calls st + 3 * S (length rest))%nat
              /\ (length (snd (fst run)) <= length log + 6 * S (length rest))%nat
              /\ (forall p, snd run = Py.Return (Some p) ->
                    p = Py.path_join video_dir "background.mp4"
                    /\ (Assets.fetch_calls st
                        < Assets.fetch_calls (fst (fst run)))%nat)).
    { intros st' Hst'. specialize (IH st' (log ++ sent)). cbv zeta in IH.
      rewrite length_app in IH. destruct IH as (H1 & H2 & H3).
      cbv zeta. split; [lia |]. split; [lia |].
      intros p Hp. destruct (H3 p Hp). split; [assumption | lia]. }
    destruct (Assets.get_video_url c) as [url |]; [| apply Hcont; lia].
    destruct (negb (Py.str_truthy url)); [apply Hcont; lia |].
    unfold Assets.download_video. cbn [from_option id].
    pose proof (download_attempts_any_state (Py.range 3) 3 url
                  (Py.path_join video_dir
                     (if Py.str_truthy "background.mp4" then "background.mp4"
                      else "background.mp4")) st) as [Hb Hp].
    change (length (Py.range 3)) with 3%nat in Hb.
    destruct (Assets.download_attempts fetch (Py.range 3) 3 url _ st)
      as [st1 [[p |] |]]; cbn [fst snd] in *.
    + rewrite length_app. split; [lia |]. split; [lia |].
      intros q [= <-]. destruct (Hp p eq_refl) as [-> Hlt]. split; [reflexivity | lia].
    + apply Hcont. lia.
    + rewrite length_app. split; [lia |]. split; [lia | discriminate].
Qed.

(** X24: the acquisition step of [generate_video] selects at most three
    candidates and so sends at most 18 searches and at most 9 requests for
    video files, whatever the providers and the downloads do; when it
    yields a background video, that is [video_dir / 'background.mp4'] and
    at least one request was made; and when the first selection finds no
    candidate, the step gives up at once, without any request for a
    video file. *)
Theorem X24_acquisition_is_bounded (keywords : list string) (video_dir : string) :
  let st0 := {| Assets.fetch_calls := 0; Assets.slept := [] |} in
  let run := Pipeline.acquire_background_video pexels_key pixabay_key pexels_api
               pixabay_api rnd fetch keywords video_dir st0 in
  (Assets.fetch_calls (fst (fst run)) <= 9)%nat
  /\ (length (snd (fst run)) <= 18)%nat
  /\ (forall p, snd run = Py.Return (Some p) ->
        p = Py.path_join video_dir "background.mp4"
        /\ (0 < Assets.fetch_calls (fst (fst run)))%nat)
  /\ (snd (Assets.find_best_video pexels_key pixabay_key (pexels_api 0)
             (pixabay_api 0) keywords "both" 10 (rnd 0)) = None ->
      snd run = Py.Return None /\ fst (fst run) = st0).
Proof.
  intros st0 run. subst run. unfold Pipeline.acquire_background_video.
  pose proof (acquire_loop_bounds keywords video_dir (Py.range 3) st0 [])
    as (H1 & H2 & H3).
  change (length (Py.range 3)) with 3%nat in H1, H2. cbn [length] in H2.
  cbn [Assets.fetch_calls st0] in H1, H3.
  split; [exact H1 |]. split; [exact H2 |]. split; [exact H3 |].
  intros Hnone. change (Py.range 3) with [0; 1; 2]%Z.
  cbn [Pipeline.acquire_loop]. change (Z.to_nat 0) with 0%nat.
  destruct (Assets.find_best_video _ _ _ _ _ _ _ _) as [sent res].
  cbn [snd] in Hnone. subst res. split; reflexivity.
Qed.

End Acquisition.

(** ** narration/tts.py and video_assembly/editor.py: captions in time *)

Section CaptionsInTime.

Local Open Scope Q_scope.





End CaptionsInTime.

(** ** publishing/scheduler.py: the statuses of a queue *)

Section QueueStatuses.

Variable clock : nat -> Z.
Variable disk_writable : bool.

Lemma update_first_Forall (P : Scheduler.QueueEntry -> Prop) (video_id : string)
    (f : Scheduler.QueueEntry -> Scheduler.QueueEntry)
    (q q' : list Scheduler.QueueEntry) :
  (forall video, P (f video)) -> Forall P q ->
  Scheduler.update_first video_id f q = Some q' -> Forall P q'.
Proof.
  intros Hf. revert q'. induction q as [| v q IH]; intros q' Hq Hup;
    cbn [Scheduler.update_first] in Hup; [discriminate Hup |].
  inversion Hq as [| ? ? Hv Hrest]; subst.
  destruct (String.eqb (Scheduler.id v) video_id).
  - injection Hup as <-. constructor; [apply Hf | exact Hrest].
  - destruct (Scheduler.update_first video_id f q) as [r |]; [| discriminate Hup].
    injection Hup as <-. constructor; [exact Hv | apply IH; [exact Hrest | reflexivity]].
Qed.

Lemma purge_Forall (P : Scheduler.QueueEntry -> Prop) (cutoff : Z)
    (q : list Scheduler.QueueEntry) (reads : nat) :
  Forall P q -> Forall P (fst (Scheduler.purge clock q cutoff reads)).
Proof.
  revert reads. induction q as [| v q IH]; intros reads Hq;
    cbn [Scheduler.purge]; [constructor |].
  inversion Hq as [| ? ? Hv Hrest]; subst.
  destruct (String.eqb (Scheduler.status v) "uploaded").
  - specialize (IH (S reads) Hrest).
    destruct (Scheduler.purge clock q cutoff (S reads)) as [kept reads'].
    cbn [fst] in IH.
    destruct (_ <? cutoff)%Z; cbn [fst]; [exact IH | constructor; assumption].
  - specialize (IH reads Hrest).
    destruct (Scheduler.purge clock q cutoff reads) as [kept reads'].
    cbn [fst] in *. constructor; assumption.
Qed.

Lemma known_status_counts (q : list Scheduler.QueueEntry) :
  Forall Scheduler.known_status q ->
  Scheduler.count_status "total" q = 0%Z
  /\ (Scheduler.count_status "pending" q + Scheduler.count_status "uploaded" q
      + Scheduler.count_status "failed" q = Z.of_nat (length q))%Z.
Proof.
  unfold Scheduler.count_status.
  induction 1 as [| v q Hv Hq IH]; [split; reflexivity |].
  destruct IH as [IHt IHs]. cbn [List.filter length].
  destruct Hv as [E | [E | E]]; rewrite E;
    cbn [String.eqb Ascii.eqb Bool.eqb length]; split; lia.
Qed.

(** X27: the scheduler never gives an entry a status other than
    ['pending'], ['uploaded'] and ['failed']. When every entry of the
    queue has one of these, so has every entry after [add_to_queue],
    [mark_uploaded], [mark_failed], [clear_completed] and
    [schedule_batch]; and for such a queue the statistics are the
    expected ones: ['total'] is the length of the queue and the three
    other counts add up to it. *)
Theorem X27_statuses_stay_known (st : Scheduler.state) :
  Forall Scheduler.known_status (Scheduler.queue st) ->
  (forall video_path title description tags scheduled_time,
     Forall Scheduler.known_status
       (Scheduler.queue
          (fst (Scheduler.add_to_queue clock disk_writable video_path title
                  description tags scheduled_time st))))
  /\ (forall video_id youtube,
        Forall Scheduler.known_status
          (Scheduler.queue
             (fst (Scheduler.mark_uploaded clock disk_writable video_id
                     youtube st))))
  /\ (forall video_id err,
        Forall Scheduler.known_status
          (Scheduler.queue
             (fst (Scheduler.mark_failed clock disk_writable video_id err st))))
  /\ (forall older_than_days,
        Forall Scheduler.known_status
          (Scheduler.queue
             (fst (Scheduler.clear_completed clock disk_writable
                     older_than_days st))))
  /\ (forall path_str videos interval_hours,
        Forall Scheduler.known_status
          (Scheduler.queue
             (fst (Scheduler.schedule_batch clock disk_writable path_str videos
                     interval_hours st))))
  /\ Scheduler.total (Scheduler.get_queue_stats st)
     = Z.of_nat (length (Scheduler.queue st))
  /\ (Scheduler.pending (Scheduler.get_queue_stats st)
      + Scheduler.uploaded (Scheduler.get_queue_stats st)
      + Scheduler.failed (Scheduler.get_queue_stats st)
      = Scheduler.total (Scheduler.get_queue_stats st))%Z.
Proof.
  intros Hq. repeat apply conj.
  - intros video_path title description tags scheduled_time.
    destruct (add_to_queue_queue clock disk_writable video_path title
                description tags scheduled_time st) as (e & -> & Hs & _).
    apply Forall_app. split; [exact Hq |].
    constructor; [left; exact Hs | constructor].
  - intros video_id youtube. unfold Scheduler.mark_uploaded.
    destruct (Scheduler.update_first video_id _ (Scheduler.queue st))
      as [q' |] eqn:Hup; cbn [fst]; [| exact Hq].
    rewrite save_queue_queue. cbn [Scheduler.queue].
    refine (update_first_Forall Scheduler.known_status _ _ _ _ _ Hq Hup).
    intros video. right. left. reflexivity.
  - intros video_id err. unfold Scheduler.mark_failed.
    destruct (Scheduler.update_first video_id _ (Scheduler.queue st))
      as [q' |] eqn:Hup; cbn [fst]; [| exact Hq].
    rewrite save_queue_queue. cbn [Scheduler.queue].
    refine (update_first_Forall Scheduler.known_status _ _ _ _ _ Hq Hup).
    intros video. right. right. reflexivity.
  - intros older_than_days. rewrite clear_completed_queue.
    apply purge_Forall, Hq.
  - intros path_str videos interval_hours. unfold Scheduler.schedule_batch.
    destruct (schedule_loop_queue clock disk_writable path_str interval_hours
                (clock (Scheduler.clock_reads st)) videos 0
                {| Scheduler.queue := Scheduler.queue st;
                   Scheduler.queue_file := Scheduler.queue_file st;
                   Scheduler.clock_reads := S (Scheduler.clock_reads st) |})
      as (_ & new & -> & _ & Hpend & _).
    cbn [Scheduler.queue]. apply Forall_app. split; [exact Hq |].
    eapply Forall_impl; [exact Hpend |]. intros e Hs. left. exact Hs.
  - rewrite stats_of_counts. cbn [Scheduler.total].
    destruct (known_status_counts _ Hq) as [-> _]. lia.
  - rewrite stats_of_counts.
    cbn [Scheduler.total Scheduler.pending Scheduler.uploaded Scheduler.failed].
    destruct (known_status_counts _ Hq) as [-> ->]. lia.
Qed.

End QueueStatuses.

Lemma X27_statuses_stay_known_witness :
  Scheduler.total
    (Scheduler.get_queue_stats
       {| Scheduler.queue := [Scheduler.example_entry "1" "pending";
                              Scheduler.example_entry "2" "failed"];
          Scheduler.queue_file := None;
          Scheduler.clock_reads := 0 |})
  = 2%Z.
Proof.
  exact (proj1 (proj2 (proj2 (proj2 (proj2 (proj2
    (X27_statuses_stay_known (fun _ => 0%Z) true
       {| Scheduler.queue := [Scheduler.example_entry "1" "pending";
                              Scheduler.example_entry "2" "failed"];
          Scheduler.queue_file := None;
          Scheduler.clock_reads := 0 |}
       ltac:(constructor;
             [left; reflexivity
             | constructor; [right; right; reflexivity | constructor]])))))))).
Defined.

(** ** video_assembly/assets.py: the URL of a candidate whose files are sized *)

Section SizedVariants.

(** X28: what [get_video_url] does when every file of a Pexels candidate
    has numbers for its width and height (or lacks the keys, which count
    as 0): no URL when no file is portrait-oriented (width < height), and
    otherwise the link of a portrait file whose width is the greatest
    among the portrait files. For a Pixabay candidate it returns the URL
    of the medium tier when that tier is present, otherwise of the large
    tier, otherwise of the small tier, and no URL when none is present;
    for any other source it returns no URL. *)
Theorem X28_url_of_sized_variants (video_data : Assets.Candidate) :
  let data := Assets.data video_data in
  let files := default [] (Assets.video_files data) in
  let videos := default ∅ (Assets.videos data) in
  (Assets.source video_data = "pexels" ->
   Forall (fun f => is_Some (Assets.sizes f)) files ->
     (List.filter Assets.portrait files = [] ->
        Assets.get_video_url video_data = None)
     /\ (List.filter Assets.portrait files <> [] ->
          exists best : Assets.VideoFile,
            Assets.get_video_url video_data = Assets.link best
            /\ best ∈ files
            /\ Assets.portrait best = true
            /\ forall f : Assets.VideoFile,
                 f ∈ files -> Assets.portrait f = true ->
                 (Assets.width_of f <= Assets.width_of best)%Z))
  /\ (Assets.source video_data = "pixabay" ->
      Assets.get_video_url video_data
      = match Assets.tier videos "medium" with
        | Some info => info !! "url"
        | None =>
            match Assets.tier videos "large" with
            | Some info => info !! "url"
            | None =>
                match Assets.tier videos "small" with
                | Some info => info !! "url"
                | None => None
                end
            end
        end)
  /\ (Assets.source video_data <> "pexels" ->
      Assets.source video_data <> "pixabay" ->
      Assets.get_video_url video_data = None).
Proof.
  intros data files videos. unfold Assets.get_video_url.
  fold data. fold files. fold videos.
  split; [| split].
  - intros -> Hsized. cbn [String.eqb Ascii.eqb Bool.eqb].
    rewrite (portrait_loop_sized files Hsized). split.
    + intros ->. reflexivity.
    + intros Hne. destruct (List.filter Assets.portrait files) as [| f fs] eqn:E;
        [congruence |].
      assert (Hport : forall g, g ∈ f :: fs <->
                g ∈ files /\ Assets.portrait g = true).
      { intros g. rewrite <- E, !list_elem_of_In, filter_In. reflexivity. }
      assert (Hall : Forall (fun g => is_Some (Assets.sizes g)) (f :: fs)).
      { apply Forall_forall. intros g Hg. apply Hport in Hg as [Hg _].
        exact (proj1 (Forall_forall _ _) Hsized g Hg). }
      destruct (max_by_width_spec f fs Hall) as (best & -> & Hin & Hmax).
      exists best. split; [reflexivity |].
      apply Hport in Hin as [Hin Hp].
      split; [exact Hin |]. split; [exact Hp |].
      intros g Hg Hgp. apply Hmax, Hport. split; assumption.
  - intros ->. cbn [String.eqb Ascii.eqb Bool.eqb]. apply first_tier_preference.
  - intros Hp Hx.
    destruct (String.eqb_spec (Assets.source video_data) "pexels"); [congruence |].
    destruct (String.eqb_spec (Assets.source video_data) "pixabay"); [congruence |].
    reflexivity.
Qed.

End SizedVariants.

Lemma X28_url_of_sized_variants_witness :
  let file := fun w h url =>
    {| Assets.width := Some (Assets.Num w); Assets.height := Some (Assets.Num h);
       Assets.link := Some url |} in
  let hit :=
    {| Assets.v_duration := Some 12%Z;
       Assets.video_files :=
         Some [file 1920 1080 "landscape"; file 540 960 "small"%string;
               file 1080 1920 "full"; file 720 1280 "medium"]%Z;
       Assets.videos := None |} in
  exists best : Assets.VideoFile,
    Some "full" = Assets.link best
    /\ Assets.portrait best = true
    /\ (720 <= Assets.width_of best)%Z.
Proof.
  intros file hit.
  destruct (X28_url_of_sized_variants (Assets.wrap "pexels" "ocean" hit)) as [H _].
  destruct (proj2 (H eq_refl ltac:(repeat constructor; eexists; reflexivity))
              ltac:(discriminate))
    as (best & Hurl & _ & Hp & Hmax).
  exists best. split; [exact Hurl |]. split; [exact Hp |].
  apply (Hmax (file 720 1280 "medium")%Z); [| reflexivity].
  apply list_elem_of_In. cbn. auto 10.
Defined.
